(** * SelectiveMagnoViT: patch budget, validation and selection

    A shallow embedding of [selective_magno_vit/models/selective_vit.py].
    Python floats are IEEE binary64 values, written with the reference
    model of [Corelib.Floats.SpecFloat] (precision 53, [emax] 1024);
    Python ints are [Z]; a raised exception is a value of [Py.result];
    the backbone is a store of attributes, updated by assignment.

    [torch] and [timm] are the class instances [Torch] and [Timm], and
    the sizes of their tensors [TensorSizes] and [TimmSizes]. The
    scorer and the selector, which the model imports from two modules
    that are not among the sources, are the class [Collaborators]; their
    behaviour as the specification describes it is [spec_collaborators].

    The file has the definitions first (Python and binary64 primitives,
    the model, the specified scorer and selector, a small executable
    backend), then the facts: binary64 rounding, sorting and regrouping,
    the properties of the model, and runs on concrete inputs. *)

From Corelib Require Import SpecFloat.
From Stdlib Require Import ZArith Lia List Bool String Sorting.Sorted.
From stdpp Require Import gmap strings list sorting.

Local Open Scope Z_scope.

(** ** Python results: a value or a raised exception *)

Module Py.

(** An exception is identified by its class name. *)
Inductive result (A : Type) : Type :=
| Ok (a : A)
| Raise (cls : string).
Arguments Ok {A} a.
Arguments Raise {A} cls.

Definition bind {A B} (r : result A) (k : A -> result B) : result B :=
  match r with
  | Ok a => k a
  | Raise cls => Raise cls
  end.

Definition ValueError : string := "ValueError".
Definition ZeroDivisionError : string := "ZeroDivisionError".
Definition OverflowError : string := "OverflowError".
Definition RuntimeError : string := "RuntimeError".
Definition AssertionError : string := "AssertionError".
Definition AttributeError : string := "AttributeError".
Definition TypeError : string := "TypeError".
Definition IndexError : string := "IndexError".

End Py.

#[global] Instance result_ret : MRet Py.result := @Py.Ok.
#[global] Instance result_bind : MBind Py.result :=
  fun A B k r => Py.bind r k.

(** ** Binary64 arithmetic as Python uses it *)

Module F64.

Definition prec : Z := 53.
Definition emax : Z := 1024.

Definition float := spec_float.

(** [float(n)] for a Python int: the nearest binary64 value, and
    [OverflowError] when that would be an infinity. *)
Definition of_int (n : Z) : Py.result float :=
  match binary_normalize prec emax n 0 false with
  | S754_infinity _ => Py.Raise Py.OverflowError
  | x => Py.Ok x
  end.

(** [x * y], [x < y] and [x <= y] on floats; a comparison with NaN is
    false. *)
Definition mul (x y : float) : float := SFmul prec emax x y.
Definition ltb (x y : float) : bool := SFltb x y.
Definition leb (x y : float) : bool := SFleb x y.

(** [n * x] with [n] an int and [x] a float: the int is converted first. *)
Definition int_mul (n : Z) (x : float) : Py.result float :=
  fn ← of_int n; Py.Ok (mul fn x).

(** Sign-magnitude integer [m * 2^e] truncated toward zero. *)
Definition trunc_mag (m : positive) (e : Z) : Z :=
  match e with
  | Zneg p => Z.shiftr (Zpos m) (Zpos p)
  | _ => Z.shiftl (Zpos m) e
  end.

(** [int(x)]: truncation toward zero; infinities and NaN raise. *)
Definition to_int (x : float) : Py.result Z :=
  match x with
  | S754_zero _ => Py.Ok 0
  | S754_finite s m e =>
      Py.Ok (if s then - trunc_mag m e else trunc_mag m e)
  | S754_infinity _ => Py.Raise Py.OverflowError
  | S754_nan => Py.Raise Py.ValueError
  end.

(** Magnitude [m * 2^e] rounded to the nearest integer, ties to even. *)
Definition round_mag (m : positive) (e : Z) : Z :=
  match e with
  | Zneg p =>
      let q := Z.shiftr (Zpos m) (Zpos p) in
      let r := Z.land (Zpos m) (Z.ones (Zpos p)) in
      let half := Z.shiftl 1 (Zpos p - 1) in
      match r ?= half with
      | Lt => q
      | Gt => q + 1
      | Eq => if Z.even q then q else q + 1
      end
  | _ => Z.shiftl (Zpos m) e
  end.

(** [round(x)] with one argument: nearest integer, ties to even. *)
Definition py_round (x : float) : Py.result Z :=
  match x with
  | S754_zero _ => Py.Ok 0
  | S754_finite s m e =>
      Py.Ok (if s then - round_mag m e else round_mag m e)
  | S754_infinity _ => Py.Raise Py.OverflowError
  | S754_nan => Py.Raise Py.ValueError
  end.

(** The float literal [a/b] for small decimal literals such as [0.4]:
    the correctly rounded quotient. *)
Definition lit (a b : Z) : float :=
  SFdiv prec emax (binary_normalize prec emax a 0 false)
                  (binary_normalize prec emax b 0 false).

(** [n ** 0.5] for an int [n]: the correctly rounded square root of
    [float(n)], which is what the C library's [pow] returns for the
    exponent one half on the values used here. A negative base gives a
    complex number, which [int] then rejects. *)
Definition int_pow_half (n : Z) : Py.result float :=
  if n <? 0 then Py.Raise Py.TypeError
  else fn ← of_int n; Py.Ok (SFsqrt prec emax fn).

Definition zero : float := S754_zero false.
Definition one : float := Eval vm_compute in lit 1 1.

(** *** Magnitudes compared with integers *)

(** [mag_le m e n]: the magnitude [m * 2^e] is at most the integer [n]. *)
Definition mag_le (m e n : Z) : Prop :=
  m * 2 ^ Z.max e 0 <= n * 2 ^ Z.max (- e) 0.

(** After [k] one-bit right shifts of the mantissa [m], the record
    holds [m / 2^k] and knows whether a non-zero bit was shifted out. *)
Definition shr_inv (m k : Z) (rec : shr_record) : Prop :=
  shr_m rec = m / 2 ^ k /\
  (shr_r rec || shr_s rec = false <-> m mod 2 ^ k = 0).

(** A float that is zero or positive, and at most the integer [n]. *)
Definition nonneg_le (x : float) (n : Z) : Prop :=
  match x with
  | S754_zero s => s = false
  | S754_finite s m e => s = false /\ mag_le (Zpos m) e n
  | _ => False
  end.

(** [mag_eq m e n]: the magnitude [m * 2^e] is the integer [n]. *)
Definition mag_eq (m e n : Z) : Prop :=
  m * 2 ^ Z.max e 0 = n * 2 ^ Z.max (- e) 0.

End F64.

(** ** The tensor backend

    [torch] and [timm] are external. Their tensors are read at the level
    the model needs: an embedding of [embed_dim] scalars is one [vec], a
    row of class scores one [logit_row]; dropout draws from a
    [generator]. *)

Class Torch : Type := {
  (** element of a score or image tensor *)
  scalar : Type;
  (** one embedding vector *)
  vec : Type;
  (** one row of [num_classes] logits *)
  logit_row : Type;
  (** state of the random number generator *)
  generator : Type;
  (** elementwise [+] of two embeddings *)
  vadd : vec -> vec -> vec;
  (** the order [torch.topk] and [torch.sort] use on scores *)
  score_le : scalar -> scalar -> bool;
  (** elementwise [score > x] against a Python float *)
  score_gt : scalar -> F64.float -> bool;
  (** mean of the absolute values of a cell of pixels *)
  mean_abs : list scalar -> scalar;
}.

(** The size of the last dimension. [+] expands an operand whose last
    dimension has size 1 and rejects any other difference; [torch.cat]
    along dimension 1 rejects every difference. *)
Class TensorSizes `{Torch} : Type := {
  (** number of scalars of an embedding *)
  vec_size : vec -> Z;
  (** [v.expand(n)] of an embedding of one scalar *)
  vexpand : Z -> vec -> vec;
  vadd_size :
    forall a b, vec_size a = vec_size b -> vec_size (vadd a b) = vec_size a;
}.

(** A batch of images of shape [(B, C, H, W)]. *)
Record image_batch `{Torch} : Type := {
  im_batch : nat;
  im_chans : nat;
  im_height : nat;
  im_width : nat;
  im_pixel : nat -> nat -> nat -> nat -> scalar;
}.

(** [timm.models.vision_transformer.PatchEmbed]: its configuration and
    its projection, a convolution over [pe_in_chans] channels
    ([pe_proj x b n] embeds patch [n] of image [b]). *)
Record PatchEmbed `{Torch} : Type := {
  pe_img_size : Z;
  pe_patch_size : Z;
  pe_in_chans : Z;
  pe_num_patches : Z;
  pe_proj : image_batch -> nat -> nat -> vec;
}.

(** What an attribute of the backbone can hold. A tensor of shape
    [(1, n, D)] is its [n] rows. *)
Inductive value `{Torch} : Type :=
| VInt (z : Z)
| VTensor (rows : list vec)
| VPatchEmbed (pe : PatchEmbed)
| VBlocks (f : bool -> generator -> list (list vec) ->
               Py.result (list (list vec) * generator))
| VLinear (f : list vec -> Py.result (list logit_row)).

(** What [timm] and [torch.nn] build for the constructor. Each call can
    raise (an unknown model name, a size a layer rejects); fresh weights
    are whatever the library draws, only their shape is known. *)
Class Timm `{Torch} : Type := {
  (** [timm.create_model(name, pretrained=...)]: the backbone's attributes *)
  create_model : string -> bool -> Py.result (gmap string value);
  (** [PatchEmbed(img_size=, patch_size=, in_chans=, embed_dim=)]; its
      grid has [img_size // patch_size] cells a side *)
  PatchEmbed_init : Z -> Z -> Z -> Z -> Py.result PatchEmbed;
  PatchEmbed_init_fields :
    forall img_size patch_size in_chans embed_dim pe,
      PatchEmbed_init img_size patch_size in_chans embed_dim = Py.Ok pe ->
      pe_img_size pe = img_size /\ pe_patch_size pe = patch_size /\
      pe_num_patches pe = (img_size / patch_size) * (img_size / patch_size);
  (** [nn.Parameter(torch.zeros(1, n, embed_dim))] filled by
      [nn.init.trunc_normal_(_, std=.02)]: [n] fresh rows *)
  zeros_trunc_normal_ : Z -> Z -> Py.result (list vec);
  zeros_trunc_normal_length :
    forall n embed_dim rows,
      zeros_trunc_normal_ n embed_dim = Py.Ok rows -> Z.of_nat (length rows) = n;
  (** [nn.Linear(embed_dim, num_classes)] with fresh weights *)
  Linear : Z -> Z -> Py.result (list vec -> Py.result (list logit_row));
}.

(** The sizes of what [timm] and [torch.nn] build: the convolution of
    a patch embedding takes [in_chans] channels, and the rows of a
    fresh positional table have [embed_dim] scalars. *)
Class TimmSizes `{Timm} `{!TensorSizes} : Type := {
  PatchEmbed_init_in_chans :
    forall img_size patch_size in_chans embed_dim pe,
      PatchEmbed_init img_size patch_size in_chans embed_dim = Py.Ok pe ->
      pe_in_chans pe = in_chans;
  zeros_trunc_normal_size :
    forall n embed_dim rows,
      zeros_trunc_normal_ n embed_dim = Py.Ok rows ->
      Forall (fun v => vec_size v = embed_dim) rows;
}.

(** ** The two modules of this repository that the model imports

    [patch_scorer.PatchImportanceScorer] and
    [patch_selecter.SpatialThresholdSelector] are objects with these
    fields; their [forward] methods are the class [Collaborators]. *)

Record ScorerState : Type := {
  scorer_patch_size : Z;
}.

Record SelectorState : Type := {
  sel_patch_percentage : F64.float;
  sel_threshold : F64.float;
  sel_gaussian_std : F64.float;
}.

Class Collaborators `{Torch} : Type := {
  (** [scorer(line_drawing)]: scores of shape [(B, num_patches)] *)
  scorer_forward : ScorerState -> image_batch -> Py.result (list (list scalar));
  (** [selector(all_patches, pos_embed, patch_scores, line_drawing)] *)
  selector_forward :
    SelectorState -> list (list vec) -> list vec -> list (list scalar) ->
    image_batch -> Py.result (list (list vec));
}.

(** ** Python and torch primitives *)

(** [a % b] on ints. *)
Definition py_mod (a b : Z) : Py.result Z :=
  if b =? 0 then Py.Raise Py.ZeroDivisionError else Py.Ok (a mod b).

(** [for x in l] with a body that can raise. *)
Fixpoint mapM {A B : Type} (f : A -> Py.result B) (l : list A) : Py.result (list B) :=
  match l with
  | [] => Py.Ok []
  | a :: l' => b ← f a; bs ← mapM f l'; Py.Ok (b :: bs)
  end.

Section Primitives.
Context `{Torch} `{!TensorSizes}.

Definition getattr (o : gmap string value) (name : string) : Py.result value :=
  match o !! name with
  | Some v => Py.Ok v
  | None => Py.Raise Py.AttributeError
  end.

Definition as_int (v : value) : Py.result Z :=
  match v with VInt z => Py.Ok z | _ => Py.Raise Py.TypeError end.

Definition as_tensor (v : value) : Py.result (list vec) :=
  match v with VTensor rows => Py.Ok rows | _ => Py.Raise Py.TypeError end.

(** [PatchEmbed.forward]: timm asserts the input size, then projects
    every patch. The projection is a [Conv2d] with [in_chans] input
    channels and a kernel of side [patch_size]: it rejects an input
    with another number of channels, or smaller than its kernel. *)
Definition PatchEmbed_forward (pe : PatchEmbed) (x : image_batch)
  : Py.result (list (list vec)) :=
  if negb ((Z.of_nat (im_height x) =? pe_img_size pe)
           && (Z.of_nat (im_width x) =? pe_img_size pe))
  then Py.Raise Py.AssertionError
  else if negb (Z.of_nat (im_chans x) =? pe_in_chans pe)
          || (pe_img_size pe <? pe_patch_size pe)
  then Py.Raise Py.RuntimeError
  else Py.Ok (map (fun b => map (pe_proj pe x b)
                                (seq 0 (Z.to_nat (pe_num_patches pe))))
                  (seq 0 (im_batch x))).

Definition call_patch_embed (v : value) (x : image_batch)
  : Py.result (list (list vec)) :=
  match v with
  | VPatchEmbed pe => PatchEmbed_forward pe x
  | _ => Py.Raise Py.TypeError
  end.

Definition call_blocks (v : value) (training : bool) (g : generator)
    (x : list (list vec)) : Py.result (list (list vec) * generator) :=
  match v with
  | VBlocks f => f training g x
  | _ => Py.Raise Py.TypeError
  end.

Definition call_linear (v : value) (x : list vec) : Py.result (list logit_row) :=
  match v with
  | VLinear f => f x
  | _ => Py.Raise Py.TypeError
  end.

(** [a + b] of two embeddings: their sizes agree, or the one of size 1
    is expanded to the size of the other. *)
Definition vec_add (a b : vec) : Py.result vec :=
  if vec_size a =? vec_size b then Py.Ok (vadd a b)
  else if vec_size a =? 1 then Py.Ok (vadd (vexpand (vec_size b) a) b)
  else if vec_size b =? 1 then Py.Ok (vadd a (vexpand (vec_size a) b))
  else Py.Raise Py.RuntimeError.

(** [a + b] of two tensors of shapes [(1, n, D)] and [(1, m, E)],
    given by their rows: a single row is added to every row of the
    other tensor, otherwise the numbers of rows must agree. *)
Definition tensor_add (a b : list vec) : Py.result (list vec) :=
  match a, b with
  | [x], _ => mapM (vec_add x) b
  | _, [y] => mapM (fun x => vec_add x y) a
  | _, _ =>
      if Nat.eqb (length a) (length b)
      then mapM (fun xy => vec_add xy.1 xy.2) (zip a b)
      else Py.Raise Py.RuntimeError
  end.

(** All the embeddings have one size. *)
Definition same_size (vs : list vec) : bool :=
  match vs with
  | [] => true
  | v :: vs' => forallb (fun w => vec_size w =? vec_size v) vs'
  end.

(** [torch.cat([a, b], dim=1)] of two batches of sequences: the batch
    sizes and the sizes of the embeddings must agree. *)
Definition torch_cat_dim1 (a b : list (list vec)) : Py.result (list (list vec)) :=
  if Nat.eqb (length a) (length b) && same_size (concat a ++ concat b)
  then Py.Ok (zip_with app a b)
  else Py.Raise Py.RuntimeError.

(** [x[:, 0]]: the first position of every sequence. *)
Definition select_first (x : list (list vec)) : Py.result (list vec) :=
  mapM (fun s => match s with
                 | v :: _ => Py.Ok v
                 | [] => Py.Raise Py.IndexError
                 end) x.

(** [t.shape[1]] of a two-dimensional tensor given by its rows. *)
Definition shape1 {A : Type} (rows : list (list A)) : Z :=
  match rows with
  | [] => 0
  | r :: _ => Z.of_nat (length r)
  end.

(** *** [torch.topk(scores, k, dim=1)] *)

(** Insert [(i, s)] into a list sorted by descending score, after the
    entries whose score is at least [s]. *)
Fixpoint insert_desc (x : nat * scalar) (l : list (nat * scalar))
  : list (nat * scalar) :=
  match l with
  | [] => [x]
  | y :: l' =>
      if score_le x.2 y.2 then y :: insert_desc x l' else x :: y :: l'
  end.

Definition sort_desc (l : list (nat * scalar)) : list (nat * scalar) :=
  foldr insert_desc [] (reverse l).

(** [(index, score)] pairs of a row. *)
Definition enumerate (row : list scalar) : list (nat * scalar) :=
  zip (seq 0 (length row)) row.

(** Indices of a row by descending score; among equal scores the lower
    index comes first. *)
Definition rank_desc (row : list scalar) : list nat :=
  map fst (sort_desc (enumerate row)).

Definition topk_row (k : Z) (row : list scalar) : Py.result (list nat) :=
  if (k <? 0) || (Z.of_nat (length row) <? k)
  then Py.Raise Py.RuntimeError
  else Py.Ok (take (Z.to_nat k) (rank_desc row)).

Definition topk (scores : list (list scalar)) (k : Z) : Py.result (list (list nat)) :=
  mapM (topk_row k) scores.

(** *** [t.view(-1, 1, s, s)] *)

Fixpoint chunks_fuel {A : Type} (fuel n : nat) (l : list A) : list (list A) :=
  match fuel with
  | O => []
  | S fuel' =>
      match l with
      | [] => []
      | _ => take n l :: chunks_fuel fuel' n (drop n l)
      end
  end.

(** Consecutive pieces of [n] elements. *)
Definition chunks {A : Type} (n : nat) (l : list A) : list (list A) :=
  chunks_fuel (length l) n l.

(** The elements in row-major order are regrouped; the size of the
    leading dimension is inferred and must be a whole number. *)
Definition view_m1_1_s_s {A : Type} (rows : list (list A)) (s : Z)
  : Py.result (list (list (list (list A)))) :=
  let flat := concat rows in
  let cell := Z.to_nat (s * s) in
  if (s <=? 0) || negb (Nat.eqb (length flat mod cell) 0)
  then Py.Raise Py.RuntimeError
  else Py.Ok (map (fun img => [chunks (Z.to_nat s) img]) (chunks cell flat)).

(** The map of shape [(B, 1, s, s)] read back as [(B, n)]. *)
Definition flatten_map {A : Type} (m : list (list (list (list A)))) (n : Z)
  : list (list A) :=
  chunks (Z.to_nat n) (concat (concat (concat m))).

End Primitives.

(** ** The model: [class SelectiveMagnoViT(nn.Module)] *)

Record SelectiveMagnoViT `{Torch} : Type := {
  patch_percentage : F64.float;
  num_classes : Z;
  img_size : Z;
  patch_size : Z;
  vit_model_name : string;
  vit : gmap string value;
  embed_dim : Z;
  scorer : ScorerState;
  selector : SelectorState;
  num_patches : Z;
}.

(** The arguments of the constructor. A [selector_config] dict maps
    option names to floats. *)
Record init_args : Type := {
  arg_patch_percentage : F64.float;
  arg_num_classes : Z;
  arg_img_size : Z;
  arg_patch_size : Z;
  arg_vit_model_name : string;
  arg_selector_config : option (gmap string F64.float);
  arg_embed_dim : option Z;
  arg_pretrained : bool;
}.

Section Model.
Context `{Timm} `{!TensorSizes} `{!Collaborators}.

(** [SelectiveMagnoViT.__init__] *)
Definition __init__ (a : init_args) : Py.result SelectiveMagnoViT :=
  let patch_percentage := arg_patch_percentage a in
  let img_size := arg_img_size a in
  let patch_size := arg_patch_size a in
  (* Validate inputs *)
  if negb (F64.ltb F64.zero patch_percentage && F64.leb patch_percentage F64.one)
  then Py.Raise Py.ValueError
  else
    r ← py_mod img_size patch_size;
    if negb (r =? 0) then Py.Raise Py.ValueError
    else
      (* Load ViT backbone from timm *)
      vit0 ← create_model (arg_vit_model_name a) (arg_pretrained a);
      (* Get embedding dimension from loaded model *)
      embed_dim ← match arg_embed_dim a with
                  | None => v ← getattr vit0 "embed_dim"; as_int v
                  | Some d => Py.Ok d
                  end;
      (* Replace patch embedding layer for custom image size *)
      patch_embed ← PatchEmbed_init img_size patch_size 3 embed_dim;
      let vit1 := <["patch_embed" := VPatchEmbed patch_embed]> vit0 in
      (* Update positional embeddings for new number of patches *)
      let num_patches := pe_num_patches patch_embed in
      pos_embed ← zeros_trunc_normal_ (num_patches + 1) embed_dim;
      let vit2 := <["pos_embed" := VTensor pos_embed]> vit1 in
      (* Replace classifier head for custom number of classes *)
      head ← Linear embed_dim (arg_num_classes a);
      let vit3 := <["head" := VLinear head]> vit2 in
      (* Setup selector with config *)
      let selector_config := default ∅ (arg_selector_config a) in
      Py.Ok {| patch_percentage := patch_percentage;
               num_classes := arg_num_classes a;
               img_size := img_size;
               patch_size := patch_size;
               vit_model_name := arg_vit_model_name a;
               vit := vit3;
               embed_dim := embed_dim;
               scorer := {| scorer_patch_size := patch_size |};
               selector :=
                 {| sel_patch_percentage := patch_percentage;
                    sel_threshold :=
                      default (F64.lit 3 10) (selector_config !! "threshold");
                    sel_gaussian_std :=
                      default (F64.lit 25 100) (selector_config !! "gaussian_std") |};
               num_patches := num_patches |}.

(** [SelectiveMagnoViT.forward]. [training] is the module's mode and
    [g] the generator that dropout draws from. *)
Definition forward (self : SelectiveMagnoViT) (training : bool) (g : generator)
    (magno_image line_drawing : image_batch)
  : Py.result (list logit_row * generator) :=
  (* Step 1: Score patches based on line drawing density *)
  patch_scores ← scorer_forward (scorer self) line_drawing;
  (* Step 2: Extract all patches from the Magno image *)
  patch_embed ← getattr (vit self) "patch_embed";
  all_patches ← call_patch_embed patch_embed magno_image;
  (* Step 3: Select important patches *)
  pos_embed ← (v ← getattr (vit self) "pos_embed"; as_tensor v);
  selected_patches ←
    selector_forward (selector self) all_patches pos_embed patch_scores line_drawing;
  (* Step 4: Prepare [CLS] token with its positional embedding *)
  cls_token ← (v ← getattr (vit self) "cls_token"; as_tensor v);
  cls_token_with_pos ← tensor_add cls_token (take 1 pos_embed);
  (* Step 5: Combine [CLS] token with selected patches *)
  let batch_size := im_batch magno_image in
  full_sequence ←
    torch_cat_dim1 (replicate batch_size cls_token_with_pos) selected_patches;
  (* Step 6: Apply dropout to the full sequence *)
  pos_drop ← getattr (vit self) "pos_drop";
  '(full_sequence, g) ← call_blocks pos_drop training g full_sequence;
  (* Step 7: Process through transformer blocks *)
  blocks ← getattr (vit self) "blocks";
  '(x, g) ← call_blocks blocks training g full_sequence;
  norm ← getattr (vit self) "norm";
  '(x, g) ← call_blocks norm training g x;
  (* Step 8: Extract [CLS] token output for classification *)
  cls_output ← select_first x;
  (* Step 9: Final classification head *)
  head ← getattr (vit self) "head";
  logits ← call_linear head cls_output;
  Py.Ok (logits, g).

(** [SelectiveMagnoViT.get_selected_patch_indices] *)
Definition get_selected_patch_indices (self : SelectiveMagnoViT)
    (line_drawing : image_batch) : Py.result (list (list nat)) :=
  patch_scores ← scorer_forward (scorer self) line_drawing;
  x ← F64.int_mul (shape1 patch_scores) (patch_percentage self);
  t ← F64.to_int x;
  let k := Z.max 1 t in
  topk patch_scores k.

(** [SelectiveMagnoViT.get_patch_importance_map] *)
Definition get_patch_importance_map (self : SelectiveMagnoViT)
    (line_drawing : image_batch)
  : Py.result (list (list (list (list scalar)))) :=
  patch_scores ← scorer_forward (scorer self) line_drawing;
  r ← F64.int_pow_half (num_patches self);
  num_patches_per_side ← F64.to_int r;
  view_m1_1_s_s patch_scores num_patches_per_side.

(** [SelectiveMagnoViT.get_num_selected_patches] *)
Definition get_num_selected_patches (self : SelectiveMagnoViT) : Py.result Z :=
  x ← F64.int_mul (num_patches self) (patch_percentage self);
  t ← F64.to_int x;
  Py.Ok (Z.max 1 t).

End Model.

(** ** The imported modules, from their specification *)

(** Modelled from the spec: the spatial adjustment of
    [SpatialThresholdSelector] ([patch_selecter.py] is not among the
    sources). Sections 4.2 and 9 leave its formula open: a pluggable
    smoothing, parameterised by [gaussian_std], that turns the scores
    of one batch element into adjusted scores, one per patch, and may
    read the line drawing. *)
Class Smoothing `{Torch} : Type := {
  adjusted : F64.float -> image_batch -> nat -> list scalar -> list scalar;
  adjusted_length :
    forall sigma x b scores, length (adjusted sigma x b scores) = length scores;
}.

Section FromSpec.
Context `{Torch} `{!Smoothing}.

(** Modelled from the spec: the pixels of one cell of the patch grid of
    [PatchImportanceScorer] ([patch_scorer.py] is not among the
    sources); section 4.1 partitions the single channel into
    non-overlapping [patch_size] by [patch_size] cells. *)
Definition cell_pixels (x : image_batch) (ps b py px : nat) : list scalar :=
  flat_map (fun dy => map (fun dx => im_pixel x b 0 (py * ps + dy) (px * ps + dx))
                          (seq 0 ps))
           (seq 0 ps).

(** Modelled from the spec: [PatchImportanceScorer.forward]
    ([patch_scorer.py] is not among the sources). Section 4.1: one
    score per cell, the mean absolute intensity, cells in row-major
    order, output of shape [(B, (H/patch_size) * (W/patch_size))]. *)
Definition spec_scorer_forward (st : ScorerState) (x : image_batch)
  : Py.result (list (list scalar)) :=
  let ps := Z.to_nat (scorer_patch_size st) in
  let gh := (im_height x / ps)%nat in
  let gw := (im_width x / ps)%nat in
  Py.Ok (map (fun b =>
                map (fun n => mean_abs (cell_pixels x ps b (n / gw) (n mod gw))%nat)
                    (seq 0 (gh * gw)))
             (seq 0 (im_batch x))).

(** Modelled from the spec: the fixed selection size of
    [SpatialThresholdSelector]. Section 4.2:
    [k = max(1, round(N * patch_percentage))]. *)
Definition spec_num_selected (n : Z) (p : F64.float) : Py.result Z :=
  x ← F64.int_mul n p;
  r ← F64.py_round x;
  Py.Ok (Z.max 1 r).

(** Modelled from the spec: ascending order of the selected indices
    (section 4.2, output). *)
Fixpoint insert_asc (i : nat) (l : list nat) : list nat :=
  match l with
  | [] => [i]
  | j :: l' => if (i <=? j)%nat then i :: j :: l' else j :: insert_asc i l'
  end.

(** Modelled from the spec: see [insert_asc]. *)
Definition sort_asc (l : list nat) : list nat := foldr insert_asc [] l.

(** Modelled from the spec: the two-tier selection policy of
    [SpatialThresholdSelector] (section 4.2). Patches are ranked by
    adjusted score, ties to the lower index; those above [threshold]
    come first, the others fill the remainder in rank order; the first
    [k] are kept and emitted in ascending index order. *)
Definition spec_select_indices (st : SelectorState) (k : nat)
    (line_drawing : image_batch) (b : nat) (scores : list scalar) : list nat :=
  let adj := adjusted (sel_gaussian_std st) line_drawing b scores in
  let ranked := sort_desc (enumerate adj) in
  let above := List.filter (fun e => score_gt e.2 (sel_threshold st)) ranked in
  let below := List.filter (fun e => negb (score_gt e.2 (sel_threshold st))) ranked in
  sort_asc (map fst (take k (above ++ below))).

(** Modelled from the spec: the output of [SpatialThresholdSelector]
    (section 4.2). Each selected embedding gets the positional
    embedding of its original index, offset by one for the CLS slot. *)
Definition spec_gather (emb pos : list vec) (idx : list nat) : Py.result (list vec) :=
  mapM (fun i => match emb !! i, pos !! S i with
                 | Some e, Some p => Py.Ok (vadd e p)
                 | _, _ => Py.Raise Py.IndexError
                 end) idx.

(** Modelled from the spec: [SpatialThresholdSelector.forward]
    ([patch_selecter.py] is not among the sources), section 4.2, one
    batch element at a time; [N] is the number of patch embeddings.
    Embeddings and scores must come in batches of one size, as for any
    batched tensor operation. *)
Definition spec_selector_forward (st : SelectorState)
    (all_patches : list (list vec)) (pos_embed : list vec)
    (patch_scores : list (list scalar)) (line_drawing : image_batch)
  : Py.result (list (list vec)) :=
  if negb (Nat.eqb (length all_patches) (length patch_scores))
  then Py.Raise Py.RuntimeError
  else
    mapM (fun '(b, (emb, scores)) =>
            k ← spec_num_selected (Z.of_nat (length emb)) (sel_patch_percentage st);
            spec_gather emb pos_embed
              (spec_select_indices st (Z.to_nat k) line_drawing b scores))
         (zip (seq 0 (length all_patches)) (zip all_patches patch_scores)).

(** Modelled from the spec: the two imported modules as sections 4.1
    and 4.2 describe them. *)
#[local] Instance spec_collaborators : Collaborators :=
  {| scorer_forward := spec_scorer_forward;
     selector_forward := spec_selector_forward |}.

End FromSpec.

(** ** Properties stated about the model *)

(** A percentage that passes the constructor's check: a binary64 value
    [p] with [0 < p <= 1.0]. *)
Definition valid_percentage (p : F64.float) : Prop :=
  valid_binary F64.prec F64.emax p = true /\
  F64.ltb F64.zero p = true /\ F64.leb p F64.one = true.

(** The constructor's range check on [patch_percentage]:
    [0 < patch_percentage <= 1.0]. *)
Definition in_range (p : F64.float) : bool :=
  F64.ltb F64.zero p && F64.leb p F64.one.

Section ShapeProps.
Context {A : Type}.

(** The shape [(1, s, s)] of one image of an importance map. *)
Definition square_image (s : nat) (img : list (list (list A))) : Prop :=
  exists ch, img = [ch] /\ length ch = s /\ Forall (fun r => length r = s) ch.

End ShapeProps.

Section TorchProps.
Context `{Torch}.

(** The order is a total preorder (torch sorts NaN last). *)
Definition score_total : Prop :=
  forall a b : scalar, score_le a b = true \/ score_le b a = true.
Definition score_trans : Prop :=
  forall a b c : scalar,
    score_le a b = true -> score_le b c = true -> score_le a c = true.

(** [a] may stand before [b] in a descending ranking. *)
Definition desc (a b : nat * scalar) : Prop := score_le b.2 a.2 = true.

(** Each gathered row is the embedding at the index plus the
    positional row one past it. *)
Definition gathered (emb pos : list vec) (i : nat) (v : vec) : Prop :=
  exists e p, emb !! i = Some e /\ pos !! S i = Some p /\ v = vadd e p.

(** One row of the result of [topk]. *)
Definition topk_of_row (k : Z) (row : list scalar) (ids : list nat) : Prop :=
  Z.of_nat (length ids) = k /\ NoDup ids /\
  (forall i, i ∈ ids -> (i < length row)%nat) /\
  (forall i j si sj,
      i ∈ ids -> j ∉ ids -> row !! i = Some si -> row !! j = Some sj ->
      score_le sj si = true).

(** What a call returns to its caller, the generator left aside. *)
Definition outputs {A : Type} (r : Py.result (A * generator)) : Py.result A :=
  match r with
  | Py.Ok (y, _) => Py.Ok y
  | Py.Raise cls => Py.Raise cls
  end.


End TorchProps.

Section SelectorProps.
Context `{Torch} `{!Smoothing}.

(** What the selector returns for one batch element. *)
Definition selected_row (st : SelectorState) (k : nat) (pos : list vec)
    (line_drawing : image_batch)
    (item : nat * (list vec * list scalar)) (out : list vec) : Prop :=
  let idx := spec_select_indices st k line_drawing item.1 item.2.2 in
  length idx = k /\ StronglySorted lt idx /\
  (forall i, i ∈ idx -> (i < length item.2.1)%nat) /\
  Forall2 (gathered item.2.1 pos) idx out.

End SelectorProps.

Section ConstructorProps.
Context `{Timm}.

(** [embed_dim] as the constructor resolves it: the argument, or the
    backbone's own attribute. *)
Definition resolve_embed_dim (a : init_args) (vit0 : gmap string value)
  : Py.result Z :=
  match arg_embed_dim a with
  | None => v ← getattr vit0 "embed_dim"; as_int v
  | Some d => Py.Ok d
  end.

(** The model the constructor returns from the backbone [vit0], the
    embedding dimension [d] and the three fresh components. *)
Definition built (a : init_args) (vit0 : gmap string value) (d : Z)
    (pe : PatchEmbed) (pos : list vec)
    (head : list vec -> Py.result (list logit_row)) : SelectiveMagnoViT :=
  let cfg := default ∅ (arg_selector_config a) in
  {| patch_percentage := arg_patch_percentage a;
     num_classes := arg_num_classes a;
     img_size := arg_img_size a;
     patch_size := arg_patch_size a;
     vit_model_name := arg_vit_model_name a;
     vit := <["head" := VLinear head]>
            (<["pos_embed" := VTensor pos]>
            (<["patch_embed" := VPatchEmbed pe]> vit0));
     embed_dim := d;
     scorer := {| scorer_patch_size := arg_patch_size a |};
     selector :=
       {| sel_patch_percentage := arg_patch_percentage a;
          sel_threshold := default (F64.lit 3 10) (cfg !! "threshold");
          sel_gaussian_std := default (F64.lit 25 100) (cfg !! "gaussian_std") |};
     num_patches := pe_num_patches pe |}.

(** The constructor after its validation: the backbone is loaded and
    the three components are built and installed. Every exception it
    raises comes from [timm] or [torch]. *)
Definition construct (a : init_args) : Py.result SelectiveMagnoViT :=
  vit0 ← create_model (arg_vit_model_name a) (arg_pretrained a);
  d ← resolve_embed_dim a vit0;
  pe ← PatchEmbed_init (arg_img_size a) (arg_patch_size a) 3 d;
  pos ← zeros_trunc_normal_ (pe_num_patches pe + 1) d;
  head ← Linear d (arg_num_classes a);
  Py.Ok (built a vit0 d pe pos head).

End ConstructorProps.

(** ** Binary64 values in order *)

Module F64Order.
Import F64.

(** The rational [a / b] rounded to the nearest integer, ties to even. *)
Definition rne_frac (a b : Z) : Z :=
  let q := a / b in
  let r := a mod b in
  match 2 * r ?= b with
  | Lt => q
  | Eq => if Z.even q then q else q + 1
  | Gt => q + 1
  end.

(** [mag_cmp_le m e m' e']: the magnitude [m * 2^e] is at most the
    magnitude [m' * 2^e']. *)
Definition mag_cmp_le (m e m' e' : Z) : Prop :=
  m * 2 ^ (e - Z.min e e') <= m' * 2 ^ (e' - Z.min e e').

(** [x <= y] for two floats that are zero or positive and finite. *)
Definition nonneg_fle (x y : float) : Prop :=
  match x, y with
  | S754_zero _, S754_zero _ => True
  | S754_zero _, S754_finite false _ _ => True
  | S754_finite false m e, S754_finite false m' e' =>
      mag_cmp_le (Zpos m) e (Zpos m') e'
  | _, _ => False
  end.

(** After [k] one-bit right shifts of the mantissa [m], the record
    holds [m / 2^k], the last bit shifted out, and whether a non-zero
    bit was shifted out before it. *)
Definition shr_bits (m k : Z) (rec : shr_record) : Prop :=
  shr_m rec = m / 2 ^ k /\
  (k = 0 -> shr_r rec = false /\ shr_s rec = false) /\
  (1 <= k ->
   shr_r rec = Z.odd (m / 2 ^ (k - 1)) /\
   (shr_s rec = false <-> m mod 2 ^ (k - 1) = 0)).

(** The exponent that rounding gives the magnitude [mx * 2^ex]: the
    one that leaves 53 bits of mantissa, or the least exponent. *)
Definition target_exp (mx : positive) (ex : Z) : Z :=
  Z.max (Zpos (digits2_pos mx) + ex - 53) (-1074).

(** The magnitude [mx * 2^ex] in units of [2^target_exp], rounded to
    nearest, ties to even. *)
Definition units (mx : positive) (ex : Z) : Z :=
  let E := target_exp mx ex in
  rne_frac (Zpos mx * 2 ^ Z.max (ex - E) 0) (2 ^ Z.max (E - ex) 0).

(** The integer part of the exact product [n * p] of an int and a
    float that is zero or positive. *)
Definition floor_product (n : Z) (p : float) : Z :=
  match p with
  | S754_finite false m e => (n * Zpos m * 2 ^ Z.max e 0) / 2 ^ Z.max (- e) 0
  | _ => 0
  end.

End F64Order.

(** ** The model's report: [get_model_info] *)

(** One [nn.Parameter] as the report reads it: [p.numel()], the number
    of its elements, and [p.requires_grad]. *)
Record nn_Parameter : Type := {
  numel : N;
  requires_grad : bool;
}.

(** [nn.Module.parameters()]: the parameters of the model and of the
    modules it holds. *)
Class NNModule `{Torch} : Type := {
  parameters : SelectiveMagnoViT -> list nn_Parameter;
}.

(** A value of the dict that [get_model_info] returns. *)
Inductive info_value : Type :=
| InfoStr (s : string)
| InfoInt (z : Z)
| InfoFloat (x : F64.float).

(** [sum(...)] of ints. *)
Definition py_sum (l : list Z) : Z := foldl Z.add 0 l.

Section ModelInfo.
Context `{Timm} `{!Collaborators} `{!NNModule}.

(** [SelectiveMagnoViT.get_model_info], on an instance of the class
    itself ([self.__class__.__name__] is the class name). Only
    [get_num_selected_patches] can raise. *)
Definition get_model_info (self : SelectiveMagnoViT)
  : Py.result (gmap string info_value) :=
  selected_patches ← get_num_selected_patches self;
  Py.Ok (list_to_map
    [ ("model_name", InfoStr "SelectiveMagnoViT");
      ("vit_backbone", InfoStr (vit_model_name self));
      ("img_size", InfoInt (img_size self));
      ("patch_size", InfoInt (patch_size self));
      ("num_patches", InfoInt (num_patches self));
      ("selected_patches", InfoInt selected_patches);
      ("patch_percentage", InfoFloat (patch_percentage self));
      ("embed_dim", InfoInt (embed_dim self));
      ("num_classes", InfoInt (num_classes self));
      ("total_params",
        InfoInt (py_sum (map (fun p => Z.of_N (numel p)) (parameters self))));
      ("trainable_params",
        InfoInt (py_sum (map (fun p => Z.of_N (numel p))
                             (List.filter requires_grad (parameters self))))) ]).

End ModelInfo.

(** The keys of the report. *)
Definition info_keys : list string :=
  [ "model_name"; "vit_backbone"; "img_size"; "patch_size"; "num_patches";
    "selected_patches"; "patch_percentage"; "embed_dim"; "num_classes";
    "total_params"; "trainable_params" ].

(** The same constructor arguments with another [selector_config]. *)
Definition with_selector_config (a : init_args)
    (selector_config : option (gmap string F64.float)) : init_args :=
  {| arg_patch_percentage := arg_patch_percentage a;
     arg_num_classes := arg_num_classes a;
     arg_img_size := arg_img_size a;
     arg_patch_size := arg_patch_size a;
     arg_vit_model_name := arg_vit_model_name a;
     arg_selector_config := selector_config;
     arg_embed_dim := arg_embed_dim a;
     arg_pretrained := arg_pretrained a |}.

(** ** Properties stated about the diagnostics *)

Section DiagnosticProps.
Context `{Torch}.

(** The indices of [ids] are listed by non-increasing score of [row]. *)
Definition by_descending_score (row : list scalar) (ids : list nat) : Prop :=
  forall i j a b sa sb,
    (i < j)%nat -> ids !! i = Some a -> ids !! j = Some b ->
    row !! a = Some sa -> row !! b = Some sb -> score_le sb sa = true.

(** The first index of [ids] is a patch whose score no patch of [row]
    exceeds. *)
Definition starts_at_maximum (row : list scalar) (ids : list nat) : Prop :=
  exists a sa,
    ids !! 0%nat = Some a /\ row !! a = Some sa /\
    forall j sj, row !! j = Some sj -> score_le sj sa = true.

End DiagnosticProps.

Section MapProps.
Context `{Torch}.

(** The cell of patch [a] in one image of the importance map holds a
    score that no cell of that image exceeds. *)
Definition brightest_cell (g : nat) (a : nat)
    (img : list (list (list scalar))) : Prop :=
  exists grid cells s,
    img = [grid] /\
    grid !! (a / g)%nat = Some cells /\ cells !! (a mod g)%nat = Some s /\
    forall r c cells' s',
      grid !! r = Some cells' -> cells' !! c = Some s' -> score_le s' s = true.

End MapProps.

(** ** The two halves of [forward] *)

Section ForwardSteps.
Context `{Timm} `{!TensorSizes} `{!Collaborators}.

(** Steps 1 to 5 of [forward]: the token sequences handed to the
    backbone, one per image. *)
Definition forward_tokens (self : SelectiveMagnoViT)
    (magno_image line_drawing : image_batch) : Py.result (list (list vec)) :=
  patch_scores ← scorer_forward (scorer self) line_drawing;
  patch_embed ← getattr (vit self) "patch_embed";
  all_patches ← call_patch_embed patch_embed magno_image;
  pos_embed ← (v ← getattr (vit self) "pos_embed"; as_tensor v);
  selected_patches ←
    selector_forward (selector self) all_patches pos_embed patch_scores line_drawing;
  cls_token ← (v ← getattr (vit self) "cls_token"; as_tensor v);
  cls_token_with_pos ← tensor_add cls_token (take 1 pos_embed);
  let batch_size := im_batch magno_image in
  torch_cat_dim1 (replicate batch_size cls_token_with_pos) selected_patches.

(** Steps 6 to 9 of [forward]: dropout, the transformer blocks, the
    norm, and the head on the first token. *)
Definition forward_backbone (self : SelectiveMagnoViT) (training : bool)
    (g : generator) (full_sequence : list (list vec))
  : Py.result (list logit_row * generator) :=
  pos_drop ← getattr (vit self) "pos_drop";
  '(full_sequence, g) ← call_blocks pos_drop training g full_sequence;
  blocks ← getattr (vit self) "blocks";
  '(x, g) ← call_blocks blocks training g full_sequence;
  norm ← getattr (vit self) "norm";
  '(x, g) ← call_blocks norm training g x;
  cls_output ← select_first x;
  head ← getattr (vit self) "head";
  logits ← call_linear head cls_output;
  Py.Ok (logits, g).

End ForwardSteps.

(** ** What [forward] raises, and what it hands to the backbone *)

(** The exceptions of the operations [forward] performs itself:
    reading an attribute and calling it, the patch embedding, [+],
    [torch.cat] and [x[:, 0]]. *)
Definition operation_errors : list string :=
  [Py.AttributeError; Py.TypeError; Py.AssertionError; Py.RuntimeError;
   Py.IndexError].

Section ForwardProps.
Context `{Timm} `{!Collaborators}.

(** [cls] is raised by one of the objects [forward] calls: the scorer
    on the line drawing, the selector on the line drawing, a module of
    the backbone, or the head. *)
Definition raised_by_callee (self : SelectiveMagnoViT)
    (line_drawing : image_batch) (cls : string) : Prop :=
  scorer_forward (scorer self) line_drawing = Py.Raise cls \/
  (exists all_patches pos_embed patch_scores,
      selector_forward (selector self) all_patches pos_embed patch_scores
        line_drawing = Py.Raise cls) \/
  (exists name f training g x,
      vit self !! name = Some (VBlocks f) /\ f training g x = Py.Raise cls) \/
  (exists f x, vit self !! "head" = Some (VLinear f) /\ f x = Py.Raise cls).


End ForwardProps.

Section SelectedIndices.
Context `{Torch} `{!Smoothing}.


End SelectedIndices.

(** ** A small executable backend

    Integer pixels and scores, integer vectors; used to run the model
    on concrete inputs. *)

Module Example.

Definition sum_abs (l : list Z) : Z := foldr (fun x acc => Z.abs x + acc) 0 l.

Definition z_gt (s : Z) (x : F64.float) : bool :=
  match F64.of_int s with
  | Py.Ok f => F64.ltb x f
  | Py.Raise _ => false
  end.

#[export] Instance torchZ : Torch :=
  {| scalar := Z;
     vec := list Z;
     logit_row := list Z;
     generator := nat;
     vadd := zip_with Z.add;
     score_le := Z.leb;
     score_gt := z_gt;
     mean_abs := fun l => sum_abs l / Z.of_nat (length l) |}.

(** A vector of one scalar repeated [n] times. *)
Definition expand (n : Z) (v : list Z) : list Z :=
  match v with
  | [x] => replicate (Z.to_nat n) x
  | _ => v
  end.

Lemma zip_with_add_size (a b : list Z) :
  Z.of_nat (length a) = Z.of_nat (length b) ->
  Z.of_nat (length (zip_with Z.add a b)) = Z.of_nat (length a).
Proof. intros Hab. rewrite length_zip_with. lia. Qed.

#[export] Instance sizesZ : TensorSizes :=
  {| vec_size := fun v => Z.of_nat (length v);
     vexpand := expand;
     vadd_size := zip_with_add_size |}.

(** Dropout that is the identity in evaluation mode and consumes one
    draw in training mode. *)
Definition dropout (training : bool) (g : nat) (x : list (list (list Z)))
  : Py.result (list (list (list Z)) * nat) :=
  if training
  then Py.Ok (map (map (map (fun v => if Nat.even g then v else 0))) x, S g)
  else Py.Ok (x, g).

Definition identity_block (training : bool) (g : nat) (x : list (list (list Z)))
  : Py.result (list (list (list Z)) * nat) := Py.Ok (x, g).

Definition linear (d c : Z) (x : list (list Z)) : Py.result (list (list Z)) :=
  Py.Ok (map (fun v => replicate (Z.to_nat c) (foldr Z.add 0 v)) x).

(** One feature per patch: the sum of the first channel over the cell. *)
Definition proj (img_size patch_size in_chans d : Z)
    (x : image_batch) (b n : nat) : list Z :=
  let ps := Z.to_nat patch_size in
  let gw := Z.to_nat (img_size / patch_size) in
  replicate (Z.to_nat d)
    (foldr Z.add 0
       (flat_map (fun dy => map (fun dx =>
                    im_pixel x b 0 ((n / gw) * ps + dy) ((n mod gw) * ps + dx))%nat
                    (seq 0 ps)) (seq 0 ps))).

Definition pretrained_vit : gmap string value :=
  <["embed_dim" := VInt 2]>
  (<["cls_token" := VTensor [[7; 7]]]>
  (<["pos_embed" := VTensor (replicate 197 [1; 1])]>
  (<["pos_drop" := VBlocks dropout]>
  (<["blocks" := VBlocks identity_block]>
  (<["norm" := VBlocks identity_block]>
  (<["head" := VLinear (linear 2 1000)]> ∅)))))).

(** Layers reject sizes that are not positive, as [torch] does. *)
Definition patch_embed_init (img_size patch_size in_chans d : Z)
  : Py.result PatchEmbed :=
  if (patch_size <=? 0) || (d <=? 0) then Py.Raise Py.RuntimeError
  else Py.Ok {| pe_img_size := img_size;
                pe_patch_size := patch_size;
                pe_in_chans := in_chans;
                pe_num_patches := (img_size / patch_size) * (img_size / patch_size);
                pe_proj := proj img_size patch_size in_chans d |}.

Definition pos_embed_init (n d : Z) : Py.result (list (list Z)) :=
  if (n <? 0) || (d <? 0) then Py.Raise Py.RuntimeError
  else Py.Ok (replicate (Z.to_nat n) (replicate (Z.to_nat d) 0)).

Definition linear_init (d c : Z)
  : Py.result (list (list Z) -> Py.result (list (list Z))) :=
  if (d <? 0) || (c <? 0) then Py.Raise Py.RuntimeError else Py.Ok (linear d c).

Lemma patch_embed_init_fields (img_size patch_size in_chans d : Z) (pe : PatchEmbed) :
  patch_embed_init img_size patch_size in_chans d = Py.Ok pe ->
  pe_img_size pe = img_size /\ pe_patch_size pe = patch_size /\
  pe_num_patches pe = (img_size / patch_size) * (img_size / patch_size).
Proof.
  unfold patch_embed_init.
  destruct ((patch_size <=? 0) || (d <=? 0)); [discriminate |].
  intros [= <-]. auto.
Qed.

Lemma pos_embed_init_length (n d : Z) (rows : list (list Z)) :
  pos_embed_init n d = Py.Ok rows -> Z.of_nat (length rows) = n.
Proof.
  unfold pos_embed_init.
  destruct (Z.ltb_spec n 0) as [Hn | Hn]; [discriminate |].
  destruct (d <? 0); [discriminate |]. simpl.
  intros [= <-]. rewrite length_replicate. lia.
Qed.

#[export] Instance timmZ : Timm :=
  {| create_model := fun name pretrained =>
       if String.eqb name "" then Py.Raise Py.RuntimeError else Py.Ok pretrained_vit;
     PatchEmbed_init := patch_embed_init;
     PatchEmbed_init_fields := patch_embed_init_fields;
     zeros_trunc_normal_ := pos_embed_init;
     zeros_trunc_normal_length := pos_embed_init_length;
     Linear := linear_init |}.

Lemma patch_embed_init_in_chans (img_size patch_size in_chans d : Z) (pe : PatchEmbed) :
  patch_embed_init img_size patch_size in_chans d = Py.Ok pe ->
  pe_in_chans pe = in_chans.
Proof.
  unfold patch_embed_init.
  destruct ((patch_size <=? 0) || (d <=? 0)); [discriminate |].
  intros [= <-]. reflexivity.
Qed.

Lemma pos_embed_init_size (n d : Z) (rows : list (list Z)) :
  pos_embed_init n d = Py.Ok rows ->
  Forall (fun v => Z.of_nat (length v) = d) rows.
Proof.
  unfold pos_embed_init.
  destruct (n <? 0); [discriminate |].
  destruct (Z.ltb_spec d 0) as [Hd | Hd]; [discriminate |]. simpl.
  intros [= <-]. apply Forall_replicate. rewrite length_replicate. lia.
Qed.

#[export] Instance timm_sizesZ : TimmSizes :=
  {| PatchEmbed_init_in_chans := patch_embed_init_in_chans;
     zeros_trunc_normal_size := pos_embed_init_size |}.

(** No smoothing: the adjusted score is the raw score. *)
#[export] Instance no_smoothing : Smoothing :=
  {| adjusted := fun sigma x b scores => scores;
     adjusted_length := fun sigma x b scores => eq_refl |}.

Definition args (p : F64.float) (img_size patch_size : Z) : init_args :=
  {| arg_patch_percentage := p;
     arg_num_classes := 3;
     arg_img_size := img_size;
     arg_patch_size := patch_size;
     arg_vit_model_name := "vit_tiny_patch16_224.augreg_in21k";
     arg_selector_config := None;
     arg_embed_dim := None;
     arg_pretrained := true |}.

(** The same arguments with a model name the factory does not know. *)
Definition unknown_model_args : init_args :=
  {| arg_patch_percentage := F64.lit 4 10;
     arg_num_classes := 3;
     arg_img_size := 4;
     arg_patch_size := 2;
     arg_vit_model_name := "";
     arg_selector_config := None;
     arg_embed_dim := None;
     arg_pretrained := true |}.

(** An image batch from nested lists (missing pixels read as 0). *)
Definition image (b c h w : nat) (px : list (list (list (list Z)))) : image_batch :=
  {| im_batch := b; im_chans := c; im_height := h; im_width := w;
     im_pixel := fun i j y x =>
       default 0 (r1 ← px !! i; r2 ← r1 !! j; r3 ← r2 !! y; r3 !! x) |}.

(** A model with a 2 by 2 patch grid (image side 4, patch side 2) that
    keeps 40% of the patches. *)
Definition model4 : SelectiveMagnoViT :=
  built (args (F64.lit 4 10) 4 2) pretrained_vit 2
    {| pe_img_size := 4; pe_patch_size := 2; pe_in_chans := 3;
       pe_num_patches := 4; pe_proj := proj 4 2 3 2 |}
    (replicate 5 [0; 0]) (linear 2 3).

(** A 4 by 4 line drawing, a 4 by 4 magno image, and two inputs whose
    height and width are 2 and 8. *)
Definition drawing : image_batch :=
  image 1 1 4 4 [[[[0; 0; 5; 5]; [0; 0; 5; 5]; [1; 1; 0; 0]; [1; -9; 0; 0]]]].
Definition magno : image_batch :=
  image 1 3 4 4 [[[[1; 2; 3; 4]; [1; 2; 3; 4]; [1; 2; 3; 4]; [1; 2; 3; 4]]; []; []]].
Definition wide_drawing : image_batch :=
  image 1 1 2 8 [[[[0; 0; 5; 5; 1; 1; 0; 0]; [0; 0; 5; 5; 1; -9; 0; 0]]]].
Definition wide_magno : image_batch :=
  image 1 3 2 8 [[[[1; 2; 3; 4; 1; 2; 3; 4]; [1; 2; 3; 4; 1; 2; 3; 4]]; []; []]].

(** Four patch embeddings, five positional rows, all-zero scores. *)
Definition four_patches : list (list vec) := [[[1; 1]; [2; 2]; [3; 3]; [4; 4]]].
Definition five_positions : list vec :=
  [[100; 100]; [10; 10]; [20; 20]; [30; 30]; [40; 40]].
Definition zero_scores : list (list scalar) := [[0; 0; 0; 0]].

(** Two line drawings of side 4 in one batch. *)
Definition two_drawings : image_batch :=
  image 2 1 4 4 [[[[0; 0; 5; 5]; [0; 0; 5; 5]; [1; 1; 0; 0]; [1; -9; 0; 0]]];
                 [[[3; 3; 0; 0]; [3; 3; 0; 0]; [0; 0; 0; 0]; [0; 0; 2; 2]]]].

(** The specified scorer beside a selector that returns one sequence
    per row of scores, each the first embedding of the first image:
    its batch follows the line drawings, not the magno images. *)
Definition per_score_row : Collaborators :=
  {| scorer_forward := spec_scorer_forward;
     selector_forward :=
       fun st all_patches pos_embed patch_scores line_drawing =>
         Py.Ok (map (fun _ => take 1 (concat all_patches)) patch_scores) |}.

(** The specified scorer and selector behind a scorer's check that
    the line drawing is square. *)
Definition square_only : Collaborators :=
  {| scorer_forward :=
       fun st x =>
         if Nat.eqb (im_height x) (im_width x) then spec_scorer_forward st x
         else Py.Raise "ShapeMismatchError";
     selector_forward := spec_selector_forward |}.

End Example.

(** ** More of the executable backend *)

Module ExampleModels.
Import Example.

(** The parameters of a model on this backend: the class token, the
    positional table and the head are trained, the patch projection
    is frozen. *)
Definition counted_parameters (self : SelectiveMagnoViT) : list nn_Parameter :=
  [ {| numel := Z.to_N (embed_dim self); requires_grad := true |};
    {| numel := Z.to_N ((num_patches self + 1) * embed_dim self);
       requires_grad := true |};
    {| numel := Z.to_N (3 * patch_size self * patch_size self * embed_dim self);
       requires_grad := false |};
    {| numel := Z.to_N (embed_dim self * num_classes self + num_classes self);
       requires_grad := true |} ].

#[export] Instance counted : NNModule := {| parameters := counted_parameters |}.

(** What [get_model_info] returns for [model4]. *)
Definition report4 : gmap string info_value :=
  list_to_map
    [ ("model_name", InfoStr "SelectiveMagnoViT");
      ("vit_backbone", InfoStr "vit_tiny_patch16_224.augreg_in21k");
      ("img_size", InfoInt 4);
      ("patch_size", InfoInt 2);
      ("num_patches", InfoInt 4);
      ("selected_patches", InfoInt 1);
      ("patch_percentage", InfoFloat (F64.lit 4 10));
      ("embed_dim", InfoInt 2);
      ("num_classes", InfoInt 3);
      ("total_params", InfoInt 45);
      ("trainable_params", InfoInt 21) ].

(** [model4] with every patch kept. *)
Definition full4 : SelectiveMagnoViT :=
  built (args F64.one 4 2) pretrained_vit 2
    {| pe_img_size := 4; pe_patch_size := 2; pe_in_chans := 3;
       pe_num_patches := 4; pe_proj := proj 4 2 3 2 |}
    (replicate 5 [0; 0]) (linear 2 3).

(** The model for an image side of 0: no patch, and a positional
    table that holds the row of the class token only. *)
Definition model0 : SelectiveMagnoViT :=
  built (args (F64.lit 4 10) 0 2) pretrained_vit 2
    {| pe_img_size := 0; pe_patch_size := 2; pe_in_chans := 3;
       pe_num_patches := 0; pe_proj := proj 0 2 3 2 |}
    (replicate 1 [0; 0]) (linear 2 3).

(** Six patches of which a third is kept: the exact product is just
    below 2, the binary64 product is 2. *)
Definition a_third_of_six : SelectiveMagnoViT :=
  {| patch_percentage := F64.lit 1 3;
     num_classes := 3;
     img_size := 6;
     patch_size := 2;
     vit_model_name := "vit_tiny_patch16_224.augreg_in21k";
     vit := pretrained_vit;
     embed_dim := 2;
     scorer := {| scorer_patch_size := 2 |};
     selector := {| sel_patch_percentage := F64.lit 1 3;
                    sel_threshold := F64.lit 3 10;
                    sel_gaussian_std := F64.lit 25 100 |};
     num_patches := 6 |}.

(** A [selector_config] that sets the threshold, and the same with a
    misspelt key beside it. *)
Definition tuned : gmap string F64.float := {[ "threshold" := F64.lit 1 2 ]}.
Definition misspelt : gmap string F64.float :=
  <["treshold" := F64.lit 9 10]> tuned.

(** A line drawing of height 4 and width 8: eight patches of side 2. *)
Definition long_drawing : image_batch :=
  image 1 1 4 8 [[[[0; 0; 5; 5; 1; 1; 0; 0]; [0; 0; 5; 5; 1; -9; 0; 0];
                   [2; 2; 0; 0; 4; 4; 8; 8]; [2; 2; 0; 0; 4; 4; 8; 8]]]].

End ExampleModels.

Module F64Facts.
Import F64.

Lemma digits2_pos_size (m : positive) : digits2_pos m = Pos.size m.
Proof. induction m; simpl; congruence. Qed.

Lemma digits_lower (m : positive) : 2 ^ (Zpos (digits2_pos m) - 1) <= Zpos m.
Proof.
  rewrite digits2_pos_size.
  pose proof (Pos.size_le m) as H.
  assert (Hs : 2 ^ Zpos (Pos.size m) <= 2 * Zpos m).
  { change (2 * Zpos m) with (Zpos (2 * m)).
    rewrite <- Pos2Z.inj_pow. apply Pos2Z.pos_le_pos. exact H. }
  replace (Zpos (Pos.size m)) with (Z.succ (Zpos (Pos.size m) - 1)) in Hs by lia.
  rewrite Z.pow_succ_r in Hs by lia. lia.
Qed.

Lemma digits_upper (m : positive) : Zpos m < 2 ^ Zpos (digits2_pos m).
Proof.
  rewrite digits2_pos_size.
  pose proof (Pos.size_gt m) as H.
  rewrite <- Pos2Z.inj_pow. apply Pos2Z.pos_lt_pos. exact H.
Qed.

Lemma fexp_eq (x : Z) : fexp prec emax x = Z.max (x - 53) (-1074).
Proof. reflexivity. Qed.

Lemma mag_le_scale (m e n k : Z) :
  0 <= k -> 0 <= e + k ->
  mag_le m e n <-> m * 2 ^ (e + k) <= n * 2 ^ k.
Proof.
  intros Hk Hek. unfold mag_le.
  destruct (Z.le_gt_cases 0 e) as [He | He].
  - rewrite (Z.max_l e 0), (Z.max_r (- e) 0) by lia.
    rewrite Z.pow_add_r by lia. rewrite Z.pow_0_r, Z.mul_1_r, Z.mul_assoc.
    apply Z.mul_le_mono_pos_r. apply Z.pow_pos_nonneg; lia.
  - rewrite (Z.max_r e 0), (Z.max_l (- e) 0) by lia.
    assert (Hp : 2 ^ k = 2 ^ (- e) * 2 ^ (e + k)).
    { rewrite <- Z.pow_add_r by lia. f_equal. lia. }
    rewrite Hp, Z.pow_0_r, Z.mul_1_r, Z.mul_assoc.
    apply Z.mul_le_mono_pos_r. apply Z.pow_pos_nonneg; lia.
Qed.

Lemma mag_le_mul (a ea na b eb nb : Z) :
  0 <= a -> 0 <= b -> 0 <= na -> 0 <= nb ->
  mag_le a ea na -> mag_le b eb nb -> mag_le (a * b) (ea + eb) (na * nb).
Proof.
  intros Ha Hb Hna Hnb H1 H2.
  set (k1 := Z.max (- ea) 0). set (k2 := Z.max (- eb) 0).
  apply (mag_le_scale a ea na k1) in H1; [| lia | lia].
  apply (mag_le_scale b eb nb k2) in H2; [| lia | lia].
  apply (mag_le_scale (a * b) (ea + eb) (na * nb) (k1 + k2)); [lia | lia |].
  replace (ea + eb + (k1 + k2)) with ((ea + k1) + (eb + k2)) by lia.
  rewrite (Z.pow_add_r 2 (ea + k1) (eb + k2)), (Z.pow_add_r 2 k1 k2) by lia.
  assert (HX : 0 <= 2 ^ (ea + k1)) by (apply Z.pow_nonneg; lia).
  assert (HY : 0 <= 2 ^ (eb + k2)) by (apply Z.pow_nonneg; lia).
  transitivity ((a * 2 ^ (ea + k1)) * (b * 2 ^ (eb + k2))); [apply Z.eq_le_incl; ring |].
  transitivity ((na * 2 ^ k1) * (nb * 2 ^ k2)); [| apply Z.eq_le_incl; ring].
  apply Z.mul_le_mono_nonneg; try assumption; apply Z.mul_nonneg_nonneg; lia.
Qed.

Lemma mag_le_shr (m e n s : Z) :
  0 <= m -> 0 <= s -> mag_le m e n -> mag_le (m / 2 ^ s) (e + s) n.
Proof.
  intros Hm Hs H.
  set (k := Z.max (- e) 0).
  apply (mag_le_scale m e n k) in H; [| lia | lia].
  apply (mag_le_scale (m / 2 ^ s) (e + s) n k); [lia | lia |].
  replace (e + s + k) with (s + (e + k)) by lia.
  rewrite Z.pow_add_r by lia.
  assert (H2 : 0 < 2 ^ s) by (apply Z.pow_pos_nonneg; lia).
  assert (H3 : 0 <= 2 ^ (e + k)) by (apply Z.pow_nonneg; lia).
  pose proof (Z.mul_div_le m (2 ^ s) H2) as H4.
  rewrite Z.mul_assoc.
  transitivity (m * 2 ^ (e + k)); [| exact H].
  apply Z.mul_le_mono_nonneg_r; lia.
Qed.

(** A magnitude below [2^53] has its leading bit below position 53. *)
Lemma digits_exp_bound (m : positive) (e n : Z) :
  n < 2 ^ 53 -> mag_le (Zpos m) e n -> Zpos (digits2_pos m) + e <= 53.
Proof.
  intros Hn H.
  set (k := Z.max (- e) 0).
  apply (mag_le_scale (Zpos m) e n k) in H; [| lia | lia].
  pose proof (digits_lower m) as Hd.
  set (d := Zpos (digits2_pos m)) in *.
  assert (Hd1 : 0 <= d - 1) by (unfold d; lia).
  assert (Hp : 0 < 2 ^ k) by (apply Z.pow_pos_nonneg; lia).
  assert (Hq : 0 < 2 ^ (e + k)) by (apply Z.pow_pos_nonneg; lia).
  assert (Hlt : 2 ^ (d - 1 + (e + k)) < 2 ^ (53 + k)).
  { rewrite (Z.pow_add_r 2 (d - 1) (e + k)), (Z.pow_add_r 2 53 k) by lia.
    apply Z.le_lt_trans with (Zpos m * 2 ^ (e + k)).
    - apply Z.mul_le_mono_nonneg_r; lia.
    - apply Z.le_lt_trans with (n * 2 ^ k); [exact H |].
      apply Z.mul_lt_mono_pos_r; lia. }
  apply Z.pow_lt_mono_r_iff in Hlt; lia.
Qed.

(** *** The right shift of [binary_round_aux] *)

Lemma shr_1_nonneg (q : Z) (r s : bool) :
  0 <= q ->
  shr_1 (Build_shr_record q r s) = Build_shr_record (q / 2) (Z.odd q) (r || s).
Proof.
  intros Hq. rewrite <- Z.div2_div.
  destruct q as [| [p | p |] | p]; try reflexivity; lia.
Qed.

Lemma shr_1_inv (m k : Z) (rec : shr_record) :
  0 <= m -> 0 <= k -> shr_inv m k rec -> shr_inv m (k + 1) (shr_1 rec).
Proof.
  intros Hm Hk [Hq Hfl]. destruct rec as [q r s]. simpl in Hq, Hfl.
  assert (Hpk : 0 < 2 ^ k) by (apply Z.pow_pos_nonneg; lia).
  assert (Hq0 : 0 <= q) by (subst q; apply Z.div_pos; lia).
  rewrite shr_1_nonneg by exact Hq0. unfold shr_inv. simpl.
  rewrite Z.pow_add_r, Z.pow_1_r by lia. split.
  - subst q. rewrite Z.div_div by lia. reflexivity.
  - rewrite Z.rem_mul_r by lia. rewrite <- Hq.
    pose proof (Z.mod_pos_bound m (2 ^ k) Hpk) as Hb.
    rewrite Zmod_odd.
    destruct (Z.odd q); simpl.
    + split; [discriminate | lia].
    + rewrite Z.mul_0_r, Z.add_0_r. exact Hfl.
Qed.

Lemma iter_pos_shr_inv (m : Z) (p : positive) :
  0 <= m ->
  forall (k : Z) (rec : shr_record),
    0 <= k -> shr_inv m k rec ->
    shr_inv m (k + Zpos p) (SpecFloat.iter_pos shr_1 p rec).
Proof.
  intros Hm. induction p as [p IH | p IH |]; intros k rec Hk H; simpl.
  - replace (k + Zpos p~1) with (k + 1 + Zpos p + Zpos p) by lia.
    apply IH; [lia |]. apply IH; [lia |]. apply shr_1_inv; assumption.
  - replace (k + Zpos p~0) with (k + Zpos p + Zpos p) by lia.
    apply IH; [lia |]. apply IH; assumption.
  - apply shr_1_inv; assumption.
Qed.

(** Shifting by [z] bits (no shift when [z <= 0]) divides the mantissa
    by [2^z] and records whether bits were lost. *)
Lemma shr_spec (m e z : Z) :
  0 <= m ->
  shr_inv m (Z.max z 0) (fst (shr (shr_record_of_loc m loc_Exact) e z)) /\
  snd (shr (shr_record_of_loc m loc_Exact) e z) = e + Z.max z 0.
Proof.
  intros Hm.
  assert (H0 : shr_inv m 0 (Build_shr_record m false false)).
  { split; simpl; [rewrite Z.div_1_r; reflexivity |].
    rewrite Z.mod_1_r. tauto. }
  destruct z as [| p | p]; simpl.
  - split; [exact H0 | lia].
  - split; [| reflexivity].
    apply (iter_pos_shr_inv m p Hm 0 _ (Z.le_refl 0) H0).
  - split; [exact H0 | lia].
Qed.

Lemma round_nearest_even_cases (rec : shr_record) :
  let q := shr_m rec in
  let m1 := round_nearest_even q (loc_of_shr_record rec) in
  m1 = q \/ (m1 = q + 1 /\ shr_r rec || shr_s rec = true).
Proof.
  destruct rec as [q [|] [|]]; simpl; auto.
  destruct (Z.even q); auto.
Qed.

(** Rounding to nearest never crosses an integer below [2^53]: a
    magnitude that is at most [n] rounds to a finite value (or zero)
    that is still at most [n]. *)
Lemma binary_round_aux_le (s : bool) (mx : positive) (ex n : Z) :
  n < 2 ^ 53 ->
  mag_le (Zpos mx) ex n ->
  match binary_round_aux prec emax s (Zpos mx) ex loc_Exact with
  | S754_zero s' => s' = s
  | S754_finite s' m e => s' = s /\ mag_le (Zpos m) e n
  | _ => False
  end.
Proof.
  intros Hn Hle.
  pose proof (digits_exp_bound mx ex n Hn Hle) as Hd.
  unfold binary_round_aux, shr_fexp.
  change (Zdigits2 (Zpos mx)) with (Zpos (digits2_pos mx)).
  set (d := Zpos (digits2_pos mx)) in *.
  assert (Hd1 : 1 <= d) by (unfold d; lia).
  rewrite fexp_eq.
  set (z1 := Z.max (d + ex - 53) (-1074) - ex).
  destruct (shr_spec (Zpos mx) ex z1) as [[Hq1 Hfl1] He1]; [lia |].
  destruct (shr (shr_record_of_loc (Zpos mx) loc_Exact) ex z1) as [rec1 e1].
  simpl in Hq1, Hfl1, He1.
  pose proof (round_nearest_even_cases rec1) as Hr. simpl in Hr.
  set (m1 := round_nearest_even (shr_m rec1) (loc_of_shr_record rec1)) in *.
  assert (HA : 0 <= m1 /\ e1 <= 52 /\ mag_le m1 e1 n).
  { destruct (Z.le_gt_cases z1 0) as [Hz | Hz].
    - rewrite Z.max_r in Hq1, Hfl1, He1 by lia.
      rewrite Z.pow_0_r in Hq1, Hfl1.
      rewrite Z.div_1_r in Hq1. rewrite Z.mod_1_r in Hfl1.
      assert (Hm1 : m1 = Zpos mx).
      { destruct Hr as [Hr | [_ Hr]]; [congruence |].
        destruct Hfl1 as [_ Hfl1]. rewrite Hfl1 in Hr by reflexivity.
        discriminate. }
      rewrite Hm1. replace e1 with ex by lia.
      repeat split; [lia | lia | exact Hle].
    - rewrite Z.max_l in Hq1, Hfl1, He1 by lia.
      assert (He0 : e1 <= 0) by lia.
      assert (Hp : 0 < 2 ^ z1) by (apply Z.pow_pos_nonneg; lia).
      apply (mag_le_scale (Zpos mx) ex n (- ex)) in Hle; [| lia | lia].
      replace (ex + - ex) with 0 in Hle by lia.
      rewrite Z.pow_0_r, Z.mul_1_r in Hle.
      replace (- ex) with (- e1 + z1) in Hle by lia.
      rewrite Z.pow_add_r, Z.mul_assoc in Hle by lia.
      set (M := n * 2 ^ (- e1)) in *.
      pose proof (Z.div_mod (Zpos mx) (2 ^ z1)) as Hdm.
      pose proof (Z.mod_pos_bound (Zpos mx) (2 ^ z1) Hp) as Hmb.
      rewrite <- Hq1 in Hdm.
      assert (Hq0 : 0 <= shr_m rec1).
      { rewrite Hq1. apply Z.div_pos; lia. }
      assert (HqM : shr_m rec1 <= M).
      { apply Z.mul_le_mono_pos_l with (p := 2 ^ z1); [exact Hp |]. lia. }
      assert (Hm1 : 0 <= m1 <= M).
      { destruct Hr as [Hr | [Hr Hflag]]; [lia |].
        assert (Hne : Zpos mx mod 2 ^ z1 <> 0).
        { intros Hz0. apply Hfl1 in Hz0. congruence. }
        assert (shr_m rec1 < M); [| lia].
        apply Z.mul_lt_mono_pos_l with (p := 2 ^ z1); [exact Hp |]. lia. }
      repeat split; [lia | lia |].
      apply (mag_le_scale m1 e1 n (- e1)); [lia | lia |].
      replace (e1 + - e1) with 0 by lia.
      rewrite Z.pow_0_r, Z.mul_1_r. apply Hm1. }
  destruct HA as (Hm0 & He52 & Hle1).
  rewrite fexp_eq.
  set (z2 := Z.max (Zdigits2 m1 + e1 - 53) (-1074) - e1).
  destruct (shr_spec m1 e1 z2) as [[Hq2 _] He2]; [lia |].
  destruct (shr (shr_record_of_loc m1 loc_Exact) e1 z2) as [rec2 e2].
  simpl in Hq2, He2.
  assert (Hp2 : 0 < 2 ^ Z.max z2 0) by (apply Z.pow_pos_nonneg; lia).
  destruct (shr_m rec2) as [| m2 | m2] eqn:Em2.
  - reflexivity.
  - assert (Hm1pos : 0 < m1).
    { destruct (Z.eq_dec m1 0) as [E0 | E0]; [| lia].
      rewrite E0, Z.div_0_l in Hq2 by lia. discriminate. }
    destruct m1 as [| m1' | m1']; try lia.
    pose proof (digits_exp_bound m1' e1 n Hn Hle1) as Hd2.
    change (Zdigits2 (Zpos m1')) with (Zpos (digits2_pos m1')) in z2.
    assert (He971 : e2 <= 971) by lia.
    apply Z.leb_le in He971.
    change (emax - prec) with 971. rewrite He971.
    split; [reflexivity |].
    rewrite Hq2, He2. apply mag_le_shr; [lia | lia | exact Hle1].
  - assert (0 <= m1 / 2 ^ Z.max z2 0) by (apply Z.div_pos; lia). lia.
Qed.

(** *** Conversions from and to Python ints *)

Lemma iter_xO_value (mx d : positive) :
  Zpos (Pos.iter xO mx d) = Zpos mx * 2 ^ Zpos d.
Proof.
  induction d as [| d IH] using Pos.peano_ind.
  - simpl. lia.
  - rewrite Pos.iter_succ, Pos2Z.inj_succ, Z.pow_succ_r by lia.
    rewrite Pos2Z.inj_xO, IH. ring.
Qed.

Lemma shl_align_le (mx : positive) (ex ex' n : Z) :
  mag_le (Zpos mx) ex n ->
  mag_le (Zpos (fst (shl_align mx ex ex'))) (snd (shl_align mx ex ex')) n.
Proof.
  intros H. unfold shl_align.
  destruct (ex' - ex) as [| d | d] eqn:Ed; simpl; try exact H.
  rewrite iter_xO_value.
  set (k := Z.max (- ex') 0).
  apply (mag_le_scale (Zpos mx) ex n k) in H; [| lia | lia].
  apply (mag_le_scale _ ex' n k); [lia | lia |].
  rewrite <- Z.mul_assoc, <- Z.pow_add_r by lia.
  replace (Zpos d + (ex' + k)) with (ex + k) by lia. exact H.
Qed.

Lemma binary_round_le (s : bool) (mx : positive) (ex n : Z) :
  n < 2 ^ 53 ->
  mag_le (Zpos mx) ex n ->
  match binary_round prec emax s mx ex with
  | S754_zero s' => s' = s
  | S754_finite s' m e => s' = s /\ mag_le (Zpos m) e n
  | _ => False
  end.
Proof.
  intros Hn H. unfold binary_round.
  pose proof (shl_align_le mx ex (fexp prec emax (Zpos (digits2_pos mx) + ex)) n H) as Hs.
  destruct (shl_align mx ex (fexp prec emax (Zpos (digits2_pos mx) + ex))) as [mz ez].
  simpl in Hs. apply binary_round_aux_le; assumption.
Qed.

Lemma of_int_le (n : Z) :
  0 <= n < 2 ^ 53 -> exists x, of_int n = Py.Ok x /\ nonneg_le x n.
Proof.
  intros [H0 Hn]. unfold of_int, binary_normalize.
  destruct n as [| np | np]; [| | lia].
  - exists (S754_zero false). split; reflexivity.
  - assert (Hle : mag_le (Zpos np) 0 (Zpos np)) by (apply Z.le_refl).
    pose proof (binary_round_le false np 0 (Zpos np) Hn Hle) as Hr.
    destruct (binary_round prec emax false np 0) as [s' | s' | | s' m e];
      try contradiction; eexists; (split; [reflexivity | exact Hr]).
Qed.

Lemma mul_le (x y : float) (n : Z) :
  0 <= n < 2 ^ 53 ->
  nonneg_le x n -> nonneg_le y 1 -> nonneg_le (mul x y) n.
Proof.
  intros [H0 Hn] Hx Hy. unfold mul, SFmul.
  destruct x as [sx | sx | | sx mx ex], y as [sy | sy | | sy my ey];
    simpl in Hx, Hy; try contradiction.
  - subst. reflexivity.
  - destruct Hy as [-> _]. subst. reflexivity.
  - destruct Hx as [-> _]. subst. reflexivity.
  - destruct Hx as [-> Hx], Hy as [-> Hy].
    apply (binary_round_aux_le false (mx * my) (ex + ey) n Hn).
    rewrite Pos2Z.inj_mul. replace n with (n * 1) by lia.
    apply mag_le_mul; try lia; assumption.
Qed.

Lemma int_mul_le (n : Z) (p : float) :
  0 <= n < 2 ^ 53 -> nonneg_le p 1 ->
  exists x, int_mul n p = Py.Ok x /\ nonneg_le x n.
Proof.
  intros Hn Hp. unfold int_mul.
  destruct (of_int_le n Hn) as (fn & -> & Hfn). simpl.
  eexists. split; [reflexivity |]. apply mul_le; assumption.
Qed.

(** A valid binary64 value in [(0, 1]] is positive, finite, at most 1. *)
Lemma percentage_le_one (p : float) :
  valid_binary prec emax p = true ->
  ltb zero p = true -> leb p one = true -> nonneg_le p 1.
Proof.
  intros Hv Hlt Hle.
  destruct p as [sp | sp | | sp m e]; try discriminate.
  - destruct sp; discriminate.
  - destruct sp; [discriminate |]. split; [reflexivity |].
    unfold valid_binary, bounded, canonical_mantissa in Hv.
    apply andb_prop in Hv. destruct Hv as [Hc _].
    apply Z.eqb_eq in Hc.
    pose proof (digits_upper m) as Hu.
    set (d := Zpos (digits2_pos m)) in *.
    assert (Hc' : Z.max (d + e - 53) (-1074) = e) by exact Hc.
    unfold F64.leb, SFleb, SFcompare, F64.one in Hle.
    remember 4503599627370496%positive as K eqn:HK.
    change (Pos.compare_cont Eq m K) with (m ?= K)%positive in Hle.
    assert (Hcmp : e < -52 \/ (e = -52 /\ (m <= K)%positive)).
    { destruct (Z.compare_spec e (-52)) as [E | E | E]; [| left; exact E | discriminate].
      right. split; [exact E |].
      destruct (Pos.compare_spec m K) as [E' | E' | E']; [| | discriminate].
      - subst m. apply Pos.le_refl.
      - apply Pos.lt_le_incl. exact E'. }
    clear Hle.
    assert (Hd : 0 < d <= 53) by (unfold d in *; lia).
    apply (mag_le_scale (Zpos m) e 1 (- e)); [lia | lia |].
    replace (e + - e) with 0 by lia. rewrite Z.pow_0_r, Z.mul_1_r, Z.mul_1_l.
    destruct Hcmp as [E52 | [E52 Hm]].
    + assert (H53 : 2 ^ d <= 2 ^ (- e)) by (apply Z.pow_le_mono_r; lia).
      lia.
    + subst e. change (2 ^ (- (-52))) with 4503599627370496.
      apply Pos2Z.pos_le_pos in Hm. rewrite HK in Hm. exact Hm.
Qed.

Lemma trunc_mag_bounds (m : positive) (e n : Z) :
  mag_le (Zpos m) e n -> 0 <= trunc_mag m e <= n.
Proof.
  intros H. unfold trunc_mag, mag_le in *.
  destruct e as [| pe | pe].
  - rewrite Z.shiftl_0_r.
    change (Zpos m * 2 ^ 0 <= n * 2 ^ 0) in H. rewrite Z.pow_0_r in H. lia.
  - rewrite Z.shiftl_mul_pow2 by lia.
    rewrite Z.max_l, Z.max_r, Z.pow_0_r in H by lia.
    split; [| lia]. apply Z.mul_nonneg_nonneg; [lia |].
    apply Z.pow_nonneg; lia.
  - rewrite Z.shiftr_div_pow2 by lia.
    rewrite Z.max_r, Z.max_l, Z.pow_0_r in H by lia.
    change (- Zneg pe) with (Zpos pe) in H.
    assert (Hp : 0 < 2 ^ Zpos pe) by (apply Z.pow_pos_nonneg; lia).
    split; [apply Z.div_pos; lia |].
    apply Z.div_le_upper_bound; lia.
Qed.

(** Truncation and rounding to nearest differ by at most one, and
    neither exceeds an integer bound on the magnitude. *)
Lemma round_mag_bounds (m : positive) (e n : Z) :
  mag_le (Zpos m) e n ->
  trunc_mag m e <= round_mag m e <= trunc_mag m e + 1 /\ round_mag m e <= n.
Proof.
  intros H. pose proof (trunc_mag_bounds m e n H) as Ht.
  unfold trunc_mag, round_mag in *.
  destruct e as [| pe | pe]; [lia | lia |].
  unfold mag_le in H.
  rewrite Z.max_r, Z.max_l, Z.pow_0_r in H by lia.
  change (- Zneg pe) with (Zpos pe) in H.
  rewrite Z.land_ones by lia.
  rewrite Z.shiftr_div_pow2 in * by lia.
  rewrite Z.shiftl_mul_pow2, Z.mul_1_l by lia.
  assert (Hp : 0 < 2 ^ Zpos pe) by (apply Z.pow_pos_nonneg; lia).
  assert (Hh : 0 < 2 ^ (Zpos pe - 1)) by (apply Z.pow_pos_nonneg; lia).
  pose proof (Z.div_mod (Zpos m) (2 ^ Zpos pe)) as Hdm.
  pose proof (Z.mod_pos_bound (Zpos m) (2 ^ Zpos pe) Hp) as Hmb.
  set (q := Zpos m / 2 ^ Zpos pe) in *.
  set (r := Zpos m mod 2 ^ Zpos pe) in *.
  assert (Hup : 0 < r -> q + 1 <= n).
  { intros Hr. assert (q < n); [| lia].
    apply Z.mul_lt_mono_pos_l with (p := 2 ^ Zpos pe); [exact Hp |]. lia. }
  destruct (r ?= 2 ^ (Zpos pe - 1)) eqn:Ec.
  - apply Z.compare_eq in Ec. destruct (Z.even q); lia.
  - lia.
  - apply Z.compare_gt_iff in Ec. lia.
Qed.

Lemma to_int_le (x : float) (n : Z) :
  0 <= n -> nonneg_le x n ->
  exists t r, to_int x = Py.Ok t /\ py_round x = Py.Ok r /\
              0 <= t <= r /\ r <= t + 1 /\ r <= n.
Proof.
  intros Hn Hx. destruct x as [sx | sx | | sx m e]; simpl in Hx; try contradiction.
  - exists 0, 0. simpl. repeat split; lia.
  - destruct Hx as [-> Hx].
    pose proof (trunc_mag_bounds m e n Hx).
    pose proof (round_mag_bounds m e n Hx).
    exists (trunc_mag m e), (round_mag m e). simpl. repeat split; lia.
Qed.

(** *** Exact results *)

Lemma mag_eq_scale (m e n k : Z) :
  0 <= k -> 0 <= e + k ->
  mag_eq m e n <-> m * 2 ^ (e + k) = n * 2 ^ k.
Proof.
  intros Hk Hek. unfold mag_eq.
  destruct (Z.le_gt_cases 0 e) as [He | He].
  - rewrite (Z.max_l e 0), (Z.max_r (- e) 0) by lia.
    rewrite Z.pow_add_r by lia. rewrite Z.pow_0_r, Z.mul_1_r, Z.mul_assoc.
    assert (Hp : 0 < 2 ^ k) by (apply Z.pow_pos_nonneg; lia).
    split; intros Heq; [rewrite Heq; reflexivity |].
    apply Z.mul_cancel_r in Heq; [exact Heq | lia].
  - rewrite (Z.max_r e 0), (Z.max_l (- e) 0) by lia.
    assert (Hp : 2 ^ k = 2 ^ (- e) * 2 ^ (e + k)).
    { rewrite <- Z.pow_add_r by lia. f_equal. lia. }
    rewrite Hp, Z.pow_0_r, Z.mul_1_r, Z.mul_assoc.
    assert (Hq : 0 < 2 ^ (e + k)) by (apply Z.pow_pos_nonneg; lia).
    split; intros Heq; [rewrite Heq; reflexivity |].
    apply Z.mul_cancel_r in Heq; [exact Heq | lia].
Qed.

Lemma mag_eq_le (m e n : Z) : mag_eq m e n -> mag_le m e n.
Proof. unfold mag_eq, mag_le. intros ->. apply Z.le_refl. Qed.

(** An integer below [2^53] is representable: rounding returns it. *)
Lemma binary_round_aux_eq (s : bool) (mx : positive) (ex n : Z) :
  n < 2 ^ 53 ->
  mag_eq (Zpos mx) ex n ->
  exists m e,
    binary_round_aux prec emax s (Zpos mx) ex loc_Exact = S754_finite s m e /\
    mag_eq (Zpos m) e n.
Proof.
  intros Hn Heq.
  pose proof (digits_exp_bound mx ex n Hn (mag_eq_le _ _ _ Heq)) as Hd.
  unfold binary_round_aux, shr_fexp.
  change (Zdigits2 (Zpos mx)) with (Zpos (digits2_pos mx)).
  set (d := Zpos (digits2_pos mx)) in *.
  assert (Hd1 : 1 <= d) by (unfold d; lia).
  rewrite fexp_eq.
  set (z1 := Z.max (d + ex - 53) (-1074) - ex).
  destruct (shr_spec (Zpos mx) ex z1) as [[Hq1 Hfl1] He1]; [lia |].
  destruct (shr (shr_record_of_loc (Zpos mx) loc_Exact) ex z1) as [rec1 e1].
  simpl in Hq1, Hfl1, He1.
  pose proof (round_nearest_even_cases rec1) as Hr. simpl in Hr.
  set (m1 := round_nearest_even (shr_m rec1) (loc_of_shr_record rec1)) in *.
  assert (HA : 0 < m1 /\ e1 <= 52 /\ mag_eq m1 e1 n).
  { destruct (Z.le_gt_cases z1 0) as [Hz | Hz].
    - rewrite Z.max_r in Hq1, Hfl1, He1 by lia.
      rewrite Z.pow_0_r in Hq1, Hfl1.
      rewrite Z.div_1_r in Hq1. rewrite Z.mod_1_r in Hfl1.
      assert (Hm1 : m1 = Zpos mx).
      { destruct Hr as [Hr | [_ Hr]]; [congruence |].
        destruct Hfl1 as [_ Hfl1]. rewrite Hfl1 in Hr by reflexivity.
        discriminate. }
      rewrite Hm1. replace e1 with ex by lia.
      split; [lia | split; [lia | exact Heq]].
    - rewrite Z.max_l in Hq1, Hfl1, He1 by lia.
      assert (He0 : e1 <= 0) by lia.
      assert (Hp : 0 < 2 ^ z1) by (apply Z.pow_pos_nonneg; lia).
      apply (mag_eq_scale (Zpos mx) ex n (- ex)) in Heq; [| lia | lia].
      replace (ex + - ex) with 0 in Heq by lia.
      rewrite Z.pow_0_r, Z.mul_1_r in Heq.
      replace (- ex) with (- e1 + z1) in Heq by lia.
      rewrite Z.pow_add_r, Z.mul_assoc in Heq by lia.
      set (M := n * 2 ^ (- e1)) in *.
      assert (Hq : shr_m rec1 = M).
      { rewrite Hq1, Heq. apply Z.div_mul. lia. }
      assert (Hmod : Zpos mx mod 2 ^ z1 = 0).
      { rewrite Heq. apply Z.mod_mul. lia. }
      assert (Hm1 : m1 = M).
      { destruct Hr as [Hr | [_ Hr]]; [congruence |].
        apply Hfl1 in Hmod. congruence. }
      assert (HM : 0 < M).
      { assert (0 < M * 2 ^ z1) by lia.
        apply Z.mul_pos_cancel_r with (m := 2 ^ z1); assumption. }
      split; [lia | split; [lia |]].
      apply (mag_eq_scale m1 e1 n (- e1)); [lia | lia |].
      replace (e1 + - e1) with 0 by lia.
      rewrite Z.pow_0_r, Z.mul_1_r. exact Hm1. }
  destruct HA as (Hm0 & He52 & Heq1).
  rewrite fexp_eq.
  destruct m1 as [| m1' | m1']; try lia.
  pose proof (digits_exp_bound m1' e1 n Hn (mag_eq_le _ _ _ Heq1)) as Hd2.
  change (Zdigits2 (Zpos m1')) with (Zpos (digits2_pos m1')).
  set (d2 := Zpos (digits2_pos m1')) in *.
  set (z2 := Z.max (d2 + e1 - 53) (-1074) - e1).
  destruct (shr_spec (Zpos m1') e1 z2) as [[Hq2 _] He2]; [lia |].
  destruct (shr (shr_record_of_loc (Zpos m1') loc_Exact) e1 z2) as [rec2 e2].
  simpl in Hq2, He2.
  assert (H2 : 0 < shr_m rec2 /\ mag_eq (shr_m rec2) e2 n).
  { destruct (Z.le_gt_cases z2 0) as [Hz | Hz].
    - rewrite Z.max_r in Hq2, He2 by lia.
      rewrite Z.pow_0_r, Z.div_1_r in Hq2.
      rewrite Hq2. replace e2 with e1 by lia. split; [lia | exact Heq1].
    - rewrite Z.max_l in Hq2, He2 by lia.
      assert (He0 : e2 <= 0) by (unfold z2 in *; lia).
      assert (Hp : 0 < 2 ^ z2) by (apply Z.pow_pos_nonneg; lia).
      apply (mag_eq_scale (Zpos m1') e1 n (- e1)) in Heq1; [| lia | lia].
      replace (e1 + - e1) with 0 in Heq1 by lia.
      rewrite Z.pow_0_r, Z.mul_1_r in Heq1.
      replace (- e1) with (- e2 + z2) in Heq1 by lia.
      rewrite Z.pow_add_r, Z.mul_assoc in Heq1 by lia.
      set (M := n * 2 ^ (- e2)) in *.
      assert (Hq : shr_m rec2 = M).
      { rewrite Hq2, Heq1. apply Z.div_mul. lia. }
      assert (HM : 0 < M).
      { assert (0 < M * 2 ^ z2) by lia.
        apply Z.mul_pos_cancel_r with (m := 2 ^ z2); assumption. }
      split; [lia |].
      apply (mag_eq_scale _ e2 n (- e2)); [lia | lia |].
      replace (e2 + - e2) with 0 by lia.
      rewrite Z.pow_0_r, Z.mul_1_r. exact Hq. }
  destruct H2 as [Hpos2 Heq2].
  destruct (shr_m rec2) as [| m2 | m2]; try lia.
  assert (He971 : e2 <= 971) by (unfold z2 in *; lia).
  apply Z.leb_le in He971.
  change (emax - prec) with 971. rewrite He971.
  exists m2, e2. split; [reflexivity | exact Heq2].
Qed.

Lemma shl_align_eq (mx : positive) (ex ex' n : Z) :
  mag_eq (Zpos mx) ex n ->
  mag_eq (Zpos (fst (shl_align mx ex ex'))) (snd (shl_align mx ex ex')) n.
Proof.
  intros H. unfold shl_align.
  destruct (ex' - ex) as [| d | d] eqn:Ed; simpl; try exact H.
  rewrite iter_xO_value.
  set (k := Z.max (- ex') 0).
  apply (mag_eq_scale (Zpos mx) ex n k) in H; [| lia | lia].
  apply (mag_eq_scale _ ex' n k); [lia | lia |].
  rewrite <- Z.mul_assoc, <- Z.pow_add_r by lia.
  replace (Zpos d + (ex' + k)) with (ex + k) by lia. exact H.
Qed.

(** [float(n)] is exact for [0 < n < 2^53]. *)
Lemma of_int_eq (n : Z) :
  0 < n < 2 ^ 53 ->
  exists m e, of_int n = Py.Ok (S754_finite false m e) /\ mag_eq (Zpos m) e n.
Proof.
  intros [H0 Hn]. unfold of_int, binary_normalize.
  destruct n as [| np | np]; try lia.
  unfold binary_round.
  assert (Heq : mag_eq (Zpos np) 0 (Zpos np)) by reflexivity.
  pose proof (shl_align_eq np 0 (fexp prec emax (Zpos (digits2_pos np) + 0)) _ Heq) as Hs.
  destruct (shl_align np 0 (fexp prec emax (Zpos (digits2_pos np) + 0))) as [mz ez].
  simpl in Hs.
  destruct (binary_round_aux_eq false mz ez (Zpos np) Hn Hs) as (m & e & -> & Hm).
  exists m, e. split; [reflexivity | exact Hm].
Qed.

Lemma trunc_mag_eq (m : positive) (e n : Z) :
  mag_eq (Zpos m) e n -> trunc_mag m e = n.
Proof.
  intros H. unfold trunc_mag, mag_eq in *.
  destruct e as [| pe | pe].
  - rewrite Z.shiftl_0_r.
    change (Zpos m * 2 ^ 0 = n * 2 ^ 0) in H. rewrite Z.pow_0_r in H. lia.
  - rewrite Z.shiftl_mul_pow2 by lia.
    rewrite Z.max_l, Z.max_r, Z.pow_0_r in H by lia. lia.
  - rewrite Z.shiftr_div_pow2 by lia.
    rewrite Z.max_r, Z.max_l, Z.pow_0_r in H by lia.
    change (- Zneg pe) with (Zpos pe) in H.
    assert (Hp : 0 < 2 ^ Zpos pe) by (apply Z.pow_pos_nonneg; lia).
    rewrite Z.mul_1_r in H. rewrite H. apply Z.div_mul. lia.
Qed.

(** *** The square root of a perfect square *)

Lemma sqrtrem_square (q : Z) : 0 <= q -> Z.sqrtrem (q * q) = (q, 0).
Proof.
  intros Hq.
  pose proof (Z.sqrtrem_spec (q * q)) as Hs.
  destruct (Z.sqrtrem (q * q)) as [s r].
  destruct Hs as [Hs Hr]; [nia |].
  assert (s = q) by nia. subst s. f_equal. lia.
Qed.

Lemma sqrt_core_square (g : Z) (m : positive) (e : Z) :
  0 < g -> g * g < 2 ^ 53 ->
  mag_eq (Zpos m) e (g * g) ->
  exists q e',
    SFsqrt_core_binary prec emax (Zpos m) e = (Zpos q, e', loc_Exact) /\
    mag_eq (Zpos q) e' g.
Proof.
  intros Hg Hgg Heq.
  pose proof (digits_exp_bound m e (g * g) Hgg (mag_eq_le _ _ _ Heq)) as Hd.
  unfold SFsqrt_core_binary.
  change (Zdigits2 (Zpos m)) with (Zpos (digits2_pos m)).
  set (d := Zpos (digits2_pos m)) in *.
  assert (Hd1 : 1 <= d) by (unfold d; lia).
  rewrite fexp_eq.
  set (e' := Z.min (Z.max (Z.div2 (d + e + 1) - 53) (-1074)) (Z.div2 e)).
  assert (He' : e' <= -26 /\ 2 * e' <= e).
  { unfold e'. rewrite !Z.div2_div. split.
    - assert (( d + e + 1) / 2 <= 27) by (apply Z.div_le_upper_bound; lia). lia.
    - pose proof (Z.mul_div_le e 2). lia. }
  destruct He' as [He26 He2].
  set (s := e - 2 * e').
  assert (Hs : 0 <= s) by (unfold s; lia).
  set (m' := match s with
             | 0 => Zpos m
             | Zpos _ => Z.shiftl (Zpos m) s
             | Zneg _ => 0
             end).
  assert (Hm' : m' = Zpos m * 2 ^ s).
  { unfold m'. destruct s as [| ps | ps] eqn:Es; [| | lia].
    - rewrite Z.pow_0_r. lia.
    - apply Z.shiftl_mul_pow2. lia. }
  set (Q := g * 2 ^ (- e')).
  assert (HQ : 0 < Q).
  { apply Z.mul_pos_pos; [lia | apply Z.pow_pos_nonneg; lia]. }
  assert (HmQ : m' = Q * Q).
  { rewrite Hm'.
    apply (mag_eq_scale (Zpos m) e (g * g) (- (2 * e'))) in Heq; [| lia | lia].
    replace (e + - (2 * e')) with s in Heq by (unfold s; lia).
    rewrite Heq. unfold Q.
    replace (- (2 * e')) with (- e' + - e') by lia.
    rewrite Z.pow_add_r by lia. ring. }
  clearbody m'. rewrite HmQ. clear Hm' HmQ m'.
  change (IntDef.Z.sqrtrem (Q * Q)) with (Z.sqrtrem (Q * Q)).
  rewrite sqrtrem_square by lia.
  destruct Q as [| q | q] eqn:EQ; try lia.
  exists q, e'. split; [reflexivity |].
  apply (mag_eq_scale (Zpos q) e' g (- e')); [lia | lia |].
  replace (e' + - e') with 0 by lia.
  rewrite Z.pow_0_r, Z.mul_1_r. rewrite <- EQ. reflexivity.
Qed.

(** [int(n ** 0.5)] of a perfect square [n = g * g] below [2^53] is [g]. *)
Lemma int_pow_half_square (g : Z) :
  0 <= g -> g * g < 2 ^ 53 ->
  exists r, int_pow_half (g * g) = Py.Ok r /\ to_int r = Py.Ok g.
Proof.
  intros Hg Hgg. unfold int_pow_half.
  assert (E : (g * g <? 0) = false) by (apply Z.ltb_ge; nia).
  rewrite E.
  destruct (Z.eq_dec g 0) as [-> | Hne].
  - eexists. split; reflexivity.
  - assert (Hpos : 0 < g * g < 2 ^ 53) by nia.
    destruct (of_int_eq (g * g) Hpos) as (m & e & -> & Hm). simpl.
    destruct (sqrt_core_square g m e ltac:(lia) Hgg Hm) as (q & e' & Hc & Hq).
    assert (Hg53 : g < 2 ^ 53) by nia.
    destruct (binary_round_aux_eq false q e' g Hg53 Hq) as (m2 & e2 & Hr & H2).
    exists (S754_finite false m2 e2). split.
    + unfold SFsqrt. rewrite Hc, Hr. reflexivity.
    + simpl. rewrite (trunc_mag_eq m2 e2 g H2). reflexivity.
Qed.

End F64Facts.

(** ** Rounding to nearest is monotone *)

Module F64OrderFacts.
Import F64 F64Facts F64Order.

(** *** Rounding a quotient *)

Lemma rne_frac_bounds (a b : Z) :
  0 < b -> a / b <= rne_frac a b <= a / b + 1.
Proof.
  intros Hb. unfold rne_frac.
  destruct (2 * (a mod b) ?= b); [destruct (Z.even (a / b)) | |]; lia.
Qed.

Lemma rne_frac_exact (q b : Z) : 0 < b -> rne_frac (q * b) b = q.
Proof.
  intros Hb. unfold rne_frac.
  rewrite Z.div_mul, Z.mod_mul by lia.
  destruct (Z.compare_spec (2 * 0) b); lia.
Qed.

(** Rounding is monotone in the numerator. *)
Lemma rne_frac_mono (a a' b : Z) :
  0 < b -> a <= a' -> rne_frac a b <= rne_frac a' b.
Proof.
  intros Hb Ha.
  pose proof (Z.div_le_mono a a' b Hb Ha) as Hq.
  destruct (Z.eq_dec (a / b) (a' / b)) as [E | E].
  - assert (Hr : a mod b <= a' mod b).
    { pose proof (Z.div_mod a b ltac:(lia)). pose proof (Z.div_mod a' b ltac:(lia)).
      rewrite E in *. lia. }
    unfold rne_frac. rewrite E.
    destruct (Z.compare_spec (2 * (a mod b)) b),
             (Z.compare_spec (2 * (a' mod b)) b);
      try destruct (Z.even (a' / b)); lia.
  - pose proof (rne_frac_bounds a b Hb). pose proof (rne_frac_bounds a' b Hb). lia.
Qed.

(** Rounding does not depend on how the quotient is written. *)
Lemma rne_frac_scale (a b c : Z) :
  0 < b -> 0 < c -> rne_frac (a * c) (b * c) = rne_frac a b.
Proof.
  intros Hb Hc. unfold rne_frac.
  rewrite Z.div_mul_cancel_r by lia.
  rewrite Z.mul_mod_distr_r by lia.
  destruct (Z.compare_spec (2 * (a mod b * c)) (b * c)),
           (Z.compare_spec (2 * (a mod b)) b); try reflexivity; nia.
Qed.

(** A quotient that is at most the integer [n] rounds to at most [n]. *)
Lemma rne_frac_le (a b n : Z) :
  0 < b -> a <= n * b -> rne_frac a b <= n.
Proof.
  intros Hb Ha.
  rewrite <- (rne_frac_exact n b Hb). apply rne_frac_mono; assumption.
Qed.

Lemma rne_frac_ge (a b n : Z) :
  0 < b -> n * b <= a -> n <= rne_frac a b.
Proof.
  intros Hb Ha.
  rewrite <- (rne_frac_exact n b Hb). apply rne_frac_mono; assumption.
Qed.

(** *** The bits that the right shift keeps *)

Lemma shr_1_bits (m k : Z) (rec : shr_record) :
  0 <= m -> 0 <= k -> shr_bits m k rec -> shr_bits m (k + 1) (shr_1 rec).
Proof.
  intros Hm Hk (Hq & H0 & H1). destruct rec as [q r s]. simpl in Hq, H0, H1.
  assert (Hpk : 0 < 2 ^ k) by (apply Z.pow_pos_nonneg; lia).
  assert (Hq0 : 0 <= q) by (subst q; apply Z.div_pos; lia).
  rewrite shr_1_nonneg by exact Hq0. unfold shr_bits. simpl.
  replace (k + 1 - 1) with k by lia.
  split; [| split].
  - rewrite Z.pow_add_r, Z.pow_1_r by lia.
    subst q. rewrite Z.div_div by lia. reflexivity.
  - intros E. lia.
  - intros _. split; [subst q; reflexivity |].
    destruct (Z.eq_dec k 0) as [E0 | E0].
    + destruct (H0 E0) as [-> ->]. subst k. simpl.
      rewrite Z.mod_1_r. tauto.
    + destruct (H1 ltac:(lia)) as [Hr Hs].
      assert (Hsplit : 2 ^ k = 2 ^ (k - 1) * 2).
      { replace (2 ^ k) with (2 ^ Z.succ (k - 1)) by (f_equal; lia).
        rewrite Z.pow_succ_r by lia. ring. }
      assert (Hp1 : 0 < 2 ^ (k - 1)) by (apply Z.pow_pos_nonneg; lia).
      rewrite Hsplit, Z.rem_mul_r by lia.
      rewrite Zmod_odd, <- Hr.
      pose proof (Z.mod_pos_bound m (2 ^ (k - 1)) Hp1) as Hb.
      destruct r; simpl.
      * split; [discriminate | lia].
      * rewrite Z.mul_0_r, Z.add_0_r. exact Hs.
Qed.

Lemma iter_pos_shr_bits (m : Z) (p : positive) :
  0 <= m ->
  forall (k : Z) (rec : shr_record),
    0 <= k -> shr_bits m k rec ->
    shr_bits m (k + Zpos p) (SpecFloat.iter_pos shr_1 p rec).
Proof.
  intros Hm. induction p as [p IH | p IH |]; intros k rec Hk H; simpl.
  - replace (k + Zpos p~1) with (k + 1 + Zpos p + Zpos p) by lia.
    apply IH; [lia |]. apply IH; [lia |]. apply shr_1_bits; assumption.
  - replace (k + Zpos p~0) with (k + Zpos p + Zpos p) by lia.
    apply IH; [lia |]. apply IH; assumption.
  - apply shr_1_bits; assumption.
Qed.

Lemma shr_bits_spec (m e z : Z) :
  0 <= m ->
  shr_bits m (Z.max z 0) (fst (shr (shr_record_of_loc m loc_Exact) e z)) /\
  snd (shr (shr_record_of_loc m loc_Exact) e z) = e + Z.max z 0.
Proof.
  intros Hm.
  assert (H0 : shr_bits m 0 (Build_shr_record m false false)).
  { split; simpl; [rewrite Z.div_1_r; reflexivity |]. split; [auto | lia]. }
  destruct z as [| p | p]; simpl.
  - split; [exact H0 | lia].
  - split; [| reflexivity].
    apply (iter_pos_shr_bits m p Hm 0 _ (Z.le_refl 0) H0).
  - split; [exact H0 | lia].
Qed.

(** The mantissa after the shift by [k] bits and the rounding is the
    quotient [m / 2^k] rounded to nearest, ties to even. *)
Lemma round_shr_bits (m k : Z) (rec : shr_record) :
  0 <= m -> 0 <= k -> shr_bits m k rec ->
  round_nearest_even (shr_m rec) (loc_of_shr_record rec) = rne_frac m (2 ^ k).
Proof.
  intros Hm Hk (Hq & H0 & H1). destruct rec as [q r s]. simpl in Hq, H0, H1.
  destruct (Z.eq_dec k 0) as [E0 | E0].
  - destruct (H0 E0) as [-> ->]. subst k. simpl.
    unfold rne_frac. rewrite Z.pow_0_r, Z.div_1_r, Z.mod_1_r in *. subst q.
    reflexivity.
  - destruct (H1 ltac:(lia)) as [Hr Hs].
    assert (Hsplit : 2 ^ k = 2 ^ (k - 1) * 2).
    { replace (2 ^ k) with (2 ^ Z.succ (k - 1)) by (f_equal; lia).
        rewrite Z.pow_succ_r by lia. ring. }
    assert (Hp1 : 0 < 2 ^ (k - 1)) by (apply Z.pow_pos_nonneg; lia).
    pose proof (Z.mod_pos_bound m (2 ^ (k - 1)) Hp1) as Hb.
    assert (Hrem : m mod 2 ^ k
                   = m mod 2 ^ (k - 1)
                     + 2 ^ (k - 1) * (if r then 1 else 0)).
    { rewrite Hsplit at 1. rewrite Z.rem_mul_r by lia.
      rewrite Zmod_odd, <- Hr. reflexivity. }
    unfold rne_frac. rewrite <- Hq, Hrem. simpl.
    destruct r, s; simpl.
    + assert (m mod 2 ^ (k - 1) <> 0) by (intros E; apply Hs in E; discriminate).
      destruct (Z.compare_spec (2 * (m mod 2 ^ (k - 1) + 2 ^ (k - 1) * 1)) (2 ^ k));
        lia.
    + assert (m mod 2 ^ (k - 1) = 0) by (apply Hs; reflexivity).
      destruct (Z.compare_spec (2 * (m mod 2 ^ (k - 1) + 2 ^ (k - 1) * 1)) (2 ^ k));
        first [lia | reflexivity].
    + destruct (Z.compare_spec (2 * (m mod 2 ^ (k - 1) + 2 ^ (k - 1) * 0)) (2 ^ k));
        lia.
    + destruct (Z.compare_spec (2 * (m mod 2 ^ (k - 1) + 2 ^ (k - 1) * 0)) (2 ^ k));
        lia.
Qed.

Lemma pow2_pos (k : Z) : 0 <= k -> 0 < 2 ^ k.
Proof. intros Hk. apply Z.pow_pos_nonneg; lia. Qed.

(** *** What [binary_round_aux] returns *)

(** A magnitude that is at most [n < 2^53] is rounded to [units]
    times [2^target_exp]: a finite float, or zero when that is 0. *)
Lemma binary_round_aux_units (mx : positive) (ex n : Z) :
  n < 2 ^ 53 ->
  mag_le (Zpos mx) ex n ->
  let E := target_exp mx ex in
  let U := units mx ex in
  0 <= U <= 2 ^ 53 /\
  match binary_round_aux prec emax false (Zpos mx) ex loc_Exact with
  | S754_zero s => s = false /\ U = 0
  | S754_finite s m e => s = false /\ E <= e /\ Zpos m * 2 ^ (e - E) = U
  | _ => False
  end.
Proof.
  intros Hn Hle E U.
  pose proof (digits_exp_bound mx ex n Hn Hle) as Hd.
  pose proof (digits_upper mx) as Hup.
  unfold binary_round_aux, shr_fexp.
  change (Zdigits2 (Zpos mx)) with (Zpos (digits2_pos mx)).
  rewrite fexp_eq.
  change (Z.max (Zpos (digits2_pos mx) + ex - 53) (-1074)) with E.
  unfold U, units. fold E. clear U.
  set (d := Zpos (digits2_pos mx)) in *.
  assert (Hd1 : 1 <= d) by (unfold d; lia).
  assert (HE : E = Z.max (d + ex - 53) (-1074)) by reflexivity.
  clearbody E.
  set (z1 := E - ex).
  destruct (shr_bits_spec (Zpos mx) ex z1) as [Hb1 He1]; [lia |].
  destruct (shr (shr_record_of_loc (Zpos mx) loc_Exact) ex z1) as [rec1 e1].
  simpl in Hb1, He1.
  pose proof (round_shr_bits (Zpos mx) (Z.max z1 0) rec1 ltac:(lia) ltac:(lia) Hb1)
    as Hm1.
  set (m1 := round_nearest_even (shr_m rec1) (loc_of_shr_record rec1)) in *.
  clearbody m1. clear Hb1 rec1.
  rewrite fexp_eq.
  destruct (Z.le_gt_cases z1 0) as [Hz | Hz].
  - (* no shift: the magnitude is kept *)
    rewrite Z.max_r in Hm1, He1 by lia.
    rewrite (Z.max_r z1 0) by lia.
    replace (Z.max (ex - E) 0) with (ex - E) by lia.
    rewrite Z.pow_0_r in *.
    replace (Zpos mx) with (Zpos mx * 1) in Hm1 by lia.
    rewrite rne_frac_exact in Hm1 by lia.
    replace (Zpos mx * 2 ^ (ex - E)) with (Zpos mx * 2 ^ (ex - E) * 1) by lia.
    rewrite rne_frac_exact by lia.
    assert (Hpe : 0 < 2 ^ (ex - E)) by (apply pow2_pos; lia).
    assert (Hbound : Zpos mx * 2 ^ (ex - E) <= 2 ^ 53).
    { apply Z.le_trans with (2 ^ d * 2 ^ (ex - E)).
      - apply Z.mul_le_mono_nonneg_r; lia.
      - rewrite <- Z.pow_add_r by lia. apply Z.pow_le_mono_r; lia. }
    split; [split; [apply Z.mul_nonneg_nonneg; lia | exact Hbound] |].
    subst m1. replace e1 with ex by lia.
    change (Zdigits2 (Zpos mx)) with d.
    set (z2 := Z.max (d + ex - 53) (-1074) - ex).
    assert (Hz2 : z2 <= 0) by (unfold z2; lia).
    unfold shr. destruct z2 as [| p | p]; [| lia |]; simpl.
    + assert (He971 : (ex <=? 971) = true) by (apply Z.leb_le; lia).
      change (emax - prec) with 971. rewrite He971.
      unfold z1 in Hz. repeat split; lia.
    + assert (He971 : (ex <=? 971) = true) by (apply Z.leb_le; lia).
      change (emax - prec) with 971. rewrite He971.
      unfold z1 in Hz. repeat split; lia.
  - (* a shift by [z1] bits, then the rounding *)
    rewrite Z.max_l in Hm1, He1 by lia.
    rewrite (Z.max_l z1 0) by lia.
    replace (Z.max (ex - E) 0) with 0 by lia.
    rewrite Z.pow_0_r, Z.mul_1_r. rewrite <- Hm1.
    assert (He1' : e1 = E) by lia. clear He1. subst e1.
    assert (Hp : 0 < 2 ^ z1) by (apply pow2_pos; lia).
    pose proof (rne_frac_bounds (Zpos mx) (2 ^ z1) Hp) as Hrb.
    rewrite <- Hm1 in Hrb.
    assert (Hq0 : 0 <= Zpos mx / 2 ^ z1) by (apply Z.div_pos; lia).
    assert (Hq53 : Zpos mx / 2 ^ z1 < 2 ^ 53).
    { apply Z.div_lt_upper_bound; [exact Hp |].
      apply Z.lt_le_trans with (2 ^ d); [exact Hup |].
      rewrite <- Z.pow_add_r by lia. apply Z.pow_le_mono_r; lia. }
    split; [lia |].
    assert (HE0 : E <= 0) by lia.
    destruct m1 as [| m1' | m1']; [| | lia].
    + (* rounded to zero *)
      change (Zdigits2 0) with 0.
      set (z2 := Z.max (0 + E - 53) (-1074) - E).
      assert (Hz2 : z2 <= 0) by (unfold z2; lia).
      unfold shr. destruct z2 as [| p | p]; [| lia |]; simpl; auto.
    + change (Zdigits2 (Zpos m1')) with (Zpos (digits2_pos m1')).
      pose proof (digits_lower m1') as Hlo.
      pose proof (digits_upper m1') as Hhi.
      set (d1 := Zpos (digits2_pos m1')) in *.
      assert (Hd1' : 1 <= d1) by (unfold d1; lia).
      assert (Hd54 : d1 <= 54).
      { destruct (Z.le_gt_cases d1 54) as [Hc | Hc]; [exact Hc |].
        assert (2 ^ 54 <= 2 ^ (d1 - 1)) by (apply Z.pow_le_mono_r; lia).
        assert (2 ^ 53 < 2 ^ 54) by (apply Z.pow_lt_mono_r; lia). lia. }
      set (z2 := Z.max (d1 + E - 53) (-1074) - E).
      destruct (Z.le_gt_cases d1 53) as [Hc | Hc].
      * assert (Hz2 : z2 <= 0) by (unfold z2; lia).
        assert (He971 : (E <=? 971) = true) by (apply Z.leb_le; lia).
        unfold shr. destruct z2 as [| p | p]; [| lia |]; simpl;
          change (emax - prec) with 971; rewrite He971;
          rewrite Z.sub_diag, Z.pow_0_r, Z.mul_1_r; auto with zarith.
      * assert (Hd1eq : d1 = 54) by lia.
        assert (Hm53 : Zpos m1' = 2 ^ 53).
        { rewrite Hd1eq in Hlo. change (54 - 1) with 53 in Hlo. lia. }
        assert (Hz2 : z2 = 1) by (unfold z2; lia).
        rewrite Hz2.
        destruct (shr_spec (Zpos m1') E 1) as [[Hq2 _] He2]; [lia |].
        destruct (shr (shr_record_of_loc (Zpos m1') loc_Exact) E 1) as [rec2 e2].
        simpl in Hq2, He2.
        change (Z.max 1 0) with 1 in *.
        assert (H53 : 2 ^ 53 = 2 ^ 52 * 2).
        { replace (2 ^ 53) with (2 ^ Z.succ 52) by reflexivity.
          rewrite Z.pow_succ_r by lia. ring. }
        assert (Hp52 : 0 < 2 ^ 52) by (apply pow2_pos; lia).
        assert (Hq2' : shr_m rec2 = 2 ^ 52).
        { rewrite Hq2, Hm53, H53, Z.pow_1_r, Z.div_mul by lia. reflexivity. }
        rewrite Hq2'.
        destruct (2 ^ 52) as [| p52 | p52] eqn:E52; [lia | | lia].
        assert (He971 : (e2 <=? 971) = true) by (apply Z.leb_le; lia).
        change (emax - prec) with 971. rewrite He971.
        split; [reflexivity |]. split; [lia |].
        replace (e2 - E) with 1 by lia. rewrite Z.pow_1_r, Hm53. lia.
Qed.

(** *** Comparing magnitudes at a common exponent *)

Lemma mag_cmp_le_scale (m e m' e' s : Z) :
  s <= e -> s <= e' ->
  mag_cmp_le m e m' e' <-> m * 2 ^ (e - s) <= m' * 2 ^ (e' - s).
Proof.
  intros Hs Hs'. unfold mag_cmp_le.
  set (t := Z.min e e').
  assert (Ht : s <= t) by (unfold t; lia).
  assert (Hp : 0 < 2 ^ (t - s)) by (apply pow2_pos; lia).
  replace (e - s) with ((e - t) + (t - s)) by lia.
  replace (e' - s) with ((e' - t) + (t - s)) by lia.
  rewrite !Z.pow_add_r by (unfold t; lia).
  rewrite !Z.mul_assoc.
  split; intros Hle.
  - apply Z.mul_le_mono_nonneg_r; lia.
  - apply Z.mul_le_mono_pos_r in Hle; assumption.
Qed.

Lemma mag_cmp_le_mag_le (m e m' e' n : Z) :
  mag_cmp_le m e m' e' -> mag_le m' e' n -> mag_le m e n.
Proof.
  intros Hc Hle.
  set (k := Z.max (Z.max (- e) (- e')) 0).
  apply (mag_le_scale m' e' n k) in Hle; [| unfold k; lia | unfold k; lia].
  apply (mag_le_scale m e n k); [unfold k; lia | unfold k; lia |].
  apply (mag_cmp_le_scale m e m' e' (- k)) in Hc; [| unfold k; lia | unfold k; lia].
  replace (e - - k) with (e + k) in Hc by lia.
  replace (e' - - k) with (e' + k) in Hc by lia. lia.
Qed.

(** A larger magnitude has its leading bit at least as high. *)
Lemma digits_mono (mx mx' : positive) (ex ex' : Z) :
  mag_cmp_le (Zpos mx) ex (Zpos mx') ex' ->
  Zpos (digits2_pos mx) + ex <= Zpos (digits2_pos mx') + ex'.
Proof.
  intros Hc. unfold mag_cmp_le in Hc.
  set (s := Z.min ex ex') in *.
  pose proof (digits_lower mx) as Hlo. pose proof (digits_upper mx') as Hhi.
  set (d := Zpos (digits2_pos mx)) in *. set (d' := Zpos (digits2_pos mx')) in *.
  assert (Hd : 1 <= d) by (unfold d; lia).
  assert (Hd' : 1 <= d') by (unfold d'; lia).
  assert (Hp : 0 < 2 ^ (ex - s)) by (apply pow2_pos; unfold s; lia).
  assert (Hp' : 0 < 2 ^ (ex' - s)) by (apply pow2_pos; unfold s; lia).
  assert (Hlt : 2 ^ (d - 1 + (ex - s)) < 2 ^ (d' + (ex' - s))).
  { rewrite !Z.pow_add_r by (unfold s; lia).
    apply Z.le_lt_trans with (Zpos mx * 2 ^ (ex - s)).
    - apply Z.mul_le_mono_nonneg_r; lia.
    - apply Z.le_lt_trans with (Zpos mx' * 2 ^ (ex' - s)); [exact Hc |].
      apply Z.mul_lt_mono_pos_r; lia. }
  apply Z.pow_lt_mono_r_iff in Hlt; unfold s in *; lia.
Qed.

(** [units] at an exponent [f] below both the mantissa's exponent and
    the target. *)
Lemma units_scaled (mx : positive) (ex f : Z) :
  f <= ex -> f <= target_exp mx ex ->
  units mx ex
  = rne_frac (Zpos mx * 2 ^ (ex - f)) (2 ^ (target_exp mx ex - f)).
Proof.
  intros Hf HfE. unfold units.
  set (E := target_exp mx ex) in *.
  set (c := Z.min ex E - f).
  assert (Hc : 0 <= c) by (unfold c; lia).
  rewrite <- (rne_frac_scale _ _ (2 ^ c)); [| apply pow2_pos; lia | apply pow2_pos; lia].
  rewrite <- Z.mul_assoc, <- !Z.pow_add_r by lia.
  f_equal; f_equal; f_equal; unfold c; lia.
Qed.

(** A normal magnitude has at least [2^52] units. *)
Lemma units_normal (mx : positive) (ex : Z) :
  -1074 < target_exp mx ex -> 2 ^ 52 <= units mx ex.
Proof.
  intros HE. unfold units.
  set (E := target_exp mx ex) in *.
  pose proof (digits_lower mx) as Hlo.
  set (d := Zpos (digits2_pos mx)) in *.
  assert (Hd : 1 <= d) by (unfold d; lia).
  assert (HEd : E = d + ex - 53) by (unfold E, target_exp in *; fold d in HE |- *; lia).
  apply rne_frac_ge; [apply pow2_pos; lia |].
  destruct (Z.le_gt_cases ex E) as [Hc | Hc].
  - rewrite (Z.max_l (E - ex) 0), (Z.max_r (ex - E) 0) by lia.
    rewrite Z.pow_0_r, Z.mul_1_r, <- Z.pow_add_r by lia.
    replace (52 + (E - ex)) with (d - 1) by lia. exact Hlo.
  - rewrite (Z.max_r (E - ex) 0), (Z.max_l (ex - E) 0) by lia.
    rewrite Z.pow_0_r, Z.mul_1_r.
    replace 52 with ((d - 1) + (ex - E)) at 1 by lia.
    rewrite Z.pow_add_r by lia.
    apply Z.mul_le_mono_nonneg_r; [apply Z.pow_nonneg |]; lia.
Qed.

(** The rounded magnitude grows with the magnitude. *)
Lemma units_mono (mx mx' : positive) (ex ex' n : Z) :
  n < 2 ^ 53 ->
  mag_cmp_le (Zpos mx) ex (Zpos mx') ex' ->
  mag_le (Zpos mx') ex' n ->
  target_exp mx ex <= target_exp mx' ex' /\
  units mx ex
  <= units mx' ex' * 2 ^ (target_exp mx' ex' - target_exp mx ex).
Proof.
  intros Hn Hc Hle'.
  pose proof (mag_cmp_le_mag_le _ _ _ _ _ Hc Hle') as Hle.
  pose proof (digits_mono mx mx' ex ex' Hc) as Hd.
  destruct (binary_round_aux_units mx ex n Hn Hle) as [HU _].
  destruct (binary_round_aux_units mx' ex' n Hn Hle') as [HU' _].
  simpl in HU, HU'.
  assert (HE : target_exp mx ex <= target_exp mx' ex').
  { unfold target_exp. lia. }
  split; [exact HE |].
  destruct (Z.eq_dec (target_exp mx ex) (target_exp mx' ex')) as [Eq | Ne].
  - rewrite <- Eq, Z.sub_diag, Z.pow_0_r, Z.mul_1_r.
    set (f := Z.min (Z.min ex ex') (target_exp mx ex)).
    rewrite (units_scaled mx ex f), (units_scaled mx' ex' f)
      by (unfold f; lia).
    rewrite <- Eq.
    apply rne_frac_mono; [apply pow2_pos; unfold f; lia |].
    apply (mag_cmp_le_scale _ _ _ _ f) in Hc; [exact Hc | |]; unfold f; lia.
  - assert (Hnorm : -1074 < target_exp mx' ex').
    { unfold target_exp in *. lia. }
    pose proof (units_normal mx' ex' Hnorm) as H52.
    set (D := target_exp mx' ex' - target_exp mx ex) in *.
    assert (HD : 1 <= D) by (unfold D; lia).
    assert (H2 : 2 ^ 1 <= 2 ^ D) by (apply Z.pow_le_mono_r; lia).
    assert (H53 : 2 ^ 53 = 2 ^ 52 * 2 ^ 1).
    { rewrite <- Z.pow_add_r by lia. reflexivity. }
    apply Z.le_trans with (2 ^ 52 * 2 ^ 1); [lia |].
    apply Z.mul_le_mono_nonneg; lia.
Qed.

(** Rounding to nearest is monotone on magnitudes below [2^53]. *)
Lemma binary_round_aux_mono (mx mx' : positive) (ex ex' n : Z) :
  n < 2 ^ 53 ->
  mag_cmp_le (Zpos mx) ex (Zpos mx') ex' ->
  mag_le (Zpos mx') ex' n ->
  nonneg_fle (binary_round_aux prec emax false (Zpos mx) ex loc_Exact)
             (binary_round_aux prec emax false (Zpos mx') ex' loc_Exact).
Proof.
  intros Hn Hc Hle'.
  pose proof (mag_cmp_le_mag_le _ _ _ _ _ Hc Hle') as Hle.
  destruct (units_mono mx mx' ex ex' n Hn Hc Hle') as [HE HU].
  destruct (binary_round_aux_units mx ex n Hn Hle) as [Hb Hr].
  destruct (binary_round_aux_units mx' ex' n Hn Hle') as [Hb' Hr'].
  simpl in Hb, Hr, Hb', Hr'.
  set (E := target_exp mx ex) in *. set (E' := target_exp mx' ex') in *.
  set (U := units mx ex) in *. set (U' := units mx' ex') in *.
  destruct (binary_round_aux prec emax false (Zpos mx) ex loc_Exact)
    as [s | s | | s m e];
  destruct (binary_round_aux prec emax false (Zpos mx') ex' loc_Exact)
    as [s' | s' | | s' m' e']; try contradiction; simpl.
  - exact I.
  - destruct Hr' as [-> _]. exact I.
  - destruct Hr as (-> & He & Hm), Hr' as (_ & HU0).
    assert (0 < Zpos m * 2 ^ (e - E)).
    { apply Z.mul_pos_pos; [lia | apply pow2_pos; lia]. }
    rewrite HU0 in HU. lia.
  - destruct Hr as (-> & He & Hm), Hr' as (-> & He' & Hm').
    apply (mag_cmp_le_scale _ _ _ _ E); [lia | lia |].
    rewrite Hm.
    replace (e' - E) with ((e' - E') + (E' - E)) by lia.
    rewrite Z.pow_add_r, Z.mul_assoc, Hm' by lia. exact HU.
Qed.

(** *** Truncation *)

(** [trunc_mag] at an exponent [s] below the float's own. *)
Lemma trunc_mag_scaled (m : positive) (e s : Z) :
  s <= e -> s <= 0 ->
  trunc_mag m e = (Zpos m * 2 ^ (e - s)) / 2 ^ (- s).
Proof.
  intros Hs Hs0. unfold trunc_mag.
  assert (Hp : 0 < 2 ^ (- s)) by (apply pow2_pos; lia).
  destruct e as [| pe | pe].
  - rewrite Z.shiftl_0_r. replace (0 - s) with (- s) by lia.
    rewrite Z.div_mul by lia. reflexivity.
  - rewrite Z.shiftl_mul_pow2 by lia.
    replace (Zpos pe - s) with (Zpos pe + - s) by lia.
    rewrite Z.pow_add_r, Z.mul_assoc, Z.div_mul by lia. reflexivity.
  - rewrite Z.shiftr_div_pow2 by lia.
    assert (Hq : 0 < 2 ^ (Zneg pe - s)) by (apply pow2_pos; lia).
    replace (- s) with (Zpos pe + (Zneg pe - s)) by lia.
    rewrite Z.pow_add_r by lia.
    rewrite Z.div_mul_cancel_r by lia. reflexivity.
Qed.

Lemma trunc_mag_nonneg (m : positive) (e : Z) : 0 <= trunc_mag m e.
Proof.
  rewrite (trunc_mag_scaled m e (Z.min e 0)) by lia.
  apply Z.div_pos; [| apply pow2_pos; lia].
  apply Z.mul_nonneg_nonneg; [lia | apply Z.pow_nonneg; lia].
Qed.

Lemma trunc_mag_mono (m m' : positive) (e e' : Z) :
  mag_cmp_le (Zpos m) e (Zpos m') e' -> trunc_mag m e <= trunc_mag m' e'.
Proof.
  intros Hc.
  set (s := Z.min (Z.min e e') 0).
  rewrite (trunc_mag_scaled m e s), (trunc_mag_scaled m' e' s) by (unfold s; lia).
  apply Z.div_le_mono; [apply pow2_pos; unfold s; lia |].
  apply (mag_cmp_le_scale _ _ _ _ s) in Hc; [exact Hc | |]; unfold s; lia.
Qed.

(** [int(x) <= int(y)] for [0 <= x <= y]. *)
Lemma to_int_mono (x y : float) :
  nonneg_fle x y ->
  exists t t', to_int x = Py.Ok t /\ to_int y = Py.Ok t' /\ 0 <= t <= t'.
Proof.
  intros H.
  destruct x as [s | s | | [|] m e], y as [s' | s' | | [|] m' e'];
    simpl in H; try contradiction; simpl.
  - exists 0, 0. repeat split; lia.
  - exists 0, (trunc_mag m' e'). pose proof (trunc_mag_nonneg m' e').
    repeat split; lia.
  - exists (trunc_mag m e), (trunc_mag m' e').
    pose proof (trunc_mag_nonneg m e). pose proof (trunc_mag_mono m m' e e' H).
    repeat split; lia.
Qed.

(** *** Comparison of two valid floats *)

Lemma canonical_exponent (m : positive) (e : Z) :
  valid_binary prec emax (S754_finite false m e) = true ->
  e = Z.max (Zpos (digits2_pos m) + e - 53) (-1074).
Proof.
  intros Hv. unfold valid_binary, bounded, canonical_mantissa in Hv.
  apply andb_prop in Hv. destruct Hv as [Hc _].
  apply Z.eqb_eq in Hc. rewrite fexp_eq in Hc. lia.
Qed.

(** [p <= p'] on valid positive floats compares their magnitudes. *)
Lemma leb_mag_cmp_le (m m' : positive) (e e' : Z) :
  valid_binary prec emax (S754_finite false m e) = true ->
  valid_binary prec emax (S754_finite false m' e') = true ->
  leb (S754_finite false m e) (S754_finite false m' e') = true ->
  mag_cmp_le (Zpos m) e (Zpos m') e'.
Proof.
  intros Hv Hv' Hle.
  apply canonical_exponent in Hv. apply canonical_exponent in Hv'.
  pose proof (digits_upper m) as Hup. pose proof (digits_lower m') as Hlo.
  set (d := Zpos (digits2_pos m)) in *. set (d' := Zpos (digits2_pos m')) in *.
  assert (Hd : 1 <= d) by (unfold d; lia).
  assert (Hd' : 1 <= d') by (unfold d'; lia).
  unfold leb, SFleb, SFcompare in Hle.
  change (Pos.compare_cont Eq m m') with (m ?= m')%positive in Hle.
  destruct (Z.compare_spec e e') as [E | E | E]; [| | discriminate].
  - subst e'. apply (mag_cmp_le_scale _ _ _ _ e); [lia | lia |].
    rewrite Z.sub_diag, Z.pow_0_r, !Z.mul_1_r.
    destruct (Pos.compare_spec m m') as [E' | E' | E']; [| | discriminate]; lia.
  - apply (mag_cmp_le_scale _ _ _ _ e); [lia | lia |].
    rewrite Z.sub_diag, Z.pow_0_r, Z.mul_1_r.
    assert (Hd53 : d <= 53) by lia.
    assert (Hd53' : d' = 53) by lia.
    rewrite Hd53' in Hlo. change (53 - 1) with 52 in Hlo.
    assert (H1 : Zpos m < 2 ^ 53).
    { apply Z.lt_le_trans with (2 ^ d); [exact Hup |].
      apply Z.pow_le_mono_r; lia. }
    assert (H2 : 2 ^ 1 <= 2 ^ (e' - e)) by (apply Z.pow_le_mono_r; lia).
    assert (H53 : 2 ^ 53 = 2 ^ 52 * 2 ^ 1).
    { rewrite <- Z.pow_add_r by lia. reflexivity. }
    apply Z.le_trans with (2 ^ 52 * 2 ^ 1); [lia |].
    apply Z.mul_le_mono_nonneg; lia.
Qed.

(** *** Products *)

Lemma mag_cmp_le_mul (a ea a' ea' b eb b' eb' : Z) :
  0 <= a -> 0 <= b -> 0 <= a' -> 0 <= b' ->
  mag_cmp_le a ea a' ea' -> mag_cmp_le b eb b' eb' ->
  mag_cmp_le (a * b) (ea + eb) (a' * b') (ea' + eb').
Proof.
  intros Ha Hb Ha' Hb' H1 H2.
  set (s1 := Z.min ea ea'). set (s2 := Z.min eb eb').
  apply (mag_cmp_le_scale _ _ _ _ s1) in H1; [| unfold s1; lia | unfold s1; lia].
  apply (mag_cmp_le_scale _ _ _ _ s2) in H2; [| unfold s2; lia | unfold s2; lia].
  apply (mag_cmp_le_scale _ _ _ _ (s1 + s2)); [unfold s1, s2; lia | unfold s1, s2; lia |].
  replace (ea + eb - (s1 + s2)) with ((ea - s1) + (eb - s2)) by lia.
  replace (ea' + eb' - (s1 + s2)) with ((ea' - s1) + (eb' - s2)) by lia.
  rewrite !Z.pow_add_r by (unfold s1, s2; lia).
  assert (0 <= 2 ^ (ea - s1)) by (apply Z.pow_nonneg; lia).
  assert (0 <= 2 ^ (eb - s2)) by (apply Z.pow_nonneg; lia).
  transitivity ((a * 2 ^ (ea - s1)) * (b * 2 ^ (eb - s2))); [apply Z.eq_le_incl; ring |].
  transitivity ((a' * 2 ^ (ea' - s1)) * (b' * 2 ^ (eb' - s2)));
    [| apply Z.eq_le_incl; ring].
  apply Z.mul_le_mono_nonneg; try assumption; apply Z.mul_nonneg_nonneg; lia.
Qed.

Lemma zero_fle (s : bool) (y : float) (n : Z) :
  nonneg_le y n -> nonneg_fle (S754_zero s) y.
Proof.
  destruct y as [s' | s' | | [|] m e]; simpl; try contradiction; try (intros; exact I).
  intros [Hs _]. discriminate.
Qed.

(** The rounded product of two floats that are zero or positive grows
    with both factors, as long as it stays below [2^53]. *)
Lemma mul_mono (x x' p p' : float) (n : Z) :
  0 <= n < 2 ^ 53 ->
  nonneg_le x' n -> nonneg_le p' 1 ->
  nonneg_fle x x' -> nonneg_fle p p' ->
  nonneg_fle (mul x p) (mul x' p').
Proof.
  intros Hn Hx' Hp' Hx Hp.
  pose proof (mul_le x' p' n Hn Hx' Hp') as Hprod'.
  destruct x as [sx | sx | | sx mx ex]; try (simpl in Hx; contradiction).
  - (* [x] is zero *)
    destruct p as [sp | sp | | sp mp ep]; try (simpl in Hp; contradiction).
    + apply (zero_fle _ _ n), Hprod'.
    + apply (zero_fle _ _ n), Hprod'.
  - destruct sx; [simpl in Hx; contradiction |].
    destruct x' as [sx' | sx' | | sx' mx' ex']; try (simpl in Hx; contradiction).
    destruct sx'; [simpl in Hx; contradiction |].
    destruct p as [sp | sp | | sp mp ep]; try (simpl in Hp; contradiction).
    + (* [p] is zero *)
      apply (zero_fle _ _ n), Hprod'.
    + destruct sp; [simpl in Hp; contradiction |].
      destruct p' as [sp' | sp' | | sp' mp' ep']; try (simpl in Hp; contradiction).
      destruct sp'; [simpl in Hp; contradiction |].
      simpl in Hx, Hp, Hx', Hp'.
      destruct Hx' as [_ Hx'], Hp' as [_ Hp'].
      unfold mul, SFmul. simpl xorb.
      apply (binary_round_aux_mono (mx * mp) (mx' * mp') (ex + ep) (ex' + ep') n);
        [lia | |].
      * rewrite !Pos2Z.inj_mul. apply mag_cmp_le_mul; try lia; assumption.
      * rewrite Pos2Z.inj_mul. replace n with (n * 1) by lia.
        apply mag_le_mul; try lia; assumption.
Qed.

(** [float(n)] grows with [n]. *)
Lemma of_int_mono (n n' : Z) :
  0 <= n <= n' -> n' < 2 ^ 53 ->
  exists x x',
    of_int n = Py.Ok x /\ of_int n' = Py.Ok x' /\
    nonneg_fle x x' /\ nonneg_le x' n'.
Proof.
  intros Hn Hn'.
  destruct (of_int_le n' ltac:(lia)) as (x' & Hx' & Hle').
  destruct (Z.eq_dec n 0) as [E0 | E0].
  - subst n. exists (S754_zero false), x'.
    split; [reflexivity |]. split; [exact Hx' |]. split; [| exact Hle'].
    destruct x' as [s | s | | [|] m e]; simpl in Hle' |- *;
      try contradiction; try exact I.
    destruct Hle' as [Hs _]. discriminate.
  - destruct (of_int_eq n ltac:(lia)) as (m & e & Hx & Hm).
    destruct (of_int_eq n' ltac:(lia)) as (m' & e' & Hx'' & Hm').
    rewrite Hx'' in Hx'. injection Hx' as <-.
    exists (S754_finite false m e), (S754_finite false m' e').
    split; [exact Hx |]. split; [exact Hx'' |]. split; [| exact Hle'].
    simpl.
    set (k := Z.max (Z.max (- e) (- e')) 0).
    apply (mag_eq_scale _ _ _ k) in Hm; [| unfold k; lia | unfold k; lia].
    apply (mag_eq_scale _ _ _ k) in Hm'; [| unfold k; lia | unfold k; lia].
    apply (mag_cmp_le_scale _ _ _ _ (- k)); [unfold k; lia | unfold k; lia |].
    replace (e - - k) with (e + k) by lia.
    replace (e' - - k) with (e' + k) by lia.
    rewrite Hm, Hm'.
    apply Z.mul_le_mono_nonneg_r; [apply Z.pow_nonneg |]; lia.
Qed.

(** [int(n * p)] grows with the int [n] and with the float [p]. *)
Lemma int_product_mono (n n' : Z) (p p' : float) :
  0 <= n <= n' -> n' < 2 ^ 53 ->
  valid_binary prec emax p = true -> valid_binary prec emax p' = true ->
  ltb zero p = true -> leb p p' = true -> leb p' one = true ->
  exists x x' t t',
    int_mul n p = Py.Ok x /\ to_int x = Py.Ok t /\
    int_mul n' p' = Py.Ok x' /\ to_int x' = Py.Ok t' /\
    0 <= t <= t'.
Proof.
  intros Hn Hn' Hv Hv' H0 Hpp H1.
  assert (Hfin : exists m e m' e',
             p = S754_finite false m e /\ p' = S754_finite false m' e').
  { destruct p as [[|] | [|] | | [|] m e], p' as [[|] | [|] | | [|] m' e'];
      try discriminate. eauto 6. }
  destruct Hfin as (m & e & m' & e' & -> & ->).
  pose proof (leb_mag_cmp_le m m' e e' Hv Hv' Hpp) as Hc.
  assert (Hp1 : nonneg_le (S754_finite false m' e') 1).
  { apply percentage_le_one; [exact Hv' | reflexivity | exact H1]. }
  destruct (of_int_mono n n' Hn Hn') as (x & x' & Hx & Hx' & Hxx & Hxle).
  pose proof (mul_mono x x' (S754_finite false m e) (S754_finite false m' e') n'
                ltac:(lia) Hxle Hp1 Hxx Hc) as Hmono.
  destruct (to_int_mono _ _ Hmono) as (t & t' & Ht & Ht' & Hb).
  exists (mul x (S754_finite false m e)), (mul x' (S754_finite false m' e')), t, t'.
  unfold int_mul. rewrite Hx, Hx'. simpl. auto.
Qed.

(** [int(n * p)] against the integer part of the exact product: the
    rounding of the product can reach the next integer, and does
    nothing else. *)
Lemma int_product_floor (n : Z) (m : positive) (e : Z) :
  0 <= n < 2 ^ 53 ->
  nonneg_le (S754_finite false m e) 1 ->
  exists x t,
    int_mul n (S754_finite false m e) = Py.Ok x /\ to_int x = Py.Ok t /\
    floor_product n (S754_finite false m e) <= t
      <= floor_product n (S754_finite false m e) + 1 /\
    0 <= t <= n.
Proof.
  intros Hn Hp.
  destruct (int_mul_le n _ Hn Hp) as (x & Hx & Hxle).
  destruct (to_int_le x n ltac:(lia) Hxle) as (t & r & Ht & _ & Htr & _ & Hrn).
  exists x, t. split; [exact Hx |]. split; [exact Ht |]. split; [| lia].
  simpl floor_product. destruct Hp as [_ Hp]. unfold mag_le in Hp.
  set (a := Z.max e 0) in *. set (b := Z.max (- e) 0) in *.
  assert (Hab : e + b = a) by (unfold a, b; lia).
  assert (Hpb : 0 < 2 ^ b) by (apply pow2_pos; unfold b; lia).
  assert (Hpa : 0 < 2 ^ a) by (apply pow2_pos; unfold a; lia).
  set (V := n * Zpos m * 2 ^ a).
  assert (HV : 0 <= V) by (unfold V; apply Z.mul_nonneg_nonneg; lia).
  pose proof (Z.div_mod V (2 ^ b) ltac:(lia)) as Hdm.
  pose proof (Z.mod_pos_bound V (2 ^ b) Hpb) as Hmb.
  set (F := V / 2 ^ b) in *.
  assert (HF0 : 0 <= F) by (unfold F; apply Z.div_pos; lia).
  assert (HFn : F <= n).
  { unfold F. apply Z.div_le_upper_bound; [exact Hpb |].
    unfold V. rewrite <- Z.mul_assoc, (Z.mul_comm (2 ^ b) n).
    apply Z.mul_le_mono_nonneg_l; lia. }
  destruct (Z.eq_dec n 0) as [E0 | E0].
  { subst n. unfold int_mul in Hx. simpl in Hx. injection Hx as <-.
    simpl in Ht. injection Ht as <-. lia. }
  destruct (of_int_eq n ltac:(lia)) as (mN & eN & HofN & HmN).
  unfold int_mul in Hx. rewrite HofN in Hx. simpl in Hx. injection Hx as <-.
  set (k1 := Z.max (- eN) 0).
  apply (mag_eq_scale _ _ _ k1) in HmN; [| unfold k1; lia | unfold k1; lia].
  assert (Hpk : 0 < 2 ^ k1) by (apply pow2_pos; unfold k1; lia).
  assert (Hprod : Zpos (mN * m) * 2 ^ (eN + e + (k1 + b)) = V * 2 ^ k1).
  { replace (eN + e + (k1 + b)) with ((eN + k1) + a) by lia.
    rewrite Pos2Z.inj_mul, Z.pow_add_r by (unfold k1, a; lia).
    transitivity ((Zpos mN * 2 ^ (eN + k1)) * (Zpos m * 2 ^ a)); [ring |].
    rewrite HmN. unfold V. ring. }
  assert (Hmagn : mag_le (Zpos (mN * m)) (eN + e) n).
  { apply (mag_le_scale _ _ _ (k1 + b)); [unfold k1, b; lia | unfold k1, b; lia |].
    rewrite Hprod, Z.pow_add_r by (unfold k1, b; lia).
    transitivity ((n * 2 ^ b) * 2 ^ k1); [| apply Z.eq_le_incl; ring].
    apply Z.mul_le_mono_nonneg_r; [lia |].
    unfold V. rewrite <- Z.mul_assoc.
    apply Z.mul_le_mono_nonneg_l; lia. }
  unfold mul, SFmul in Ht |- *. simpl xorb in Ht.
  split.
  - (* the floor is reached *)
    destruct (Z.eq_dec F 0) as [EF | EF]; [lia |].
    destruct F as [| f | f] eqn:EFf; [lia | | lia].
    assert (Hc : mag_cmp_le (Zpos f) 0 (Zpos (mN * m)) (eN + e)).
    { apply (mag_cmp_le_scale _ _ _ _ (- (k1 + b)));
        [unfold k1, b; lia | unfold k1, b; lia |].
      replace (0 - - (k1 + b)) with (k1 + b) by lia.
      replace (eN + e - - (k1 + b)) with (eN + e + (k1 + b)) by lia.
      rewrite Hprod, Z.pow_add_r by (unfold k1, b; lia).
      transitivity ((Zpos f * 2 ^ b) * 2 ^ k1); [apply Z.eq_le_incl; ring |].
      apply Z.mul_le_mono_nonneg_r; lia. }
    pose proof (binary_round_aux_mono f (mN * m) 0 (eN + e) n ltac:(lia) Hc Hmagn)
      as Hmono.
    assert (Hfeq : mag_eq (Zpos f) 0 (Zpos f)) by reflexivity.
    destruct (binary_round_aux_eq false f 0 (Zpos f) ltac:(lia) Hfeq)
      as (mf & ef & Hrf & Hmf).
    rewrite Hrf in Hmono.
    destruct (to_int_mono _ _ Hmono) as (tf & t' & Htf & Ht' & Hb).
    simpl in Htf. injection Htf as <-.
    rewrite (trunc_mag_eq mf ef (Zpos f) Hmf) in Hb.
    assert (t' = t) by congruence. lia.
  - (* and passed by at most one *)
    destruct (Z.lt_ge_cases (F + 1) (2 ^ 53)) as [Hlt | Hge]; [| lia].
    assert (Hmag1 : mag_le (Zpos (mN * m)) (eN + e) (F + 1)).
    { apply (mag_le_scale _ _ _ (k1 + b)); [unfold k1, b; lia | unfold k1, b; lia |].
      rewrite Hprod, Z.pow_add_r by (unfold k1, b; lia).
      transitivity (((F + 1) * 2 ^ b) * 2 ^ k1); [| apply Z.eq_le_incl; ring].
      apply Z.mul_le_mono_nonneg_r; lia. }
    pose proof (binary_round_aux_le false (mN * m) (eN + e) (F + 1) Hlt Hmag1) as Hr.
    destruct (binary_round_aux prec emax false (Zpos (mN * m)) (eN + e) loc_Exact)
      as [s | s | | s m2 e2]; try contradiction.
    + simpl in Ht. injection Ht as <-. lia.
    + destruct Hr as [-> Hr]. simpl in Ht. injection Ht as <-.
      pose proof (trunc_mag_bounds m2 e2 (F + 1) Hr). lia.
Qed.

(** *** Below [1.0] *)

(** The rounding of a quotient moves it up by at most a half. *)
Lemma rne_frac_error (a b : Z) :
  0 < b -> 2 * (rne_frac a b * b - a) <= b.
Proof.
  intros Hb. unfold rne_frac.
  pose proof (Z.div_mod a b ltac:(lia)) as Hdm.
  pose proof (Z.mod_pos_bound a b Hb) as Hmb.
  destruct (Z.compare_spec (2 * (a mod b)) b); [destruct (Z.even (a / b)) | |]; nia.
Qed.

(** A valid float below [1.0] is at most [1 - 2^-53]. *)
Lemma ltb_one_mag (m : positive) (e : Z) :
  valid_binary prec emax (S754_finite false m e) = true ->
  ltb (S754_finite false m e) one = true ->
  mag_cmp_le (Zpos m) e (2 ^ 53 - 1) (-53).
Proof.
  intros Hv Hlt.
  apply canonical_exponent in Hv.
  pose proof (digits_upper m) as Hup. pose proof (digits_lower m) as Hlo.
  set (d := Zpos (digits2_pos m)) in *.
  assert (Hd : 1 <= d) by (unfold d; lia).
  unfold ltb, SFltb, SFcompare, one in Hlt.
  remember 4503599627370496%positive as K eqn:HK.
  change (Pos.compare_cont Eq m K) with (m ?= K)%positive in Hlt.
  assert (HKv : Zpos K = 2 ^ 52) by (rewrite HK; reflexivity).
  assert (He : e <= -53).
  { destruct (Z.compare_spec e (-52)) as [E | E | E]; [| lia | discriminate].
    destruct (Pos.compare_spec m K) as [E' | E' | E']; try discriminate.
    apply Pos2Z.pos_lt_pos in E'. rewrite HKv in E'.
    assert (Hd53 : d = 53) by lia.
    rewrite Hd53 in Hlo. change (53 - 1) with 52 in Hlo. lia. }
  clear Hlt HK.
  assert (Hm : Zpos m < 2 ^ 53).
  { apply Z.lt_le_trans with (2 ^ d); [exact Hup |].
    apply Z.pow_le_mono_r; lia. }
  apply (mag_cmp_le_scale _ _ _ _ e); [lia | lia |].
  rewrite Z.sub_diag, Z.pow_0_r, Z.mul_1_r.
  assert (Hp : 1 <= 2 ^ (-53 - e)).
  { pose proof (pow2_pos (-53 - e) ltac:(lia)). lia. }
  nia.
Qed.

(** A magnitude that is at most [n * (1 - 2^-53)] is not rounded up
    to [n]: truncated, it stays below. *)
Lemma binary_round_aux_below (mx : positive) (ex n : Z) :
  2 <= n < 2 ^ 53 ->
  mag_cmp_le (Zpos mx) ex (n * (2 ^ 53 - 1)) (-53) ->
  exists t,
    to_int (binary_round_aux prec emax false (Zpos mx) ex loc_Exact) = Py.Ok t /\
    0 <= t <= n - 1.
Proof.
  intros Hn Hc.
  assert (Hle : mag_le (Zpos mx) ex n).
  { apply (mag_cmp_le_mag_le _ _ _ _ _ Hc).
    apply (mag_le_scale _ _ _ 53); [lia | lia |].
    change (-53 + 53) with 0. rewrite Z.pow_0_r. nia. }
  destruct (binary_round_aux_units mx ex n ltac:(lia) Hle) as [HU Hr].
  simpl in HU, Hr.
  pose proof (digits_exp_bound mx ex n ltac:(lia) Hle) as Hd.
  pose proof (digits_lower mx) as Hlo.
  set (E := target_exp mx ex) in *. set (U := units mx ex) in *.
  assert (HEdef : E = Z.max (Zpos (digits2_pos mx) + ex - 53) (-1074)) by reflexivity.
  set (d := Zpos (digits2_pos mx)) in *.
  assert (Hd1 : 1 <= d) by (unfold d; lia).
  assert (HE0 : E <= 0) by lia.
  (* the rounded magnitude is below [n] *)
  assert (Hbelow : U < n * 2 ^ (- E)).
  { destruct (Z.lt_ge_cases U (n * 2 ^ (- E))) as [Hlt | Hge]; [exact Hlt |].
    exfalso.
    set (f := Z.min ex E).
    assert (Hf : f <= 0) by (unfold f; lia).
    assert (HUs : U = rne_frac (Zpos mx * 2 ^ (ex - f)) (2 ^ (E - f))).
    { apply units_scaled; unfold f; lia. }
    set (a := Zpos mx * 2 ^ (ex - f)) in *. set (b := 2 ^ (E - f)) in *.
    assert (Hb : 0 < b) by (apply pow2_pos; unfold f; lia).
    pose proof (rne_frac_error a b Hb) as Herr. rewrite <- HUs in Herr.
    assert (Hpf : 0 < 2 ^ (- f)) by (apply pow2_pos; lia).
    assert (HUb : n * 2 ^ (- f) <= U * b).
    { replace (- f) with (- E + (E - f)) by lia.
      rewrite Z.pow_add_r, Z.mul_assoc by (unfold f; lia).
      apply Z.mul_le_mono_nonneg_r; lia. }
    apply (mag_cmp_le_scale _ _ _ _ (f - 53)) in Hc; [| unfold f; lia | lia].
    replace (ex - (f - 53)) with ((ex - f) + 53) in Hc by lia.
    replace (-53 - (f - 53)) with (- f) in Hc by lia.
    rewrite Z.pow_add_r, Z.mul_assoc in Hc by (unfold f; lia).
    fold a in Hc.
    assert (Ha : a < n * 2 ^ (- f)) by nia.
    assert (Hn52 : n * 2 ^ (- f) <= 2 ^ 52 * b) by nia.
    assert (HnE : n <= 2 ^ (52 + E)).
    { destruct (Z.le_gt_cases 0 (52 + E)) as [H52 | H52].
      - unfold b in Hn52.
        replace (E - f) with ((52 + E) + (- f) - 52) in Hn52 by lia.
        assert (Hsplit : 2 ^ 52 * 2 ^ (52 + E + - f - 52) = 2 ^ (52 + E) * 2 ^ (- f)).
        { rewrite <- !Z.pow_add_r by lia. f_equal. lia. }
        rewrite Hsplit in Hn52.
        apply Z.mul_le_mono_pos_r in Hn52; assumption.
      - exfalso. unfold b in Hn52.
        assert (Hlt1 : 2 ^ 52 * 2 ^ (E - f) < 2 ^ (- f)).
        { rewrite <- Z.pow_add_r by (unfold f; lia).
          apply Z.pow_lt_mono_r; lia. }
        nia. }
    assert (HEpos : 1 <= 52 + E).
    { destruct (Z.le_gt_cases 1 (52 + E)) as [H1 | H1]; [exact H1 |].
      exfalso.
      assert (2 ^ (52 + E) <= 2 ^ 0).
      { destruct (Z.le_gt_cases 0 (52 + E)).
        - apply Z.pow_le_mono_r; lia.
        - rewrite Z.pow_neg_r by lia. simpl. lia. }
      simpl in *. lia. }
    assert (HEd : E = d + ex - 53) by lia.
    assert (Hav : 2 ^ (52 + E) * 2 ^ (- f) <= a).
    { unfold a. rewrite <- Z.pow_add_r by lia.
      replace (52 + E + - f) with ((d - 1) + (ex - f)) by lia.
      rewrite Z.pow_add_r by (unfold f; lia).
      apply Z.mul_le_mono_nonneg_r; [apply Z.pow_nonneg; lia | exact Hlo]. }
    nia. }
  assert (HpE : 0 < 2 ^ (- E)) by (apply pow2_pos; lia).
  destruct (binary_round_aux prec emax false (Zpos mx) ex loc_Exact)
    as [s | s | | s m e]; try contradiction.
  - exists 0. simpl. split; [reflexivity | lia].
  - destruct Hr as (-> & He & Hm).
    exists (trunc_mag m e). split; [reflexivity |].
    split; [apply trunc_mag_nonneg |].
    rewrite (trunc_mag_scaled m e E) by lia. rewrite Hm.
    assert (U / 2 ^ (- E) < n); [| lia].
    apply Z.div_lt_upper_bound; [exact HpE |]. lia.
Qed.

(** [int(n * p) <= n - 1] for a valid [p < 1.0] and [n >= 2]. *)
Lemma int_product_below (n : Z) (p : float) :
  2 <= n < 2 ^ 53 ->
  valid_binary prec emax p = true ->
  ltb zero p = true -> ltb p one = true ->
  exists x t, int_mul n p = Py.Ok x /\ to_int x = Py.Ok t /\ 0 <= t <= n - 1.
Proof.
  intros Hn Hv H0 H1.
  assert (Hfin : exists m e, p = S754_finite false m e).
  { destruct p as [[|] | [|] | | [|] m e]; try discriminate. eauto. }
  destruct Hfin as (m & e & ->).
  pose proof (ltb_one_mag m e Hv H1) as Hp.
  destruct (of_int_eq n ltac:(lia)) as (mN & eN & HofN & HmN).
  assert (HcN : mag_cmp_le (Zpos mN) eN n 0).
  { set (k := Z.max (- eN) 0).
    apply (mag_eq_scale _ _ _ k) in HmN; [| unfold k; lia | unfold k; lia].
    apply (mag_cmp_le_scale _ _ _ _ (- k)); [unfold k; lia | unfold k; lia |].
    replace (eN - - k) with (eN + k) by lia.
    replace (0 - - k) with k by lia. lia. }
  assert (Hc : mag_cmp_le (Zpos mN * Zpos m) (eN + e) (n * (2 ^ 53 - 1)) (0 + -53)).
  { apply mag_cmp_le_mul; try assumption; lia. }
  rewrite <- Pos2Z.inj_mul in Hc. change (0 + -53) with (-53) in Hc.
  destruct (binary_round_aux_below (mN * m) (eN + e) n Hn Hc) as (t & Ht & Hb).
  exists (mul (S754_finite false mN eN) (S754_finite false m e)), t.
  unfold int_mul. rewrite HofN. split; [reflexivity |]. split; [exact Ht | exact Hb].
Qed.

(** *** The factor [1.0] *)

(** The product of a float that is the integer [n] with [1.0] is again
    [n], exactly. *)
Lemma mul_one_eq (m : positive) (e n : Z) :
  n < 2 ^ 53 ->
  mag_eq (Zpos m) e n ->
  exists m' e',
    mul (S754_finite false m e) one = S754_finite false m' e' /\
    mag_eq (Zpos m') e' n.
Proof.
  intros Hn Hm. unfold mul, one, SFmul.
  remember 4503599627370496%positive as K eqn:HK.
  change (xorb false false) with false.
  apply (binary_round_aux_eq false (m * K) (e + -52) n Hn).
  set (k := Z.max (- e) 0).
  apply (mag_eq_scale (Zpos m) e n k) in Hm; [| lia | lia].
  apply (mag_eq_scale (Zpos (m * K)) (e + -52) n (k + 52)); [lia | lia |].
  replace (e + -52 + (k + 52)) with (e + k) by lia.
  rewrite Pos2Z.inj_mul, (Z.pow_add_r 2 k 52) by lia.
  assert (HK' : Zpos K = 2 ^ 52) by (rewrite HK; reflexivity).
  rewrite HK'. 
  transitivity (Zpos m * 2 ^ (e + k) * 2 ^ 52); [ring |].
  rewrite Hm. ring.
Qed.

(** [int(n * 1.0)] is [n]. *)
Lemma int_mul_one (n : Z) :
  0 < n < 2 ^ 53 ->
  exists x, int_mul n one = Py.Ok x /\ to_int x = Py.Ok n.
Proof.
  intros Hn.
  destruct (of_int_eq n Hn) as (m & e & Hof & Hm).
  destruct (mul_one_eq m e n ltac:(lia) Hm) as (m' & e' & Hmul & Hm').
  exists (S754_finite false m' e'). split.
  - unfold int_mul. rewrite Hof.
    transitivity (Py.Ok (mul (S754_finite false m e) one)); [reflexivity |].
    rewrite Hmul. reflexivity.
  - simpl. f_equal. apply trunc_mag_eq, Hm'.
Qed.

End F64OrderFacts.

(** ** Facts about the primitives *)

Lemma bind_ok {A B : Type} (r : Py.result A) (k : A -> Py.result B) (b : B) :
  (r ≫= k) = Py.Ok b -> exists a, r = Py.Ok a /\ k a = Py.Ok b.
Proof. destruct r as [a | cls]; [eauto | discriminate]. Qed.

Section MonadFacts.
Context {A B : Type}.


Lemma mapM_total (f : A -> Py.result B) (l : list A) :
  Forall (fun a => exists b, f a = Py.Ok b) l ->
  exists bs, mapM f l = Py.Ok bs.
Proof.
  induction 1 as [| a l [b Hb] _ [bs Hbs]]; simpl.
  - eauto.
  - unfold mbind, result_bind. rewrite Hb. simpl.
    unfold mbind, result_bind in Hbs |- *. rewrite Hbs. simpl. eauto.
Qed.

End MonadFacts.

Section SortFacts.
Context `{Torch}.

Lemma insert_desc_perm (x : nat * scalar) (l : list (nat * scalar)) :
  insert_desc x l ≡ₚ x :: l.
Proof.
  induction l as [| y l IH]; simpl; [reflexivity |].
  destruct (score_le x.2 y.2); [| reflexivity].
  rewrite IH. apply Permutation_swap.
Qed.

Lemma sort_desc_perm (l : list (nat * scalar)) : sort_desc l ≡ₚ l.
Proof.
  unfold sort_desc. rewrite <- (reverse_Permutation l) at 2.
  induction (reverse l) as [| x r IH]; simpl; [reflexivity |].
  rewrite insert_desc_perm, IH. reflexivity.
Qed.

Lemma sort_desc_length (l : list (nat * scalar)) :
  length (sort_desc l) = length l.
Proof. apply Permutation_length, sort_desc_perm. Qed.

Lemma insert_desc_sorted (x : nat * scalar) (l : list (nat * scalar)) :
  score_total -> score_trans ->
  StronglySorted desc l -> StronglySorted desc (insert_desc x l).
Proof.
  intros Htot Htr. induction 1 as [| y l Hs IH Hy]; simpl.
  - repeat constructor.
  - destruct (score_le x.2 y.2) eqn:E.
    + constructor; [exact IH |].
      rewrite insert_desc_perm. constructor; [exact E | exact Hy].
    + assert (Hyx : desc x y).
      { unfold desc. destruct (Htot x.2 y.2); congruence. }
      constructor; [constructor; assumption |].
      constructor; [exact Hyx |].
      eapply Forall_impl; [exact Hy |]. intros z Hz. unfold desc in *.
      eapply Htr; eassumption.
Qed.

Lemma sort_desc_sorted (l : list (nat * scalar)) :
  score_total -> score_trans -> StronglySorted desc (sort_desc l).
Proof.
  intros Htot Htr. unfold sort_desc.
  induction (reverse l) as [| x r IH]; simpl; [constructor |].
  apply insert_desc_sorted; assumption.
Qed.

Lemma enumerate_fst (row : list scalar) :
  (enumerate row).*1 = seq 0 (length row).
Proof. unfold enumerate. apply fst_zip. rewrite length_seq. lia. Qed.

Lemma enumerate_length (row : list scalar) :
  length (enumerate row) = length row.
Proof.
  rewrite <- (length_fmap fst), enumerate_fst. apply length_seq.
Qed.

Lemma enumerate_elem (row : list scalar) (i : nat) (s : scalar) :
  (i, s) ∈ enumerate row <-> row !! i = Some s.
Proof.
  unfold enumerate. rewrite list_elem_of_lookup. split.
  - intros [j Hj]. apply lookup_zip_with_Some in Hj.
    destruct Hj as (a & b & Heq & Ha & Hb). injection Heq as -> ->.
    apply lookup_seq in Ha. destruct Ha as [-> _]. exact Hb.
  - intros Hi. exists i. apply lookup_zip_with_Some.
    exists i, s. split; [reflexivity |]. split; [| exact Hi].
    apply lookup_seq. split; [reflexivity |].
    apply lookup_lt_Some in Hi. exact Hi.
Qed.

Lemma rank_desc_perm (row : list scalar) :
  rank_desc row ≡ₚ seq 0 (length row).
Proof.
  unfold rank_desc. rewrite <- enumerate_fst.
  apply fmap_Permutation, sort_desc_perm.
Qed.

Lemma rank_desc_length (row : list scalar) :
  length (rank_desc row) = length row.
Proof. rewrite rank_desc_perm. apply length_seq. Qed.

Lemma rank_desc_NoDup (row : list scalar) : NoDup (rank_desc row).
Proof. rewrite rank_desc_perm. apply NoDup_seq. Qed.

Lemma rank_desc_bound (row : list scalar) (i : nat) :
  i ∈ rank_desc row <-> (i < length row)%nat.
Proof. rewrite rank_desc_perm, elem_of_seq. lia. Qed.

End SortFacts.

Section TopkFacts.
Context `{Torch}.

(** [topk_row] on a row with at least [k] entries returns [k] distinct
    valid indices, and no index left out has a higher score than one
    returned. *)
Lemma topk_row_spec (k : Z) (row : list scalar) :
  score_total -> score_trans ->
  0 <= k <= Z.of_nat (length row) ->
  exists ids,
    topk_row k row = Py.Ok ids /\
    length ids = Z.to_nat k /\
    NoDup ids /\
    (forall i, i ∈ ids -> (i < length row)%nat) /\
    (forall i j si sj,
        i ∈ ids -> j ∉ ids -> row !! i = Some si -> row !! j = Some sj ->
        score_le sj si = true).
Proof.
  intros Htot Htr Hk. unfold topk_row.
  assert (E : (k <? 0) || (Z.of_nat (length row) <? k) = false).
  { apply orb_false_iff. split; [apply Z.ltb_ge | apply Z.ltb_ge]; lia. }
  rewrite E. eexists. split; [reflexivity |].
  set (sorted := sort_desc (enumerate row)).
  assert (Hperm : sorted ≡ₚ enumerate row) by apply sort_desc_perm.
  repeat split.
  - rewrite length_take, rank_desc_length. lia.
  - eapply sublist_NoDup; [apply rank_desc_NoDup | apply sublist_take].
  - intros i Hi. apply rank_desc_bound.
    eapply (subseteq_take (Z.to_nat k)). exact Hi.
  - intros i j si sj Hi Hj Hsi Hsj.
    unfold rank_desc in Hi, Hj. fold sorted in Hi, Hj.
    rewrite <- fmap_take in Hi, Hj.
    apply list_elem_of_fmap in Hi. destruct Hi as ([i' si'] & Hi' & Hin).
    simpl in Hi'. subst i'.
    assert (Hsi' : row !! i = Some si').
    { apply enumerate_elem. rewrite <- Hperm.
      eapply (subseteq_take (Z.to_nat k)). exact Hin. }
    assert (si' = si) by congruence. subst si'.
    assert (Hjd : (j, sj) ∈ drop (Z.to_nat k) sorted).
    { assert (Hjs : (j, sj) ∈ sorted) by (rewrite Hperm; apply enumerate_elem; exact Hsj).
      rewrite <- (take_drop (Z.to_nat k) sorted) in Hjs.
      apply elem_of_app in Hjs. destruct Hjs as [Hjs | Hjs]; [| exact Hjs].
      exfalso. apply Hj. apply list_elem_of_fmap. exists (j, sj). split; [reflexivity | exact Hjs]. }
    pose proof (sort_desc_sorted (enumerate row) Htot Htr) as Hs.
    fold sorted in Hs. rewrite <- (take_drop (Z.to_nat k) sorted) in Hs.
    exact (StronglySorted_app_1_elem_of desc _ _ (i, si) (j, sj) Hs Hin Hjd).
Qed.

End TopkFacts.

Section ChunkFacts.
Context {A : Type}.

Lemma chunks_fuel_nil (fuel n : nat) : chunks_fuel fuel n (@nil A) = [].
Proof. destruct fuel; reflexivity. Qed.

Lemma chunks_fuel_concat (n : nat) (rows : list (list A)) :
  (1 <= n)%nat -> Forall (fun r => length r = n) rows ->
  forall fuel, (length rows <= fuel)%nat ->
  chunks_fuel fuel n (concat rows) = rows.
Proof.
  intros Hn. induction 1 as [| r rows Hr _ IH]; intros fuel Hf; simpl.
  - apply chunks_fuel_nil.
  - destruct fuel as [| fuel]; [simpl in Hf; lia |]. simpl in Hf.
    destruct r as [| a r]; [simpl in Hr; lia |].
    change (chunks_fuel (S fuel) n ((a :: r) ++ concat rows))
      with (take n ((a :: r) ++ concat rows)
              :: chunks_fuel fuel n (drop n ((a :: r) ++ concat rows))).
    rewrite take_app_length' by (symmetry; exact Hr).
    rewrite drop_app_length' by (symmetry; exact Hr).
    rewrite IH by lia. reflexivity.
Qed.

(** Regrouping the concatenation of rows of equal length gives the rows. *)
Lemma chunks_concat (n : nat) (rows : list (list A)) :
  (1 <= n)%nat -> Forall (fun r => length r = n) rows ->
  chunks n (concat rows) = rows.
Proof.
  intros Hn Hrows. unfold chunks. apply chunks_fuel_concat; try assumption.
  clear -Hn Hrows. induction Hrows as [| r rows Hr _ IH]; simpl; [lia |].
  rewrite length_app. lia.
Qed.

Lemma concat_chunks_fuel (n : nat) :
  (1 <= n)%nat ->
  forall fuel (l : list A), (length l <= fuel)%nat ->
  concat (chunks_fuel fuel n l) = l.
Proof.
  intros Hn. induction fuel as [| fuel IH]; intros l Hl.
  - destruct l; [reflexivity | simpl in Hl; lia].
  - destruct l as [| a l]; [reflexivity |].
    change (chunks_fuel (S fuel) n (a :: l))
      with (take n (a :: l) :: chunks_fuel fuel n (drop n (a :: l))).
    simpl concat. rewrite IH.
    + apply take_drop.
    + rewrite length_drop. simpl in *. lia.
Qed.

Lemma concat_chunks (n : nat) (l : list A) :
  (1 <= n)%nat -> concat (chunks n l) = l.
Proof. intros Hn. apply concat_chunks_fuel; [exact Hn | lia]. Qed.

Lemma chunks_fuel_shape (n : nat) :
  (1 <= n)%nat ->
  forall (a : nat) (l : list A) (fuel : nat),
    length l = (a * n)%nat -> (a <= fuel)%nat ->
    length (chunks_fuel fuel n l) = a /\
    Forall (fun c => length c = n) (chunks_fuel fuel n l).
Proof.
  intros Hn. induction a as [| a IH]; intros l fuel Hl Hf.
  - destruct l; [| simpl in Hl; lia]. rewrite chunks_fuel_nil. split; constructor.
  - destruct fuel as [| fuel]; [lia |].
    destruct l as [| x l]; [simpl in Hl; lia |].
    change (chunks_fuel (S fuel) n (x :: l))
      with (take n (x :: l) :: chunks_fuel fuel n (drop n (x :: l))).
    destruct (IH (drop n (x :: l)) fuel) as [IH1 IH2].
    + rewrite length_drop, Hl. simpl. lia.
    + lia.
    + split; [simpl; lia |].
      constructor; [| exact IH2].
      rewrite length_take, Hl. simpl. lia.
Qed.

(** A list of [a * n] elements splits into [a] pieces of [n]. *)
Lemma chunks_shape (n a : nat) (l : list A) :
  (1 <= n)%nat -> length l = (a * n)%nat ->
  length (chunks n l) = a /\ Forall (fun c => length c = n) (chunks n l).
Proof.
  intros Hn Hl. unfold chunks. apply chunks_fuel_shape; [exact Hn | exact Hl |].
  rewrite Hl. nia.
Qed.

End ChunkFacts.

(** ** Facts about the selection *)

Lemma mapM_Forall2 {A B : Type} (f : A -> Py.result B) (P : A -> B -> Prop)
    (l : list A) :
  Forall (fun a => exists b, f a = Py.Ok b /\ P a b) l ->
  exists bs, mapM f l = Py.Ok bs /\ Forall2 P l bs.
Proof.
  induction 1 as [| a l (b & Hb & HP) _ (bs & Hbs & HF)]; simpl.
  - exists []. split; [reflexivity | constructor].
  - exists (b :: bs). unfold mbind, result_bind in *. rewrite Hb. simpl.
    rewrite Hbs. simpl. split; [reflexivity | constructor; assumption].
Qed.

Lemma Forall2_impl_elem {A B : Type} (P Q : A -> B -> Prop)
    (l : list A) (k : list B) :
  Forall2 P l k ->
  (forall x y, x ∈ l -> P x y -> Q x y) ->
  Forall2 Q l k.
Proof.
  induction 1 as [| x y l k HP _ IH]; intros HPQ; constructor.
  - apply HPQ; [apply list_elem_of_here | exact HP].
  - apply IH. intros x' y' Hx'. apply HPQ. apply list_elem_of_further, Hx'.
Qed.

(** The truncated and the rounded product [n * p], for a valid
    percentage and a patch count that binary64 holds exactly. *)
Lemma product_to_int (n : Z) (p : F64.float) :
  valid_percentage p -> 0 <= n < 2 ^ 53 ->
  exists x t r,
    F64.int_mul n p = Py.Ok x /\ F64.to_int x = Py.Ok t /\
    F64.py_round x = Py.Ok r /\ 0 <= t <= r /\ r <= t + 1 /\ r <= n.
Proof.
  intros (Hv & Hlt & Hle) Hn.
  pose proof (F64Facts.percentage_le_one p Hv Hlt Hle) as Hp.
  destruct (F64Facts.int_mul_le n p Hn Hp) as (x & Hx & Hxn).
  destruct (F64Facts.to_int_le x n ltac:(lia) Hxn) as (t & r & Ht & Hr & Hb).
  exists x, t, r. tauto.
Qed.

Lemma spec_num_selected_ok (n : Z) (p : F64.float) :
  valid_percentage p -> 1 <= n < 2 ^ 53 ->
  exists k, spec_num_selected n p = Py.Ok k /\ 1 <= k <= n.
Proof.
  intros Hp Hn.
  destruct (product_to_int n p Hp ltac:(lia)) as (x & t & r & Hx & Ht & Hr & Hb).
  exists (Z.max 1 r). unfold spec_num_selected.
  rewrite Hx. simpl. rewrite Hr. simpl. split; [reflexivity | lia].
Qed.

Lemma insert_asc_perm (i : nat) (l : list nat) : insert_asc i l ≡ₚ i :: l.
Proof.
  induction l as [| j l IH]; simpl; [reflexivity |].
  destruct (i <=? j)%nat; [reflexivity |].
  rewrite IH. apply Permutation_swap.
Qed.

Lemma sort_asc_perm (l : list nat) : sort_asc l ≡ₚ l.
Proof.
  induction l as [| i l IH]; simpl; [reflexivity |].
  rewrite insert_asc_perm, IH. reflexivity.
Qed.

Lemma insert_asc_sorted (i : nat) (l : list nat) :
  StronglySorted le l -> StronglySorted le (insert_asc i l).
Proof.
  induction 1 as [| j l Hs IH Hj]; simpl.
  - repeat constructor.
  - destruct (Nat.leb_spec i j) as [Hij | Hij].
    + constructor; [constructor; assumption |].
      constructor; [exact Hij |].
      eapply Forall_impl; [exact Hj |]. intros z Hz. simpl in Hz. lia.
    + constructor; [exact IH |].
      rewrite insert_asc_perm. constructor; [lia | exact Hj].
Qed.

Lemma sort_asc_sorted (l : list nat) : StronglySorted le (sort_asc l).
Proof.
  induction l as [| i l IH]; simpl; [constructor |].
  apply insert_asc_sorted, IH.
Qed.

(** An ascending list without repetition is strictly increasing. *)
Lemma sorted_NoDup_lt (l : list nat) :
  StronglySorted le l -> NoDup l -> StronglySorted lt l.
Proof.
  induction 1 as [| i l Hs IH Hi]; intros Hnd; [constructor |].
  apply NoDup_cons in Hnd. destruct Hnd as [Hnot Hnd].
  constructor; [apply IH, Hnd |].
  apply Forall_forall. intros j Hj.
  rewrite Forall_forall in Hi. specialize (Hi j Hj).
  assert (i <> j) by (intros ->; apply Hnot; exact Hj). lia.
Qed.

Lemma filter_split_perm {A : Type} (f : A -> bool) (l : list A) :
  List.filter f l ++ List.filter (fun x => negb (f x)) l ≡ₚ l.
Proof.
  induction l as [| a l IH]; simpl; [reflexivity |].
  destruct (f a); simpl.
  - rewrite IH. reflexivity.
  - rewrite <- Permutation_middle, IH. reflexivity.
Qed.

Section SelectFacts.
Context `{Torch} `{!Smoothing}.

(** The selection keeps exactly [k] indices, distinct, valid, and in
    strictly increasing order, whatever the scores are. *)
Lemma select_indices_spec (st : SelectorState) (k : nat)
    (line_drawing : image_batch) (b : nat) (scores : list scalar) :
  (k <= length scores)%nat ->
  let idx := spec_select_indices st k line_drawing b scores in
  length idx = k /\ StronglySorted lt idx /\ NoDup idx /\
  (forall i, i ∈ idx -> (i < length scores)%nat).
Proof.
  intros Hk idx.
  set (adj := adjusted (sel_gaussian_std st) line_drawing b scores).
  set (ranked := sort_desc (enumerate adj)).
  set (f := fun e : nat * scalar => score_gt e.2 (sel_threshold st)).
  set (tiers := List.filter f ranked ++ List.filter (fun e => negb (f e)) ranked).
  assert (Hlen : length adj = length scores) by apply adjusted_length.
  assert (Hperm : tiers.*1 ≡ₚ seq 0 (length scores)).
  { unfold tiers. rewrite filter_split_perm. unfold ranked.
    rewrite sort_desc_perm, enumerate_fst, Hlen. reflexivity. }
  set (chosen := (take k tiers).*1).
  assert (Hchosen : chosen = take k (tiers.*1)) by apply fmap_take.
  assert (Hnd : NoDup chosen).
  { rewrite Hchosen. eapply sublist_NoDup; [| apply sublist_take].
    rewrite Hperm. apply NoDup_seq. }
  assert (Hin : forall i, i ∈ chosen -> (i < length scores)%nat).
  { intros i Hi. rewrite Hchosen in Hi.
    apply (subseteq_take k) in Hi. rewrite Hperm in Hi.
    apply elem_of_seq in Hi. lia. }
  assert (Hl : length chosen = k).
  { rewrite Hchosen, length_take, Hperm, length_seq. lia. }
  pose proof (sort_asc_perm chosen) as Hsp.
  assert (Hidx : idx = sort_asc chosen) by reflexivity.
  clearbody idx. subst idx.
  repeat split.
  - rewrite Hsp. exact Hl.
  - apply sorted_NoDup_lt; [apply sort_asc_sorted |]. rewrite Hsp. exact Hnd.
  - rewrite Hsp. exact Hnd.
  - intros i Hi. rewrite Hsp in Hi. apply Hin, Hi.
Qed.

Lemma spec_gather_ok (emb pos : list vec) (idx : list nat) :
  length pos = S (length emb) ->
  (forall i, i ∈ idx -> (i < length emb)%nat) ->
  exists out, spec_gather emb pos idx = Py.Ok out /\
              Forall2 (gathered emb pos) idx out.
Proof.
  intros Hpos Hidx. unfold spec_gather. apply mapM_Forall2.
  apply Forall_forall. intros i Hi. specialize (Hidx i Hi).
  destruct (lookup_lt_is_Some_2 emb i Hidx) as [e He].
  destruct (lookup_lt_is_Some_2 pos (S i) ltac:(lia)) as [p Hp].
  exists (vadd e p). rewrite He, Hp. split; [reflexivity |].
  exists e, p. auto.
Qed.

Lemma selector_forward_rows (st : SelectorState) (all_patches : list (list vec))
    (pos_embed : list vec) (patch_scores : list (list scalar))
    (line_drawing : image_batch) (n : nat) :
  valid_percentage (sel_patch_percentage st) ->
  (1 <= n)%nat -> Z.of_nat n < 2 ^ 53 ->
  length all_patches = length patch_scores ->
  Forall (fun e => length e = n) all_patches ->
  Forall (fun s => length s = n) patch_scores ->
  length pos_embed = S n ->
  exists k out,
    spec_num_selected (Z.of_nat n) (sel_patch_percentage st) = Py.Ok k /\
    1 <= k <= Z.of_nat n /\
    spec_selector_forward st all_patches pos_embed patch_scores line_drawing
      = Py.Ok out /\
    Forall2 (selected_row st (Z.to_nat k) pos_embed line_drawing)
      (zip (seq 0 (length all_patches)) (zip all_patches patch_scores)) out.
Proof.
  intros Hp Hn1 Hn53 Hlen Hall Hsc Hpos.
  destruct (spec_num_selected_ok (Z.of_nat n) (sel_patch_percentage st) Hp
              ltac:(lia)) as (k & Hk & Hkb).
  unfold spec_selector_forward.
  assert (E : Nat.eqb (length all_patches) (length patch_scores) = true)
    by (apply Nat.eqb_eq; exact Hlen).
  rewrite E. simpl negb. cbv iota.
  destruct (mapM_Forall2
              (fun '(b, (emb, scores)) =>
                 k ← spec_num_selected (Z.of_nat (length emb)) (sel_patch_percentage st);
                 spec_gather emb pos_embed
                   (spec_select_indices st (Z.to_nat k) line_drawing b scores))
              (selected_row st (Z.to_nat k) pos_embed line_drawing)
              (zip (seq 0 (length all_patches)) (zip all_patches patch_scores)))
    as (out & Hout & HF).
  - apply Forall_forall. intros [b [emb scores]] Hitem.
    apply elem_of_zip_r in Hitem as Hpair.
    apply elem_of_zip_l in Hpair as Hemb.
    apply elem_of_zip_r in Hpair as Hscores.
    rewrite Forall_forall in Hall. rewrite Forall_forall in Hsc.
    specialize (Hall emb Hemb). specialize (Hsc scores Hscores).
    rewrite Hall, Hk. simpl.
    destruct (select_indices_spec st (Z.to_nat k) line_drawing b scores
                ltac:(lia)) as (Hl & Hs & Hnd & Hb).
    destruct (spec_gather_ok emb pos_embed
                (spec_select_indices st (Z.to_nat k) line_drawing b scores))
      as (o & Ho & HFo).
    + lia.
    + intros i Hi. specialize (Hb i Hi). lia.
    + exists o. split; [exact Ho |].
      unfold selected_row. simpl. repeat split; try assumption.
      intros i Hi. specialize (Hb i Hi). lia.
  - exists k, out. auto.
Qed.

End SelectFacts.

(** ** The number of selected patches and the diagnostic accessors *)

Section ViewFacts.
Context {A : Type}.

Lemma concat_singleton_chunks (s : nat) (rows : list (list A)) :
  (1 <= s)%nat ->
  concat (concat (concat (map (fun img => [chunks s img]) rows))) = concat rows.
Proof.
  intros Hs. induction rows as [| r rows IH]; simpl; [reflexivity |].
  rewrite concat_app, IH, concat_chunks by exact Hs. reflexivity.
Qed.

(** Viewing [B] rows of [g * g] scores as [(B, 1, g, g)] succeeds, and
    reading the result back as [(B, g * g)] returns the rows. *)
Lemma view_roundtrip (rows : list (list A)) (g : Z) :
  1 <= g ->
  Forall (fun r => length r = Z.to_nat (g * g)) rows ->
  exists m,
    view_m1_1_s_s rows g = Py.Ok m /\
    length m = length rows /\
    Forall (square_image (Z.to_nat g)) m /\
    flatten_map m (g * g) = rows.
Proof.
  intros Hg Hrows. unfold view_m1_1_s_s, flatten_map.
  set (cell := Z.to_nat (g * g)) in *.
  assert (Hcell : cell = (Z.to_nat g * Z.to_nat g)%nat)
    by (unfold cell; apply Z2Nat.inj_mul; lia).
  assert (Hs1 : (1 <= Z.to_nat g)%nat) by lia.
  assert (Hc1 : (1 <= cell)%nat) by (rewrite Hcell; nia).
  assert (Hflat : length (concat rows) = (length rows * cell)%nat).
  { clear -Hrows. induction Hrows as [| r rows Hr _ IH]; simpl; [reflexivity |].
    rewrite length_app, IH, Hr. reflexivity. }
  assert (E : (g <=? 0) || negb (Nat.eqb (length (concat rows) mod cell) 0) = false).
  { apply orb_false_iff. split; [apply Z.leb_gt; lia |].
    rewrite Hflat, Nat.Div0.mod_mul. reflexivity. }
  rewrite E, (chunks_concat cell rows Hc1 Hrows).
  eexists. split; [reflexivity |]. repeat split.
  - apply length_map.
  - apply Forall_map. eapply Forall_impl; [exact Hrows |].
    intros r Hr. exists (chunks (Z.to_nat g) r). split; [reflexivity |].
    apply chunks_shape; [exact Hs1 |]. simpl in Hr. rewrite Hr. exact Hcell.
  - rewrite concat_singleton_chunks by exact Hs1.
    apply chunks_concat; assumption.
Qed.

End ViewFacts.

Section Accessors.
Context `{Timm} `{!Collaborators}.

(** The selection size the code computes: the product truncated. *)
Lemma selected_indices_unfold (self : SelectiveMagnoViT)
    (line_drawing : image_batch) (scores : list (list scalar)) (n : Z) :
  valid_percentage (patch_percentage self) ->
  1 <= n < 2 ^ 53 ->
  scorer_forward (scorer self) line_drawing = Py.Ok scores ->
  Forall (fun r => Z.of_nat (length r) = n) scores ->
  exists x t,
    F64.int_mul n (patch_percentage self) = Py.Ok x /\
    F64.to_int x = Py.Ok t /\ 1 <= Z.max 1 t <= n /\
    get_selected_patch_indices self line_drawing = topk scores (Z.max 1 t).
Proof.
  intros Hp Hn Hsc Hrows.
  destruct (product_to_int n _ Hp ltac:(lia)) as (x & t & r & Hx & Ht & _ & Hb).
  exists x, t. repeat split; try assumption; try lia.
  unfold get_selected_patch_indices. rewrite Hsc. simpl.
  destruct scores as [| row scores].
  - destruct (product_to_int 0 _ Hp ltac:(lia)) as (x0 & t0 & r0 & Hx0 & Ht0 & _ & Hb0).
    simpl shape1. rewrite Hx0. simpl. rewrite Ht0. reflexivity.
  - inversion Hrows as [| ? ? Hrow _]; subst.
    simpl shape1. rewrite Hx. simpl. rewrite Ht. reflexivity.
Qed.

Lemma topk_rows (k n : Z) (scores : list (list scalar)) :
  score_total -> score_trans ->
  0 <= k <= n ->
  Forall (fun r => Z.of_nat (length r) = n) scores ->
  exists idx, topk scores k = Py.Ok idx /\ Forall2 (topk_of_row k) scores idx.
Proof.
  intros Htot Htr Hk Hrows. unfold topk. apply mapM_Forall2.
  eapply Forall_impl; [exact Hrows |]. intros row Hrow. simpl in Hrow.
  destruct (topk_row_spec k row Htot Htr ltac:(lia))
    as (ids & Hids & Hl & Hnd & Hb & Hdom).
  exists ids. split; [exact Hids |].
  unfold topk_of_row. repeat split; try assumption. lia.
Qed.

Lemma topk_lengths (k n : Z) (scores : list (list scalar)) :
  0 <= k <= n ->
  Forall (fun r => Z.of_nat (length r) = n) scores ->
  exists idx, topk scores k = Py.Ok idx /\
              Forall2 (fun _ ids => Z.of_nat (length ids) = k) scores idx.
Proof.
  intros Hk Hrows. unfold topk. apply mapM_Forall2.
  eapply Forall_impl; [exact Hrows |]. intros row Hrow. simpl in Hrow.
  unfold topk_row.
  assert (E : (k <? 0) || (Z.of_nat (length row) <? k) = false).
  { apply orb_false_iff. split; apply Z.ltb_ge; lia. }
  rewrite E. eexists. split; [reflexivity |].
  rewrite length_take, rank_desc_length. lia.
Qed.

(** C2 (amended). For a percentage in (0, 1] and a patch count [N]
    that binary64 holds exactly, the number of selected patches is
    [max(1, int(N * patch_percentage))]: the binary64 product
    truncated toward zero, not rounded. [get_num_selected_patches]
    returns it, [get_selected_patch_indices] returns that many indices
    per row, it is at least 1 and at most [max(1, N)], and the rounded
    value of the specification is this value or one more. *)
Theorem num_selected_is_truncated_product (self : SelectiveMagnoViT) :
  valid_percentage (patch_percentage self) ->
  0 <= num_patches self < 2 ^ 53 ->
  exists x t r,
    F64.int_mul (num_patches self) (patch_percentage self) = Py.Ok x /\
    F64.to_int x = Py.Ok t /\ F64.py_round x = Py.Ok r /\
    get_num_selected_patches self = Py.Ok (Z.max 1 t) /\
    1 <= Z.max 1 t <= Z.max 1 (num_patches self) /\
    spec_num_selected (num_patches self) (patch_percentage self)
      = Py.Ok (Z.max 1 r) /\
    Z.max 1 t <= Z.max 1 r <= Z.max 1 t + 1 /\
    forall line_drawing scores,
      1 <= num_patches self ->
      scorer_forward (scorer self) line_drawing = Py.Ok scores ->
      Forall (fun row => Z.of_nat (length row) = num_patches self) scores ->
      exists idx,
        get_selected_patch_indices self line_drawing = Py.Ok idx /\
        Forall2 (fun _ ids => Z.of_nat (length ids) = Z.max 1 t) scores idx.
Proof.
  intros Hp Hn.
  destruct (product_to_int _ _ Hp Hn) as (x & t & r & Hx & Ht & Hr & Hb).
  exists x, t, r. repeat split; try assumption; try lia.
  - unfold get_num_selected_patches. rewrite Hx. simpl. rewrite Ht. reflexivity.
  - unfold spec_num_selected. rewrite Hx. simpl. rewrite Hr. reflexivity.
  - intros line_drawing scores Hn1 Hsc Hrows.
    assert (Hn' : 1 <= num_patches self < 2 ^ 53) by lia.
    destruct (selected_indices_unfold self line_drawing scores _ Hp
                Hn' Hsc Hrows) as (x' & t' & Hx' & Ht' & Hk & ->).
    assert (x' = x) by congruence. subst x'.
    assert (t' = t) by congruence. subst t'.
    apply (topk_lengths _ (num_patches self)); [lia | exact Hrows].
Qed.

(** C6. For a model with [g * g] patches and a line drawing that the
    scorer maps to scores of shape [(B, g * g)],
    [get_patch_importance_map] returns a map of shape [(B, 1, g, g)],
    and flattening it back to [(B, num_patches)] gives exactly the
    scorer's output. *)
Theorem importance_map_roundtrip (self : SelectiveMagnoViT)
    (line_drawing : image_batch) (scores : list (list scalar)) (g : Z) :
  1 <= g -> g * g < 2 ^ 53 ->
  num_patches self = g * g ->
  scorer_forward (scorer self) line_drawing = Py.Ok scores ->
  Forall (fun row => length row = Z.to_nat (num_patches self)) scores ->
  exists m,
    get_patch_importance_map self line_drawing = Py.Ok m /\
    length m = length scores /\
    Forall (square_image (Z.to_nat g)) m /\
    flatten_map m (num_patches self) = scores.
Proof.
  intros Hg Hgg HN Hsc Hrows.
  unfold get_patch_importance_map. rewrite Hsc, HN. simpl.
  destruct (F64Facts.int_pow_half_square g ltac:(lia) Hgg) as (r & -> & Hr).
  simpl. rewrite Hr. simpl.
  rewrite HN in Hrows. apply view_roundtrip; assumption.
Qed.

(** C7. With [k = max(1, int(N * patch_percentage))] for scores of
    shape [(B, N)], [get_selected_patch_indices] returns for every row
    [k] distinct patch indices chosen by raw score alone: no patch
    left out has a raw score above that of a patch returned. *)
Theorem selected_indices_are_topk_by_raw_score (self : SelectiveMagnoViT)
    (line_drawing : image_batch) (scores : list (list scalar)) (n : Z) :
  score_total -> score_trans ->
  valid_percentage (patch_percentage self) ->
  1 <= n < 2 ^ 53 ->
  scorer_forward (scorer self) line_drawing = Py.Ok scores ->
  Forall (fun row => Z.of_nat (length row) = n) scores ->
  exists x t idx,
    F64.int_mul n (patch_percentage self) = Py.Ok x /\
    F64.to_int x = Py.Ok t /\
    get_selected_patch_indices self line_drawing = Py.Ok idx /\
    Forall2 (topk_of_row (Z.max 1 t)) scores idx.
Proof.
  intros Htot Htr Hp Hn Hsc Hrows.
  destruct (selected_indices_unfold self line_drawing scores n Hp Hn Hsc Hrows)
    as (x & t & Hx & Ht & Hk & ->).
  destruct (topk_rows (Z.max 1 t) n scores Htot Htr ltac:(lia) Hrows)
    as (idx & Hidx & HF).
  exists x, t, idx. auto.
Qed.

End Accessors.

(** ** The constructor *)

Section Constructor.
Context `{Timm} `{!Collaborators}.

(** Split a successful [x ← r; k x] into the value of [r] and the
    rest. *)
Tactic Notation "bind_inv" hyp(H) "as" ident(x) ident(Hx) :=
  apply bind_ok in H; destruct H as (x & Hx & H).

(** Once both checks pass, the constructor is [construct]. *)
Lemma init_after_validation (a : init_args) :
  in_range (arg_patch_percentage a) = true ->
  arg_patch_size a <> 0 ->
  arg_img_size a mod arg_patch_size a = 0 ->
  __init__ a = construct a.
Proof.
  intros Hr Hps Hmod. unfold __init__, py_mod.
  unfold in_range in Hr. rewrite Hr. simpl negb. cbv iota.
  destruct (Z.eqb_spec (arg_patch_size a) 0) as [E | _]; [contradiction |].
  simpl. rewrite Hmod. simpl. reflexivity.
Qed.

Lemma construct_ok_inv (a : init_args) (self : SelectiveMagnoViT) :
  construct a = Py.Ok self ->
  exists vit0 d pe pos head,
    create_model (arg_vit_model_name a) (arg_pretrained a) = Py.Ok vit0 /\
    resolve_embed_dim a vit0 = Py.Ok d /\
    PatchEmbed_init (arg_img_size a) (arg_patch_size a) 3 d = Py.Ok pe /\
    zeros_trunc_normal_ (pe_num_patches pe + 1) d = Py.Ok pos /\
    Linear d (arg_num_classes a) = Py.Ok head /\
    self = built a vit0 d pe pos head.
Proof.
  intros Hc. unfold construct in Hc.
  bind_inv Hc as vit0 Hb1. bind_inv Hc as d Hb2. bind_inv Hc as pe Hb3.
  bind_inv Hc as pos Hb4. bind_inv Hc as head Hb5.
  injection Hc as <-. exists vit0, d, pe, pos, head. auto 10.
Qed.

Lemma construct_ok (a : init_args) (vit0 : gmap string value) (d : Z)
    (pe : PatchEmbed) (pos : list vec)
    (head : list vec -> Py.result (list logit_row)) :
  create_model (arg_vit_model_name a) (arg_pretrained a) = Py.Ok vit0 ->
  resolve_embed_dim a vit0 = Py.Ok d ->
  PatchEmbed_init (arg_img_size a) (arg_patch_size a) 3 d = Py.Ok pe ->
  zeros_trunc_normal_ (pe_num_patches pe + 1) d = Py.Ok pos ->
  Linear d (arg_num_classes a) = Py.Ok head ->
  construct a = Py.Ok (built a vit0 d pe pos head).
Proof.
  intros Hb1 Hb2 Hb3 Hb4 Hb5. unfold construct.
  rewrite Hb1. simpl. rewrite Hb2. simpl. rewrite Hb3. simpl.
  rewrite Hb4. simpl. rewrite Hb5. reflexivity.
Qed.

Lemma init_ok_inv (a : init_args) (self : SelectiveMagnoViT) :
  __init__ a = Py.Ok self ->
  in_range (arg_patch_percentage a) = true /\
  arg_patch_size a <> 0 /\
  arg_img_size a mod arg_patch_size a = 0 /\
  construct a = Py.Ok self.
Proof.
  intros Hinit.
  assert (Hr : in_range (arg_patch_percentage a) = true).
  { unfold __init__ in Hinit. unfold in_range.
    destruct (F64.ltb F64.zero (arg_patch_percentage a)
              && F64.leb (arg_patch_percentage a) F64.one); [reflexivity |].
    discriminate. }
  assert (Hps : arg_patch_size a <> 0).
  { intros E. unfold __init__, py_mod in Hinit. unfold in_range in Hr.
    rewrite Hr, E in Hinit. discriminate. }
  assert (Hmod : arg_img_size a mod arg_patch_size a = 0).
  { unfold __init__, py_mod in Hinit. unfold in_range in Hr. rewrite Hr in Hinit.
    destruct (Z.eqb_spec (arg_patch_size a) 0) as [E | _]; [contradiction |].
    simpl in Hinit.
    destruct (Z.eqb_spec (arg_img_size a mod arg_patch_size a) 0) as [E | _];
      [exact E | discriminate]. }
  rewrite (init_after_validation a Hr Hps Hmod) in Hinit. auto.
Qed.

(** C4 (amended). For a non-zero [patch_size], the constructor raises
    [ValueError] (the specification's ConfigurationError) when
    [patch_percentage] lies outside (0, 1] or [img_size % patch_size]
    is not 0; otherwise its validation raises nothing: the constructor
    goes on to load the backbone and build its components, succeeds
    when [timm] and [torch] build them, and propagates their exception
    when they do not. *)
Theorem init_validation (a : init_args) :
  arg_patch_size a <> 0 ->
  ((in_range (arg_patch_percentage a) = false \/
    arg_img_size a mod arg_patch_size a <> 0) /\
   __init__ a = Py.Raise Py.ValueError)
  \/
  (in_range (arg_patch_percentage a) = true /\
   arg_img_size a mod arg_patch_size a = 0 /\
   __init__ a = construct a /\
   forall vit0 d pe pos head,
     create_model (arg_vit_model_name a) (arg_pretrained a) = Py.Ok vit0 ->
     resolve_embed_dim a vit0 = Py.Ok d ->
     PatchEmbed_init (arg_img_size a) (arg_patch_size a) 3 d = Py.Ok pe ->
     zeros_trunc_normal_ (pe_num_patches pe + 1) d = Py.Ok pos ->
     Linear d (arg_num_classes a) = Py.Ok head ->
     __init__ a = Py.Ok (built a vit0 d pe pos head)).
Proof.
  intros Hps.
  destruct (in_range (arg_patch_percentage a)) eqn:Hr.
  - destruct (Z.eq_dec (arg_img_size a mod arg_patch_size a) 0) as [Hmod | Hmod].
    + right. split; [reflexivity |]. split; [exact Hmod |].
      pose proof (init_after_validation a Hr Hps Hmod) as Hinit.
      split; [exact Hinit |].
      intros vit0 d pe pos head Hb1 Hb2 Hb3 Hb4 Hb5.
      rewrite Hinit. apply construct_ok; assumption.
    + left. split; [right; exact Hmod |].
      unfold __init__, py_mod. unfold in_range in Hr. rewrite Hr. simpl negb.
      cbv iota.
      destruct (Z.eqb_spec (arg_patch_size a) 0) as [E | _]; [contradiction |].
      simpl.
      destruct (Z.eqb_spec (arg_img_size a mod arg_patch_size a) 0) as [E | _];
        [contradiction | reflexivity].
  - left. split; [left; reflexivity |].
    unfold __init__. unfold in_range in Hr. rewrite Hr. reflexivity.
Qed.

(** The constructor divides by [patch_size] before it can report it. *)
Lemma init_zero_patch_size (a : init_args) :
  in_range (arg_patch_percentage a) = true ->
  arg_patch_size a = 0 ->
  __init__ a = Py.Raise Py.ZeroDivisionError.
Proof.
  intros Hr E. unfold __init__, py_mod. unfold in_range in Hr.
  rewrite Hr, E. reflexivity.
Qed.

(** C9. A successful construction replaces exactly three attributes of
    the backbone that [timm.create_model] returned: [patch_embed] by a
    fresh [PatchEmbed] for the configured sizes, [pos_embed] by a fresh
    truncated-normal table of [(img_size / patch_size)^2 + 1] rows,
    and [head] by a fresh linear layer with [num_classes] outputs.
    Every other attribute keeps the value it had in the pretrained
    backbone. *)
Theorem init_replaces_three_components (a : init_args)
    (self : SelectiveMagnoViT) (vit0 : gmap string value) :
  __init__ a = Py.Ok self ->
  create_model (arg_vit_model_name a) (arg_pretrained a) = Py.Ok vit0 ->
  let side := arg_img_size a / arg_patch_size a in
  (exists pe,
      PatchEmbed_init (arg_img_size a) (arg_patch_size a) 3 (embed_dim self)
        = Py.Ok pe /\
      vit self !! "patch_embed" = Some (VPatchEmbed pe)) /\
  (exists rows,
      zeros_trunc_normal_ (side * side + 1) (embed_dim self) = Py.Ok rows /\
      vit self !! "pos_embed" = Some (VTensor rows) /\
      Z.of_nat (length rows) = side * side + 1) /\
  (exists head,
      Linear (embed_dim self) (arg_num_classes a) = Py.Ok head /\
      vit self !! "head" = Some (VLinear head)) /\
  forall name,
    name <> "patch_embed" -> name <> "pos_embed" -> name <> "head" ->
    vit self !! name = vit0 !! name.
Proof.
  intros Hinit Hc side.
  destruct (init_ok_inv a self Hinit) as (_ & _ & _ & Hcon).
  destruct (construct_ok_inv a self Hcon)
    as (vit0' & d & pe & pos & head & Hc' & _ & Hpe & Hpos & Hhead & ->).
  assert (vit0' = vit0) by congruence. subst vit0'.
  destruct (PatchEmbed_init_fields _ _ _ _ _ Hpe) as (_ & _ & Hnum).
  fold side in Hnum. rewrite Hnum in Hpos.
  unfold built. simpl. repeat split.
  - exists pe. split; [exact Hpe |].
    rewrite lookup_insert_ne by discriminate.
    rewrite lookup_insert_ne by discriminate.
    apply lookup_insert_eq.
  - exists pos. split; [exact Hpos |]. split.
    + rewrite lookup_insert_ne by discriminate. apply lookup_insert_eq.
    + eapply zeros_trunc_normal_length, Hpos.
  - exists head. split; [exact Hhead | apply lookup_insert_eq].
  - intros name Hn1 Hn2 Hn3.
    rewrite !lookup_insert_ne by congruence. reflexivity.
Qed.

(** C10. The selector is built with the model's own
    [patch_percentage]; with [selector_config] equal to [None], or a
    dict without the key, [threshold] defaults to 0.3 and
    [gaussian_std] to 0.25. *)
Theorem selector_defaults (a : init_args) (self : SelectiveMagnoViT) :
  __init__ a = Py.Ok self ->
  sel_patch_percentage (selector self) = arg_patch_percentage a /\
  sel_patch_percentage (selector self) = patch_percentage self /\
  ((arg_selector_config a = None \/
    exists cfg, arg_selector_config a = Some cfg /\ cfg !! "threshold" = None) ->
   sel_threshold (selector self) = F64.lit 3 10) /\
  ((arg_selector_config a = None \/
    exists cfg, arg_selector_config a = Some cfg /\ cfg !! "gaussian_std" = None) ->
   sel_gaussian_std (selector self) = F64.lit 25 100).
Proof.
  intros Hinit.
  destruct (init_ok_inv a self Hinit) as (_ & _ & _ & Hcon).
  destruct (construct_ok_inv a self Hcon)
    as (vit0 & d & pe & pos & head & _ & _ & _ & _ & _ & ->).
  unfold built. simpl. repeat split.
  - intros [-> | (cfg & -> & Hk)]; simpl; [reflexivity |].
    rewrite Hk. reflexivity.
  - intros [-> | (cfg & -> & Hk)]; simpl; [reflexivity |].
    rewrite Hk. reflexivity.
Qed.

End Constructor.

(** ** The selector, as specified *)

Section Selector.
Context `{Torch} `{!Smoothing}.

(** C1. For every batch of [B] elements with [N >= 1] patches each,
    whatever the scores (all zero included), the selector raises
    nothing and returns for every batch element exactly
    [k = max(1, round(N * patch_percentage))] rows, the same [k] for
    all of them, with [1 <= k <= N]. *)
Theorem selector_returns_exactly_k (st : SelectorState)
    (all_patches : list (list vec)) (pos_embed : list vec)
    (patch_scores : list (list scalar)) (line_drawing : image_batch) (n : nat) :
  valid_percentage (sel_patch_percentage st) ->
  (1 <= n)%nat -> Z.of_nat n < 2 ^ 53 ->
  length all_patches = length patch_scores ->
  Forall (fun e => length e = n) all_patches ->
  Forall (fun s => length s = n) patch_scores ->
  length pos_embed = S n ->
  exists k out,
    spec_num_selected (Z.of_nat n) (sel_patch_percentage st) = Py.Ok k /\
    1 <= k <= Z.of_nat n /\
    spec_selector_forward st all_patches pos_embed patch_scores line_drawing
      = Py.Ok out /\
    length out = length all_patches /\
    Forall (fun rows => Z.of_nat (length rows) = k) out.
Proof.
  intros Hp Hn1 Hn53 Hlen Hall Hsc Hpos.
  destruct (selector_forward_rows st all_patches pos_embed patch_scores
              line_drawing n Hp Hn1 Hn53 Hlen Hall Hsc Hpos)
    as (k & out & Hk & Hkb & Hout & HF).
  exists k, out. repeat split; try assumption; try lia.
  - apply Forall2_length in HF. rewrite <- HF.
    rewrite length_zip_with, length_seq, length_zip_with. lia.
  - clear -HF Hkb. induction HF as [| item o items out' Hrow _ IH]; constructor.
    + destruct Hrow as (Hl & _ & _ & Hg).
      apply Forall2_length in Hg. lia.
    + exact IH.
Qed.

(** C8. For every batch element the selected patch indices are
    strictly increasing (hence unique) original indices below [N];
    output row [j] is the embedding of the [j]-th selected index plus
    the positional embedding at that index plus one, so the CLS slot
    at position 0 is never used. *)
Theorem selected_rows_ascending_with_positions (st : SelectorState)
    (all_patches : list (list vec)) (pos_embed : list vec)
    (patch_scores : list (list scalar)) (line_drawing : image_batch) (n : nat) :
  valid_percentage (sel_patch_percentage st) ->
  (1 <= n)%nat -> Z.of_nat n < 2 ^ 53 ->
  length all_patches = length patch_scores ->
  Forall (fun e => length e = n) all_patches ->
  Forall (fun s => length s = n) patch_scores ->
  length pos_embed = S n ->
  exists k out,
    spec_selector_forward st all_patches pos_embed patch_scores line_drawing
      = Py.Ok out /\
    Forall2
      (fun item rows =>
         let idx := spec_select_indices st (Z.to_nat k) line_drawing
                      item.1 item.2.2 in
         StronglySorted lt idx /\ NoDup idx /\
         (forall i, i ∈ idx -> (i < n)%nat) /\
         Forall2 (fun i v =>
                    exists e p, item.2.1 !! i = Some e /\
                                pos_embed !! (i + 1)%nat = Some p /\
                                (i + 1 <> 0)%nat /\ v = vadd e p)
                 idx rows)
      (zip (seq 0 (length all_patches)) (zip all_patches patch_scores)) out.
Proof.
  intros Hp Hn1 Hn53 Hlen Hall Hsc Hpos.
  destruct (selector_forward_rows st all_patches pos_embed patch_scores
              line_drawing n Hp Hn1 Hn53 Hlen Hall Hsc Hpos)
    as (k & out & Hk & Hkb & Hout & HF).
  exists k, out. split; [exact Hout |].
  eapply Forall2_impl_elem; [exact HF |].
  intros [b [emb scores]] rows Hitem (Hl & Hs & Hb & Hg). simpl in *.
  assert (Hemb : length emb = n).
  { apply elem_of_zip_r, elem_of_zip_l in Hitem.
    rewrite Forall_forall in Hall. apply Hall, Hitem. }
  repeat split.
  - exact Hs.
  - clear -Hs. induction Hs as [| i l _ IH Hi]; constructor; [| exact IH].
    intros Hin. rewrite Forall_forall in Hi. specialize (Hi i Hin). lia.
  - intros i Hi. rewrite <- Hemb. apply Hb, Hi.
  - eapply Forall2_impl; [exact Hg |].
    intros i v (e & p & He & Hpp & ->). exists e, p.
    rewrite Nat.add_1_r. repeat split; try assumption. lia.
Qed.

End Selector.

(** ** What a constructed model satisfies *)

Section Constructed.
Context `{Timm} `{!Collaborators}.

(** A model the constructor returned is [built] from components that
    [timm] and [torch] made, and its arguments passed both checks. *)
Lemma init_built (a : init_args) (self : SelectiveMagnoViT) :
  __init__ a = Py.Ok self ->
  exists vit0 d pe pos head,
    self = built a vit0 d pe pos head /\
    in_range (arg_patch_percentage a) = true /\
    arg_patch_size a <> 0 /\
    arg_img_size a mod arg_patch_size a = 0 /\
    create_model (arg_vit_model_name a) (arg_pretrained a) = Py.Ok vit0 /\
    resolve_embed_dim a vit0 = Py.Ok d /\
    pe_img_size pe = arg_img_size a /\
    pe_num_patches pe =
      (arg_img_size a / arg_patch_size a) * (arg_img_size a / arg_patch_size a) /\
    Z.of_nat (length pos) = pe_num_patches pe + 1.
Proof.
  intros Hinit.
  destruct (init_ok_inv a self Hinit) as (Hr & Hps & Hmod & Hcon).
  destruct (construct_ok_inv a self Hcon)
    as (vit0 & d & pe & pos & head & Hvit & Hd & Hpe & Hpos & _ & ->).
  destruct (PatchEmbed_init_fields _ _ _ _ _ Hpe) as (Himg & _ & Hnum).
  exists vit0, d, pe, pos, head.
  repeat split; try assumption.
  eapply zeros_trunc_normal_length, Hpos.
Qed.

(** A percentage that passed the range check is a positive finite
    number. *)
Lemma in_range_finite (p : F64.float) :
  in_range p = true -> exists m e, p = S754_finite false m e.
Proof.
  unfold in_range. intros Hr. apply andb_prop in Hr. destruct Hr as [Hlt Hle].
  destruct p as [[|] | [|] | | [|] m e]; try discriminate.
  exists m, e. reflexivity.
Qed.

(** X3. The patch grid of a constructed model tiles the image exactly:
    [img_size] is a whole multiple of the non-zero [patch_size], the
    number of patches is the square of their quotient, the model has
    no patch only when [img_size] is 0, and the scorer cuts the line
    drawing into cells of the same [patch_size]. *)
Theorem constructed_grid_tiles_image (a : init_args) (self : SelectiveMagnoViT) :
  __init__ a = Py.Ok self ->
  let g := img_size self / patch_size self in
  patch_size self <> 0 /\
  img_size self = g * patch_size self /\
  num_patches self = g * g /\
  num_patches self * (patch_size self * patch_size self)
    = img_size self * img_size self /\
  0 <= num_patches self /\
  (num_patches self = 0 <-> img_size self = 0) /\
  scorer_patch_size (scorer self) = patch_size self.
Proof.
  intros Hinit.
  destruct (init_built a self Hinit)
    as (vit0 & d & pe & pos & head & -> & _ & Hps & Hmod & _ & _ & _ & Hnum & _).
  unfold built. simpl.
  set (img := arg_img_size a) in *. set (ps := arg_patch_size a) in *.
  pose proof (Z.div_mod img ps Hps) as Hdm. rewrite Hmod, Z.add_0_r in Hdm.
  set (g := img / ps) in *.
  assert (Himg : img = g * ps) by lia.
  repeat split.
  - exact Hps.
  - exact Himg.
  - exact Hnum.
  - rewrite Hnum, Himg. ring.
  - rewrite Hnum. apply Z.square_nonneg.
  - rewrite Hnum. intros Hz. apply Z.mul_eq_0 in Hz.
    assert (g = 0) by lia. lia.
  - rewrite Hnum. intros Hz.
    assert (Hg : g * ps = 0) by lia.
    apply Z.mul_eq_0 in Hg. destruct Hg as [Hg | Hg]; [| contradiction].
    rewrite Hg. reflexivity.
Qed.

(** X4. The range check on [patch_percentage] comes first and rejects
    everything that is not a positive finite number: NaN, zero of
    either sign, negative numbers and infinities raise [ValueError]
    whatever the other arguments are, a zero [patch_size] included. *)
Theorem init_rejects_percentage_first (a : init_args) :
  (forall m e, arg_patch_percentage a <> S754_finite false m e) ->
  __init__ a = Py.Raise Py.ValueError.
Proof.
  intros Hp. unfold __init__.
  destruct (F64.ltb F64.zero (arg_patch_percentage a)
            && F64.leb (arg_patch_percentage a) F64.one) eqn:Hr; [| reflexivity].
  destruct (in_range_finite _ Hr) as (m & e & E).
  exfalso. exact (Hp m e E).
Qed.

(** X5. The constructor reads [selector_config] at the keys
    [threshold] and [gaussian_std] and nowhere else: two dicts that
    agree at these two keys give the same result (a misspelt key is
    ignored without a word, an empty dict is as good as [None]), and a
    value given at one of them reaches the selector unchanged and
    unvalidated. *)
Theorem selector_config_read_at_two_keys (a : init_args)
    (c c' : option (gmap string F64.float)) :
  default ∅ c !! "threshold" = default ∅ c' !! "threshold" ->
  default ∅ c !! "gaussian_std" = default ∅ c' !! "gaussian_std" ->
  __init__ (with_selector_config a c) = __init__ (with_selector_config a c') /\
  forall self cfg,
    c = Some cfg ->
    __init__ (with_selector_config a c) = Py.Ok self ->
    (forall x, cfg !! "threshold" = Some x -> sel_threshold (selector self) = x) /\
    (forall x, cfg !! "gaussian_std" = Some x ->
               sel_gaussian_std (selector self) = x).
Proof.
  intros Ht Hg. split.
  - unfold __init__, with_selector_config. simpl. rewrite Ht, Hg. reflexivity.
  - intros self cfg -> Hinit.
    destruct (init_built _ self Hinit)
      as (vit0 & d & pe & pos & head & -> & _).
    unfold built. simpl.
    split; intros x Hx; rewrite Hx; reflexivity.
Qed.

End Constructed.

(** ** The model's report *)

Lemma foldl_add_acc (l : list Z) (acc : Z) :
  foldl Z.add acc l = acc + py_sum l.
Proof.
  unfold py_sum. revert acc.
  induction l as [| x l IH]; intros acc; simpl; [lia |].
  rewrite (IH (acc + x)), (IH (0 + x)). lia.
Qed.

Lemma py_sum_cons (x : Z) (l : list Z) : py_sum (x :: l) = x + py_sum l.
Proof. unfold py_sum at 1. simpl. apply foldl_add_acc. Qed.

(** The elements of the parameters that do, or do not, require a
    gradient add up to all elements. *)
Lemma py_sum_numel_split (ps : list nn_Parameter) :
  let count := fun l => py_sum (map (fun p => Z.of_N (numel p)) l) in
  0 <= count (List.filter requires_grad ps) /\
  0 <= count (List.filter (fun p => negb (requires_grad p)) ps) /\
  count ps = count (List.filter requires_grad ps)
             + count (List.filter (fun p => negb (requires_grad p)) ps).
Proof.
  simpl. induction ps as [| p ps IH]; [unfold py_sum; simpl; lia |].
  simpl. destruct (requires_grad p); simpl; rewrite !py_sum_cons; lia.
Qed.

Lemma py_sum_numel_zero (ps : list nn_Parameter) :
  py_sum (map (fun p => Z.of_N (numel p)) ps) = 0 <->
  Forall (fun p => numel p = 0%N) ps.
Proof.
  induction ps as [| p ps IH]; simpl.
  - split; [constructor | reflexivity].
  - rewrite py_sum_cons.
    assert (0 <= py_sum (map (fun p => Z.of_N (numel p)) ps)).
    { destruct (py_sum_numel_split ps) as (H1 & H2 & H3). simpl in *. lia. }
    split.
    + intros Hs. constructor; [lia | apply IH; lia].
    + intros Hall. inversion Hall as [| ? ? Hp Hps]; subst.
      apply IH in Hps. lia.
Qed.

Lemma elem_of_List_filter {A : Type} (f : A -> bool) (l : list A) (x : A) :
  x ∈ List.filter f l <-> f x = true /\ x ∈ l.
Proof.
  rewrite !list_elem_of_In, filter_In. tauto.
Qed.

Section Report.
Context `{Timm} `{!Collaborators} `{!NNModule}.

(** X1. On a model the constructor returned, [get_model_info] succeeds
    and echoes the constructor's arguments; [num_patches] is
    [(img_size // patch_size) ** 2]; [selected_patches] is the value of
    [get_num_selected_patches], at least 1 and at most
    [max(1, num_patches)]; the dict has no key besides the eleven. *)
Theorem model_info_of_constructed (a : init_args) (self : SelectiveMagnoViT) :
  __init__ a = Py.Ok self ->
  valid_binary F64.prec F64.emax (arg_patch_percentage a) = true ->
  let g := arg_img_size a / arg_patch_size a in
  g * g < 2 ^ 53 ->
  exists report k,
    get_model_info self = Py.Ok report /\
    get_num_selected_patches self = Py.Ok k /\
    1 <= k <= Z.max 1 (g * g) /\
    report !! "selected_patches" = Some (InfoInt k) /\
    report !! "num_patches" = Some (InfoInt (g * g)) /\
    report !! "model_name" = Some (InfoStr "SelectiveMagnoViT") /\
    report !! "vit_backbone" = Some (InfoStr (arg_vit_model_name a)) /\
    report !! "img_size" = Some (InfoInt (arg_img_size a)) /\
    report !! "patch_size" = Some (InfoInt (arg_patch_size a)) /\
    report !! "patch_percentage" = Some (InfoFloat (arg_patch_percentage a)) /\
    report !! "num_classes" = Some (InfoInt (arg_num_classes a)) /\
    report !! "embed_dim" = Some (InfoInt (embed_dim self)) /\
    (forall d, arg_embed_dim a = Some d -> embed_dim self = d) /\
    forall key, key ∉ info_keys -> report !! key = None.
Proof.
  intros Hinit Hv g Hg.
  destruct (init_built a self Hinit)
    as (vit0 & d & pe & pos & head & -> & Hr & _ & _ & _ & Hd & _ & Hnum & _).
  fold g in Hnum.
  assert (Hp : valid_percentage (arg_patch_percentage a)).
  { unfold in_range in Hr. apply andb_prop in Hr. destruct Hr. repeat split; assumption. }
  assert (HN : 0 <= pe_num_patches pe < 2 ^ 53).
  { rewrite Hnum. split; [apply Z.square_nonneg | exact Hg]. }
  destruct (product_to_int (pe_num_patches pe) _ Hp HN)
    as (x & t & r & Hx & Ht & _ & Hb).
  assert (Hk : get_num_selected_patches (built a vit0 d pe pos head)
               = Py.Ok (Z.max 1 t)).
  { unfold get_num_selected_patches, built. simpl.
    rewrite Hx. simpl. rewrite Ht. reflexivity. }
  eexists _, (Z.max 1 t). split.
  { unfold get_model_info. rewrite Hk. simpl. reflexivity. }
  split; [exact Hk |]. split; [rewrite <- Hnum; lia |].
  unfold built. simpl. rewrite Hnum.
  repeat split; try reflexivity.
  - intros d' Hd'. unfold resolve_embed_dim in Hd. rewrite Hd' in Hd. congruence.
  - intros key Hkey. unfold info_keys in Hkey.
    repeat (apply not_elem_of_cons in Hkey; destruct Hkey as [? Hkey]).
    rewrite !lookup_insert_ne by congruence. apply lookup_empty.
Qed.

(** X2. The two parameter counts of the report: [trainable_params]
    counts a part of what [total_params] counts, so it is never
    negative and never larger; the difference is the size of the
    frozen parameters, and the two agree exactly when every frozen
    parameter is empty. *)
Theorem model_info_parameter_counts (self : SelectiveMagnoViT)
    (report : gmap string info_value) :
  get_model_info self = Py.Ok report ->
  exists total trainable,
    report !! "total_params" = Some (InfoInt total) /\
    report !! "trainable_params" = Some (InfoInt trainable) /\
    0 <= trainable <= total /\
    total - trainable =
      py_sum (map (fun p => Z.of_N (numel p))
                  (List.filter (fun p => negb (requires_grad p)) (parameters self))) /\
    (trainable = total <->
     Forall (fun p => requires_grad p = false -> numel p = 0%N) (parameters self)).
Proof.
  intros Hinfo. unfold get_model_info in Hinfo.
  apply bind_ok in Hinfo. destruct Hinfo as (k & _ & Hinfo).
  injection Hinfo as <-.
  destruct (py_sum_numel_split (parameters self)) as (Ht & Hf & Hsum).
  simpl in Ht, Hf, Hsum.
  eexists _, _. split; [reflexivity |]. split; [reflexivity |].
  split; [lia |]. split; [lia |].
  rewrite Hsum. split.
  - intros E.
    assert (Hz : py_sum (map (fun p => Z.of_N (numel p))
                   (List.filter (fun p => negb (requires_grad p)) (parameters self))) = 0)
      by lia.
    apply py_sum_numel_zero in Hz.
    rewrite Forall_forall in Hz. apply Forall_forall. intros p Hp Hg.
    apply Hz. apply elem_of_List_filter. split; [| exact Hp].
    rewrite Hg. reflexivity.
  - intros Hall.
    assert (Hz : py_sum (map (fun p => Z.of_N (numel p))
                   (List.filter (fun p => negb (requires_grad p)) (parameters self))) = 0).
    { apply py_sum_numel_zero. apply Forall_forall. intros p Hp.
      apply elem_of_List_filter in Hp. destruct Hp as [Hg Hp].
      rewrite Forall_forall in Hall. apply Hall; [exact Hp |].
      destruct (requires_grad p); [discriminate | reflexivity]. }
    lia.
Qed.

End Report.

(** ** More on the two diagnostics *)

Lemma StronglySorted_lookup {A : Type} (R : A -> A -> Prop) (l : list A)
    (i j : nat) (x y : A) :
  StronglySorted R l -> (i < j)%nat ->
  l !! i = Some x -> l !! j = Some y -> R x y.
Proof.
  intros Hs. revert i j. induction Hs as [| z l Hs IH Hz]; intros i j Hij Hi Hj.
  - discriminate.
  - destruct j as [| j]; [lia |]. simpl in Hj.
    destruct i as [| i]; simpl in Hi.
    + injection Hi as <-. rewrite Forall_forall in Hz. apply Hz.
      eapply list_elem_of_lookup_2, Hj.
    + apply (IH i j); [lia | assumption | assumption].
Qed.

Section RankFacts.
Context `{Torch}.

(** Position [i] of the ranking holds an index together with its own
    score. *)
Lemma rank_desc_lookup (row : list scalar) (i a : nat) (sa : scalar) :
  rank_desc row !! i = Some a -> row !! a = Some sa ->
  sort_desc (enumerate row) !! i = Some (a, sa).
Proof.
  intros Hi Ha. unfold rank_desc in Hi.
  rewrite list_lookup_fmap in Hi.
  destruct (sort_desc (enumerate row) !! i) as [[a' s'] |] eqn:E; [| discriminate].
  simpl in Hi. injection Hi as ->.
  assert (Hin : (a, s') ∈ enumerate row).
  { rewrite <- (sort_desc_perm (enumerate row)). eapply list_elem_of_lookup_2, E. }
  apply enumerate_elem in Hin. congruence.
Qed.

Lemma topk_row_sorted (k : Z) (row : list scalar) :
  score_total -> score_trans ->
  1 <= k <= Z.of_nat (length row) ->
  exists ids,
    topk_row k row = Py.Ok ids /\
    by_descending_score row ids /\ starts_at_maximum row ids.
Proof.
  intros Htot Htr Hk. unfold topk_row.
  assert (E : (k <? 0) || (Z.of_nat (length row) <? k) = false).
  { apply orb_false_iff. split; apply Z.ltb_ge; lia. }
  rewrite E. eexists. split; [reflexivity |].
  pose proof (sort_desc_sorted (enumerate row) Htot Htr) as Hs.
  split.
  - intros i j a b sa sb Hij Hi Hj Ha Hb.
    apply lookup_take_Some in Hi. destruct Hi as [Hi _].
    apply lookup_take_Some in Hj. destruct Hj as [Hj _].
    pose proof (rank_desc_lookup row i a sa Hi Ha) as Hi'.
    pose proof (rank_desc_lookup row j b sb Hj Hb) as Hj'.
    exact (StronglySorted_lookup desc _ i j _ _ Hs Hij Hi' Hj').
  - assert (Hlen : (0 < length (rank_desc row))%nat)
      by (rewrite rank_desc_length; lia).
    destruct (lookup_lt_is_Some_2 (rank_desc row) 0 Hlen) as [a Ha].
    assert (Hbound : (a < length row)%nat).
    { apply rank_desc_bound. eapply list_elem_of_lookup_2, Ha. }
    destruct (lookup_lt_is_Some_2 row a Hbound) as [sa Hsa].
    exists a, sa. split.
    { apply lookup_take_Some. split; [exact Ha | lia]. }
    split; [exact Hsa |].
    intros j sj Hj.
    pose proof (rank_desc_lookup row 0 a sa Ha Hsa) as H0.
    assert (Hin : (j, sj) ∈ sort_desc (enumerate row)).
    { rewrite (sort_desc_perm (enumerate row)). apply enumerate_elem, Hj. }
    apply list_elem_of_lookup_1 in Hin. destruct Hin as [p Hp].
    destruct p as [| p].
    + assert (Epair : (j, sj) = (a, sa)) by congruence.
      injection Epair as -> ->. destruct (Htot sa sa); assumption.
    + exact (StronglySorted_lookup desc _ 0 (S p) _ _ Hs ltac:(lia) H0 Hp).
Qed.

End RankFacts.

Section MoreAccessors.
Context `{Timm} `{!Collaborators}.

(** X7. [get_selected_patch_indices] lists the indices of every row
    from the highest raw score down ([torch.topk] sorts its result),
    so the first index of a row is a patch of maximal score. *)
Theorem selected_indices_listed_by_score (self : SelectiveMagnoViT)
    (line_drawing : image_batch) (scores : list (list scalar)) (n : Z) :
  score_total -> score_trans ->
  valid_percentage (patch_percentage self) ->
  1 <= n < 2 ^ 53 ->
  scorer_forward (scorer self) line_drawing = Py.Ok scores ->
  Forall (fun row => Z.of_nat (length row) = n) scores ->
  exists idx,
    get_selected_patch_indices self line_drawing = Py.Ok idx /\
    Forall2 (fun row ids => by_descending_score row ids /\
                            starts_at_maximum row ids) scores idx.
Proof.
  intros Htot Htr Hp Hn Hsc Hrows.
  destruct (selected_indices_unfold self line_drawing scores n Hp Hn Hsc Hrows)
    as (x & t & Hx & Ht & Hk & ->).
  unfold topk. apply mapM_Forall2.
  eapply Forall_impl; [exact Hrows |]. intros row Hrow. simpl in Hrow.
  apply topk_row_sorted; [assumption | assumption | lia].
Qed.

End MoreAccessors.

(** ** The whole grid: [patch_percentage = 1.0] *)

Section FullPercentage.
Context `{Timm} `{!Collaborators}.

(** X8. With [patch_percentage = 1.0] nothing is left out:
    [get_num_selected_patches] returns [num_patches], and
    [get_selected_patch_indices] returns for every row all the indices
    [0 .. N-1], each once. *)
Theorem full_percentage_selects_every_patch (self : SelectiveMagnoViT) :
  patch_percentage self = F64.one ->
  (1 <= num_patches self < 2 ^ 53 ->
   get_num_selected_patches self = Py.Ok (num_patches self)) /\
  forall line_drawing scores n,
    1 <= n < 2 ^ 53 ->
    scorer_forward (scorer self) line_drawing = Py.Ok scores ->
    Forall (fun row => Z.of_nat (length row) = n) scores ->
    exists idx,
      get_selected_patch_indices self line_drawing = Py.Ok idx /\
      Forall2 (fun row ids => ids ≡ₚ seq 0 (length row)) scores idx.
Proof.
  intros Hp. split.
  - intros HN. unfold get_num_selected_patches. rewrite Hp.
    destruct (F64OrderFacts.int_mul_one (num_patches self) ltac:(lia)) as (x & -> & Hx).
    simpl. rewrite Hx. simpl. f_equal. lia.
  - intros line_drawing scores n Hn Hsc Hrows.
    unfold get_selected_patch_indices. rewrite Hsc, Hp. simpl.
    assert (Hs1 : scores = [] \/ shape1 scores = n).
    { destruct scores as [| row scores']; [left; reflexivity | right].
      inversion Hrows; subst. reflexivity. }
    destruct Hs1 as [-> | Hs1].
    + exists []. split; [| constructor].
      simpl. reflexivity.
    + rewrite Hs1.
      destruct (F64OrderFacts.int_mul_one n ltac:(lia)) as (x & -> & Hx).
      simpl. rewrite Hx. simpl.
      unfold topk. apply mapM_Forall2.
      eapply Forall_impl; [exact Hrows |]. intros row Hrow. simpl in Hrow.
      unfold topk_row.
      assert (E : (Z.max 1 n <? 0) || (Z.of_nat (length row) <? Z.max 1 n) = false).
      { apply orb_false_iff. split; apply Z.ltb_ge; lia. }
      rewrite E. eexists. split; [reflexivity |].
      rewrite take_ge by (rewrite rank_desc_length; lia).
      apply rank_desc_perm.
Qed.

End FullPercentage.

(** ** Regrouping into the importance map *)

Section RegroupFacts.
Context {A : Type}.

Lemma chunks_fuel_lookup (n : nat) :
  (1 <= n)%nat ->
  forall (j : nat) (l : list A) (fuel : nat),
    (j * n < length l)%nat -> (length l <= fuel)%nat ->
    chunks_fuel fuel n l !! j = Some (take n (drop (j * n) l)).
Proof.
  intros Hn. induction j as [| j IH]; intros l fuel Hj Hf.
  - destruct l as [| x l]; [simpl in Hj; lia |].
    destruct fuel as [| fuel]; [simpl in Hf; lia |]. reflexivity.
  - destruct l as [| x l]; [simpl in Hj; lia |].
    destruct fuel as [| fuel]; [simpl in Hf; lia |].
    change (chunks_fuel (S fuel) n (x :: l) !! S j)
      with (chunks_fuel fuel n (drop n (x :: l)) !! j).
    rewrite IH.
    + rewrite drop_drop. do 2 f_equal.
    + rewrite length_drop. simpl in Hj |- *. lia.
    + rewrite length_drop. simpl in Hf |- *. lia.
Qed.

Lemma chunks_lookup (n j : nat) (l : list A) :
  (1 <= n)%nat -> (j * n < length l)%nat ->
  chunks n l !! j = Some (take n (drop (j * n) l)).
Proof. intros Hn Hj. apply chunks_fuel_lookup; [exact Hn | exact Hj | lia]. Qed.

(** Element [i] of a list cut into rows of [s] is element [i mod s] of
    row [i / s]. *)
Lemma chunks_lookup_elem (s i : nat) (l : list A) (x : A) :
  (1 <= s)%nat -> l !! i = Some x ->
  exists r, chunks s l !! (i / s)%nat = Some r /\ r !! (i mod s)%nat = Some x.
Proof.
  intros Hs Hi.
  assert (Hlt : (i < length l)%nat) by (eapply lookup_lt_Some, Hi).
  pose proof (Nat.div_mod_eq i s) as Hdm.
  assert (Hmod : (i mod s < s)%nat) by (apply Nat.mod_upper_bound; lia).
  eexists. split.
  - apply chunks_lookup; [exact Hs | lia].
  - rewrite lookup_take_lt by exact Hmod. rewrite lookup_drop.
    replace (i / s * s + i mod s)%nat with i by lia. exact Hi.
Qed.

(** What [view(-1, 1, s, s)] does to any rows: it needs a number of
    elements that [s * s] divides, keeps their order, and returns as
    many images as fit. *)
Lemma view_regroups (rows : list (list A)) (g : Z) :
  1 <= g ->
  let total := length (concat rows) in
  let cell := Z.to_nat (g * g) in
  ((total mod cell)%nat <> 0%nat ->
   view_m1_1_s_s rows g = Py.Raise Py.RuntimeError) /\
  ((total mod cell)%nat = 0%nat ->
   exists m,
     view_m1_1_s_s rows g = Py.Ok m /\
     length m = (total / cell)%nat /\
     Forall (square_image (Z.to_nat g)) m /\
     concat (concat (concat m)) = concat rows).
Proof.
  intros Hg total cell.
  assert (Hs : (1 <= Z.to_nat g)%nat) by lia.
  assert (Hcell : cell = (Z.to_nat g * Z.to_nat g)%nat).
  { unfold cell. apply Z2Nat.inj_mul; lia. }
  assert (Hc1 : (1 <= cell)%nat) by (rewrite Hcell; nia).
  assert (Hle : (g <=? 0) = false) by (apply Z.leb_gt; lia).
  unfold view_m1_1_s_s. fold total cell. rewrite Hle. simpl orb.
  split.
  - intros Hne. apply Nat.eqb_neq in Hne. rewrite Hne. reflexivity.
  - intros Hz. rewrite Hz. simpl.
    eexists. split; [reflexivity |].
    assert (Hlen : length (concat rows) = (total / cell * cell)%nat).
    { pose proof (Nat.div_mod_eq total cell) as Hdm. fold total. lia. }
    destruct (chunks_shape cell (total / cell) (concat rows) Hc1 Hlen)
      as [Hl Hall].
    split; [rewrite length_map; exact Hl |]. split.
    + apply Forall_map. eapply Forall_impl; [exact Hall |].
      intros img Himg. simpl in Himg. rewrite Hcell in Himg.
      destruct (chunks_shape (Z.to_nat g) (Z.to_nat g) img Hs Himg) as [Hl' Hall'].
      exists (chunks (Z.to_nat g) img). auto.
    + rewrite concat_singleton_chunks by exact Hs.
      apply concat_chunks. exact Hc1.
Qed.

End RegroupFacts.

Section ImportanceMap.
Context `{Timm} `{!Collaborators}.

(** The side of the map of a model with [g * g] patches. *)
Lemma importance_map_unfold (self : SelectiveMagnoViT)
    (line_drawing : image_batch) (scores : list (list scalar)) (g : Z) :
  1 <= g -> g * g < 2 ^ 53 ->
  num_patches self = g * g ->
  scorer_forward (scorer self) line_drawing = Py.Ok scores ->
  get_patch_importance_map self line_drawing = view_m1_1_s_s scores g.
Proof.
  intros Hg Hgg HN Hsc.
  unfold get_patch_importance_map. rewrite Hsc, HN. simpl.
  destruct (F64Facts.int_pow_half_square g ltac:(lia) Hgg) as (r & -> & Hr).
  simpl. rewrite Hr. reflexivity.
Qed.

(** X10. [get_patch_importance_map] does not check that the scorer
    returned [num_patches] scores per image: it regroups whatever came
    back. With [g * g] patches configured, the call succeeds exactly
    when [g * g] divides the total number of scores; it then returns
    that total divided by [g * g] maps of [g] by [g] cells, with the
    scores in their original order, and raises [RuntimeError]
    otherwise. *)
Theorem importance_map_regroups_any_scores (self : SelectiveMagnoViT)
    (line_drawing : image_batch) (scores : list (list scalar)) (g : Z) :
  1 <= g -> g * g < 2 ^ 53 ->
  num_patches self = g * g ->
  scorer_forward (scorer self) line_drawing = Py.Ok scores ->
  let total := length (concat scores) in
  let cell := Z.to_nat (g * g) in
  ((total mod cell)%nat <> 0%nat ->
   get_patch_importance_map self line_drawing = Py.Raise Py.RuntimeError) /\
  ((total mod cell)%nat = 0%nat ->
   exists m,
     get_patch_importance_map self line_drawing = Py.Ok m /\
     length m = (total / cell)%nat /\
     Forall (square_image (Z.to_nat g)) m /\
     concat (concat (concat m)) = concat scores).
Proof.
  intros Hg Hgg HN Hsc.
  rewrite (importance_map_unfold self line_drawing scores g Hg Hgg HN Hsc).
  apply view_regroups. exact Hg.
Qed.

(** X13. The map is laid out row by row: the score of patch [i] of
    image [b] is the cell in row [i // g], column [i % g] of map [b]. *)
Theorem importance_map_cell_of_patch (self : SelectiveMagnoViT)
    (line_drawing : image_batch) (scores : list (list scalar)) (g : Z) :
  1 <= g -> g * g < 2 ^ 53 ->
  num_patches self = g * g ->
  scorer_forward (scorer self) line_drawing = Py.Ok scores ->
  Forall (fun row => length row = Z.to_nat (num_patches self)) scores ->
  exists m,
    get_patch_importance_map self line_drawing = Py.Ok m /\
    forall b row i s,
      scores !! b = Some row -> row !! i = Some s ->
      exists grid cells,
        m !! b = Some [grid] /\
        grid !! (i / Z.to_nat g)%nat = Some cells /\
        cells !! (i mod Z.to_nat g)%nat = Some s.
Proof.
  intros Hg Hgg HN Hsc Hrows.
  rewrite (importance_map_unfold self line_drawing scores g Hg Hgg HN Hsc).
  rewrite HN in Hrows.
  assert (Hc1 : (1 <= Z.to_nat (g * g))%nat) by nia.
  assert (Hle : (g <=? 0) = false) by (apply Z.leb_gt; lia).
  unfold view_m1_1_s_s. rewrite Hle. simpl orb.
  assert (Hmod : (length (concat scores) mod Z.to_nat (g * g))%nat = 0%nat).
  { clear -Hrows Hc1. induction Hrows as [| row rows Hrow _ IH]; simpl.
    - apply Nat.Div0.mod_0_l.
    - rewrite length_app, Hrow.
      rewrite <- Nat.Div0.add_mod_idemp_l, Nat.Div0.mod_same. exact IH. }
  rewrite Hmod. simpl.
  eexists. split; [reflexivity |].
  intros b row i s Hb Hi.
  rewrite chunks_concat by assumption.
  destruct (chunks_lookup_elem (Z.to_nat g) i row s ltac:(lia) Hi)
    as (cells & Hcells & Hs).
  exists (chunks (Z.to_nat g) row), cells.
  split; [| split; assumption].
  rewrite list_lookup_fmap, Hb. reflexivity.
Qed.

(** X9. The constructor's checks accept [img_size = 0]. The model it
    then returns has no patches, yet [get_num_selected_patches]
    reports 1, and both diagnostics raise [RuntimeError]: there is no
    patch to rank and no grid to fill. *)
Theorem zero_img_size_is_accepted (a : init_args) (self : SelectiveMagnoViT) :
  __init__ a = Py.Ok self ->
  arg_img_size a = 0 ->
  num_patches self = 0 /\
  get_num_selected_patches self = Py.Ok 1 /\
  forall line_drawing scores,
    scorer_forward (scorer self) line_drawing = Py.Ok scores ->
    get_patch_importance_map self line_drawing = Py.Raise Py.RuntimeError /\
    (scores <> [] -> Forall (fun row => row = []) scores ->
     get_selected_patch_indices self line_drawing = Py.Raise Py.RuntimeError).
Proof.
  intros Hinit Himg.
  destruct (init_built a self Hinit)
    as (vit0 & d & pe & pos & head & -> & Hr & _ & _ & _ & _ & _ & Hnum & _).
  rewrite Himg in Hnum. simpl in Hnum.
  destruct (in_range_finite _ Hr) as (m & e & Hp).
  split; [exact Hnum |]. split.
  { unfold get_num_selected_patches, built. simpl. rewrite Hnum, Hp. reflexivity. }
  intros line_drawing scores Hsc. split.
  - unfold get_patch_importance_map. rewrite Hsc. unfold built. simpl.
    rewrite Hnum. reflexivity.
  - intros Hne Hall. unfold get_selected_patch_indices. rewrite Hsc.
    unfold built. simpl. rewrite Hp.
    destruct scores as [| row scores']; [contradiction |].
    inversion Hall; subst. reflexivity.
Qed.

End ImportanceMap.

(** ** The two diagnostics together *)

Section ChunkElems.
Context {A : Type}.

(** A cell of a list cut into rows is an element of the list. *)
Lemma chunks_lookup_inv (s r c : nat) (l : list A) (row : list A) (x : A) :
  (1 <= s)%nat -> (length l mod s)%nat = 0%nat ->
  chunks s l !! r = Some row -> row !! c = Some x ->
  l !! (r * s + c)%nat = Some x.
Proof.
  intros Hs Hmod Hr Hc.
  assert (Hlen : length l = (length l / s * s)%nat).
  { pose proof (Nat.div_mod_eq (length l) s). lia. }
  destruct (chunks_shape s (length l / s) l Hs Hlen) as [Hcount _].
  assert (Hlt : (r < length l / s)%nat).
  { rewrite <- Hcount. eapply lookup_lt_Some, Hr. }
  rewrite chunks_lookup in Hr by (try exact Hs; nia).
  injection Hr as <-.
  apply lookup_take_Some in Hc. destruct Hc as [Hc _].
  rewrite lookup_drop in Hc. exact Hc.
Qed.

End ChunkElems.

Section Together.
Context `{Timm} `{!Collaborators}.

(** X14. The two diagnostics agree: for every image, the first index
    that [get_selected_patch_indices] returns points, row by row, at a
    cell of the map of [get_patch_importance_map] whose score no other
    cell of that map exceeds. *)
Theorem first_selected_index_is_brightest_cell (self : SelectiveMagnoViT)
    (line_drawing : image_batch) (scores : list (list scalar)) (g : Z) :
  score_total -> score_trans ->
  valid_percentage (patch_percentage self) ->
  1 <= g -> g * g < 2 ^ 53 ->
  num_patches self = g * g ->
  scorer_forward (scorer self) line_drawing = Py.Ok scores ->
  Forall (fun row => length row = Z.to_nat (num_patches self)) scores ->
  exists idx m,
    get_selected_patch_indices self line_drawing = Py.Ok idx /\
    get_patch_importance_map self line_drawing = Py.Ok m /\
    Forall2 (fun ids img =>
               exists a, ids !! 0%nat = Some a /\ brightest_cell (Z.to_nat g) a img)
            idx m.
Proof.
  intros Htot Htr Hp Hg Hgg HN Hsc Hrows.
  assert (Hrows' : Forall (fun row => Z.of_nat (length row) = g * g) scores).
  { eapply Forall_impl; [exact Hrows |]. intros row Hrow. simpl in Hrow.
    rewrite Hrow, HN. lia. }
  destruct (selected_indices_unfold self line_drawing scores (g * g) Hp
              ltac:(nia) Hsc Hrows') as (x & t & Hx & Ht & Hk & Hidx).
  assert (Htop : exists idx, topk scores (Z.max 1 t) = Py.Ok idx /\
            Forall2 (fun row ids => starts_at_maximum row ids) scores idx).
  { unfold topk. apply mapM_Forall2.
    eapply Forall_impl; [exact Hrows' |]. intros row Hrow. simpl in Hrow.
    destruct (topk_row_sorted (Z.max 1 t) row Htot Htr ltac:(lia))
      as (ids & Hids & _ & Hmax).
    exists ids. auto. }
  destruct Htop as (idx & Htopk & Hfirst).
  rewrite (importance_map_unfold self line_drawing scores g Hg Hgg HN Hsc).
  rewrite HN in Hrows.
  assert (Hs : (1 <= Z.to_nat g)%nat) by lia.
  assert (Hcell : Z.to_nat (g * g) = (Z.to_nat g * Z.to_nat g)%nat)
    by (apply Z2Nat.inj_mul; lia).
  assert (Hc1 : (1 <= Z.to_nat (g * g))%nat) by nia.
  assert (Hle : (g <=? 0) = false) by (apply Z.leb_gt; lia).
  unfold view_m1_1_s_s. rewrite Hle. simpl orb.
  assert (Hmod : (length (concat scores) mod Z.to_nat (g * g))%nat = 0%nat).
  { clear -Hrows Hc1. induction Hrows as [| row rows Hrow _ IH]; simpl.
    - apply Nat.Div0.mod_0_l.
    - rewrite length_app, Hrow.
      rewrite <- Nat.Div0.add_mod_idemp_l, Nat.Div0.mod_same. exact IH. }
  rewrite Hmod. simpl.
  rewrite chunks_concat by assumption.
  exists idx. eexists. split; [rewrite Hidx; exact Htopk |]. split; [reflexivity |].
  clear -Hfirst Hrows Hs Hcell.
  induction Hfirst as [| row ids rows idx (a & sa & Ha & Hsa & Hmax) _ IH];
    [constructor |].
  inversion Hrows as [| ? ? Hrow Hrest]; subst.
  simpl. constructor; [| apply IH; exact Hrest].
  exists a. split; [exact Ha |].
  destruct (chunks_lookup_elem (Z.to_nat g) a row sa Hs Hsa) as (cells & Hcells & Hcell_a).
  exists (chunks (Z.to_nat g) row), cells, sa.
  split; [reflexivity |]. split; [exact Hcells |]. split; [exact Hcell_a |].
  intros r c cells' s' Hr Hc.
  apply (Hmax (r * Z.to_nat g + c)%nat).
  apply (chunks_lookup_inv (Z.to_nat g) r c row cells' s' Hs); try assumption.
  rewrite Hrow, Hcell. apply Nat.Div0.mod_mul.
Qed.

End Together.

(** ** The number of selected patches as a function *)

Section Budget.
Context `{Torch}.

(** X12. The number of selected patches never shrinks when the
    percentage or the number of patches grows. *)
Theorem num_selected_is_monotone (self self' : SelectiveMagnoViT) :
  valid_percentage (patch_percentage self) ->
  valid_percentage (patch_percentage self') ->
  F64.leb (patch_percentage self) (patch_percentage self') = true ->
  0 <= num_patches self <= num_patches self' ->
  num_patches self' < 2 ^ 53 ->
  exists k k',
    get_num_selected_patches self = Py.Ok k /\
    get_num_selected_patches self' = Py.Ok k' /\
    1 <= k <= k'.
Proof.
  intros (Hv & H0 & _) (Hv' & _ & H1') Hle HN HN'.
  destruct (F64OrderFacts.int_product_mono _ _ _ _ HN HN' Hv Hv' H0 Hle H1')
    as (x & x' & t & t' & Hx & Ht & Hx' & Ht' & Hb).
  exists (Z.max 1 t), (Z.max 1 t').
  unfold get_num_selected_patches.
  rewrite Hx, Hx'. simpl. rewrite Ht, Ht'. simpl.
  repeat split; lia.
Qed.

(** X11. Binary64 against exact arithmetic: with [f] the integer part
    of the exact product of [num_patches] and [patch_percentage],
    [get_num_selected_patches] returns [max(1, f)] or [max(1, f + 1)].
    It is never below, and the rounding of the product can add one. *)
Theorem num_selected_near_exact_floor (self : SelectiveMagnoViT) :
  valid_percentage (patch_percentage self) ->
  0 <= num_patches self < 2 ^ 53 ->
  let f := F64Order.floor_product (num_patches self) (patch_percentage self) in
  exists t,
    get_num_selected_patches self = Py.Ok (Z.max 1 t) /\
    f <= t <= f + 1 /\ 0 <= f <= num_patches self.
Proof.
  intros Hp HN f.
  assert (Hle : F64.nonneg_le (patch_percentage self) 1).
  { destruct Hp as (Hv & H0 & H1). apply F64Facts.percentage_le_one; assumption. }
  destruct Hp as (_ & H0 & _).
  unfold f. clear f.
  assert (Hfin : exists m e, patch_percentage self = S754_finite false m e).
  { destruct (patch_percentage self) as [[|] | [|] | | [|] m e];
      try discriminate; try contradiction. eauto. }
  destruct Hfin as (m & e & Ep). rewrite Ep in Hle |- *.
  destruct (F64OrderFacts.int_product_floor _ m e HN Hle)
    as (x & t & Hx & Ht & Hf & Hb).
  exists t. split.
  - unfold get_num_selected_patches. rewrite Ep, Hx. simpl. rewrite Ht. reflexivity.
  - split; [exact Hf |]. split; [| lia].
    simpl. apply Z.div_pos; [| apply F64OrderFacts.pow2_pos; lia].
    apply Z.mul_nonneg_nonneg; [lia | apply Z.pow_nonneg; lia].
Qed.

End Budget.

(** ** Less than the whole grid *)

Section BelowFull.
Context `{Timm} `{!Collaborators}.

(** X15. A [patch_percentage] below 1.0 always leaves a patch out: on
    a grid of at least two patches the rounding of the product never
    lifts the number of selected patches to the whole grid, in
    [get_num_selected_patches] and in every row of
    [get_selected_patch_indices]. *)
Theorem below_full_percentage_drops_a_patch (self : SelectiveMagnoViT) :
  valid_percentage (patch_percentage self) ->
  F64.ltb (patch_percentage self) F64.one = true ->
  (2 <= num_patches self < 2 ^ 53 ->
   exists k, get_num_selected_patches self = Py.Ok k /\
             1 <= k <= num_patches self - 1) /\
  forall line_drawing scores n,
    2 <= n < 2 ^ 53 ->
    scorer_forward (scorer self) line_drawing = Py.Ok scores ->
    Forall (fun row => Z.of_nat (length row) = n) scores ->
    exists idx,
      get_selected_patch_indices self line_drawing = Py.Ok idx /\
      Forall2 (fun row ids => (1 <= length ids < length row)%nat) scores idx.
Proof.
  intros Hp Hlt1. pose proof Hp as (Hv & Hgt0 & _). split.
  - intros HN.
    destruct (F64OrderFacts.int_product_below _ _ HN Hv Hgt0 Hlt1)
      as (x & t & Hx & Ht & Hb).
    exists (Z.max 1 t). split; [| lia].
    unfold get_num_selected_patches. rewrite Hx. simpl. rewrite Ht. reflexivity.
  - intros line_drawing scores n Hn Hsc Hrows.
    destruct (F64OrderFacts.int_product_below _ _ Hn Hv Hgt0 Hlt1)
      as (x & t & Hx & Ht & Hb).
    destruct (selected_indices_unfold self line_drawing scores n Hp
                ltac:(lia) Hsc Hrows) as (x' & t' & Hx' & Ht' & _ & ->).
    assert (x' = x) by congruence. subst x'.
    assert (t' = t) by congruence. subst t'.
    destruct (topk_lengths (Z.max 1 t) n scores ltac:(lia) Hrows)
      as (idx & Hidx & HF).
    exists idx. split; [exact Hidx |].
    clear -HF Hrows Hb Hn.
    induction HF as [| row ids rows idx Hlen _ IH]; [constructor |].
    inversion Hrows as [| ? ? Hrow Hrest]; subst.
    constructor; [lia | apply IH; exact Hrest].
Qed.

End BelowFull.

(** ** The forward pass *)

(** Split a successful [x ← r; k x] into the value of [r] and the
    rest. *)
Tactic Notation "unbind" hyp(H) "as" ident(x) ident(Hx) :=
  apply bind_ok in H; destruct H as (x & Hx & H).

Lemma bind_raise {A B : Type} (r : Py.result A) (k : A -> Py.result B)
    (cls : string) :
  (r ≫= k) = Py.Raise cls ->
  r = Py.Raise cls \/ exists a, r = Py.Ok a /\ k a = Py.Raise cls.
Proof. destruct r as [a | c]; [eauto | intros [= ->]; auto]. Qed.

Lemma mapM_raise {A B : Type} (f : A -> Py.result B) (l : list A) (cls : string) :
  mapM f l = Py.Raise cls -> exists a, a ∈ l /\ f a = Py.Raise cls.
Proof.
  induction l as [| a l IH]; simpl; [discriminate |].
  intros Hm. apply bind_raise in Hm. destruct Hm as [Ha | (b & _ & Hm)].
  - exists a. split; [left | exact Ha].
  - apply bind_raise in Hm. destruct Hm as [Hl | (bs & _ & Hm)]; [| discriminate].
    destruct (IH Hl) as (x & Hx & Hfx). exists x. split; [right; exact Hx | exact Hfx].
Qed.


Section TensorFacts.
Context `{Torch} `{!TensorSizes}.

Lemma vec_add_raise (a b : vec) (cls : string) :
  vec_add a b = Py.Raise cls -> cls = Py.RuntimeError.
Proof.
  unfold vec_add.
  destruct (vec_size a =? vec_size b); [discriminate |].
  destruct (vec_size a =? 1); [discriminate |].
  destruct (vec_size b =? 1); [discriminate |].
  intros [= <-]. reflexivity.
Qed.

Lemma tensor_add_raise (a b : list vec) (cls : string) :
  tensor_add a b = Py.Raise cls -> cls = Py.RuntimeError.
Proof.
  assert (H1 : forall (x : vec) l, mapM (vec_add x) l = Py.Raise cls ->
                              cls = Py.RuntimeError).
  { intros x l Hm. apply mapM_raise in Hm. destruct Hm as (y & _ & Hy).
    eapply vec_add_raise, Hy. }
  assert (H2 : forall (y : vec) l, mapM (fun x => vec_add x y) l = Py.Raise cls ->
                              cls = Py.RuntimeError).
  { intros y l Hm. apply mapM_raise in Hm. destruct Hm as (x & _ & Hx).
    eapply vec_add_raise, Hx. }
  assert (H3 : forall l l' : list vec,
             (if Nat.eqb (length l) (length l')
              then mapM (fun xy => vec_add xy.1 xy.2) (zip l l')
              else Py.Raise Py.RuntimeError) = Py.Raise cls ->
             cls = Py.RuntimeError).
  { intros l l' Hm. destruct (Nat.eqb (length l) (length l')).
    - apply mapM_raise in Hm. destruct Hm as (xy & _ & Hxy).
      eapply vec_add_raise, Hxy.
    - injection Hm as <-. reflexivity. }
  unfold tensor_add.
  destruct a as [| x [| x' a]], b as [| y [| y' b]]; eauto.
Qed.

Lemma torch_cat_dim1_raise (a b : list (list vec)) (cls : string) :
  torch_cat_dim1 a b = Py.Raise cls -> cls = Py.RuntimeError.
Proof.
  unfold torch_cat_dim1. destruct (_ && _); [discriminate |].
  intros [= <-]. reflexivity.
Qed.


Lemma same_size_all (d : Z) (vs : list vec) :
  Forall (fun v => vec_size v = d) vs -> same_size vs = true.
Proof.
  intros Hvs. destruct Hvs as [| v vs Hv Hvs]; [reflexivity |].
  simpl. apply forallb_forall. intros w Hw.
  rewrite Forall_forall in Hvs. apply list_elem_of_In in Hw.
  rewrite (Hvs w Hw), Hv. apply Z.eqb_refl.
Qed.

Lemma select_first_raise (x : list (list vec)) (cls : string) :
  select_first x = Py.Raise cls -> cls = Py.IndexError.
Proof.
  unfold select_first. intros Hm. apply mapM_raise in Hm.
  destruct Hm as ([| v s] & _ & Hs); [| discriminate].
  injection Hs as <-. reflexivity.
Qed.

Lemma PatchEmbed_forward_raise (pe : PatchEmbed) (x : image_batch) (cls : string) :
  PatchEmbed_forward pe x = Py.Raise cls ->
  cls = Py.AssertionError \/ cls = Py.RuntimeError.
Proof.
  unfold PatchEmbed_forward.
  destruct (negb _); [intros [= <-]; auto |].
  destruct (_ || _); [intros [= <-]; auto | discriminate].
Qed.


Lemma getattr_ok (o : gmap string value) (name : string) (v : value) :
  getattr o name = Py.Ok v <-> o !! name = Some v.
Proof.
  unfold getattr. destruct (o !! name) as [v' |]; split; intros E;
    try discriminate; injection E as <-; reflexivity.
Qed.

Lemma getattr_raise (o : gmap string value) (name cls : string) :
  getattr o name = Py.Raise cls -> cls = Py.AttributeError.
Proof.
  unfold getattr. destruct (o !! name); [discriminate |].
  intros [= <-]. reflexivity.
Qed.


Lemma get_tensor_raise (o : gmap string value) (name cls : string) :
  (v ← getattr o name; as_tensor v) = Py.Raise cls ->
  cls = Py.AttributeError \/ cls = Py.TypeError.
Proof.
  unfold getattr. destruct (o !! name) as [[] |]; simpl;
    try discriminate; intros [= <-]; auto.
Qed.

End TensorFacts.

Section Forward.
Context `{Timm} `{!TensorSizes} `{!Collaborators}.

(** [forward] is its first five steps followed by the last four. *)
Lemma forward_steps (self : SelectiveMagnoViT) (training : bool) (g : generator)
    (magno_image line_drawing : image_batch) :
  forward self training g magno_image line_drawing =
  (full_sequence ← forward_tokens self magno_image line_drawing;
   forward_backbone self training g full_sequence).
Proof.
  unfold forward, forward_tokens, forward_backbone.
  destruct (scorer_forward (scorer self) line_drawing); [| reflexivity]. simpl.
  destruct (getattr (vit self) "patch_embed") as [pe |]; [| reflexivity]. simpl.
  destruct (call_patch_embed pe magno_image); [| reflexivity]. simpl.
  destruct (getattr (vit self) "pos_embed") as [v |]; [| reflexivity]. simpl.
  destruct (as_tensor v); [| reflexivity]. simpl.
  destruct (selector_forward _ _ _ _ _); [| reflexivity]. simpl.
  destruct (getattr (vit self) "cls_token") as [v' |]; [| reflexivity]. simpl.
  destruct (as_tensor v'); [| reflexivity]. simpl.
  destruct (tensor_add _ _); [| reflexivity]. simpl.
  destruct (torch_cat_dim1 _ _); reflexivity.
Qed.


(** No exception of the first five steps is theirs: it comes from the
    scorer, the selector, or an operation of Python or torch. *)
Lemma forward_tokens_raise (self : SelectiveMagnoViT)
    (magno_image line_drawing : image_batch) (cls : string) :
  forward_tokens self magno_image line_drawing = Py.Raise cls ->
  cls ∈ operation_errors \/ raised_by_callee self line_drawing cls.
Proof.
  assert (Ha : Py.AttributeError ∈ operation_errors) by (unfold operation_errors; repeat constructor).
  assert (Ht : Py.TypeError ∈ operation_errors) by (unfold operation_errors; repeat constructor).
  assert (Hs : Py.AssertionError ∈ operation_errors) by (unfold operation_errors; repeat constructor).
  assert (Hr : Py.RuntimeError ∈ operation_errors) by (unfold operation_errors; repeat constructor).
  unfold forward_tokens. intros Hf.
  apply bind_raise in Hf. destruct Hf as [Hf | (scores & _ & Hf)].
  { right. left. exact Hf. }
  apply bind_raise in Hf. destruct Hf as [Hf | (v & _ & Hf)].
  { apply getattr_raise in Hf. subst cls. auto. }
  apply bind_raise in Hf. destruct Hf as [Hf | (all_patches & _ & Hf)].
  { destruct v as [z | rows | pe | f | f]; simpl in Hf;
      try (injection Hf as <-; auto).
    apply PatchEmbed_forward_raise in Hf. destruct Hf as [-> | ->]; auto. }
  apply bind_raise in Hf. destruct Hf as [Hf | (pos & _ & Hf)].
  { apply get_tensor_raise in Hf. destruct Hf as [-> | ->]; auto. }
  apply bind_raise in Hf. destruct Hf as [Hf | (selected & _ & Hf)].
  { right. right. left. eauto. }
  apply bind_raise in Hf. destruct Hf as [Hf | (cls_token & _ & Hf)].
  { apply get_tensor_raise in Hf. destruct Hf as [-> | ->]; auto. }
  apply bind_raise in Hf. destruct Hf as [Hf | (cwp & _ & Hf)].
  { apply tensor_add_raise in Hf. subst cls. auto. }
  apply torch_cat_dim1_raise in Hf. subst cls. auto.
Qed.

Lemma call_blocks_raise (self : SelectiveMagnoViT) (line_drawing : image_batch)
    (name : string) (v : value) (training : bool) (g : generator)
    (x : list (list vec)) (cls : string) :
  vit self !! name = Some v ->
  call_blocks v training g x = Py.Raise cls ->
  cls ∈ operation_errors \/ raised_by_callee self line_drawing cls.
Proof.
  intros Hv Hc. destruct v as [z | rows | pe | f | f]; simpl in Hc;
    try (injection Hc as <-; left; unfold operation_errors; repeat constructor).
  right. right. right. left. exists name, f, training, g, x. auto.
Qed.

(** Nor is any exception of the last four steps: it comes from a
    module of the backbone, the head, or an operation. *)
Lemma forward_backbone_raise (self : SelectiveMagnoViT) (line_drawing : image_batch)
    (training : bool) (g : generator) (x : list (list vec)) (cls : string) :
  forward_backbone self training g x = Py.Raise cls ->
  cls ∈ operation_errors \/ raised_by_callee self line_drawing cls.
Proof.
  assert (Ha : Py.AttributeError ∈ operation_errors) by (unfold operation_errors; repeat constructor).
  assert (Ht : Py.TypeError ∈ operation_errors) by (unfold operation_errors; repeat constructor).
  assert (Hi : Py.IndexError ∈ operation_errors) by (unfold operation_errors; repeat constructor).
  unfold forward_backbone. intros Hf.
  apply bind_raise in Hf. destruct Hf as [Hf | (pos_drop & Hv1 & Hf)].
  { apply getattr_raise in Hf. subst cls. auto. }
  apply getattr_ok in Hv1.
  apply bind_raise in Hf. destruct Hf as [Hf | ([x1 ga] & _ & Hf)].
  { eapply call_blocks_raise; eassumption. }
  apply bind_raise in Hf. destruct Hf as [Hf | (blocks & Hv2 & Hf)].
  { apply getattr_raise in Hf. subst cls. auto. }
  apply getattr_ok in Hv2.
  apply bind_raise in Hf. destruct Hf as [Hf | ([x2 gb] & _ & Hf)].
  { eapply call_blocks_raise; eassumption. }
  apply bind_raise in Hf. destruct Hf as [Hf | (norm & Hv3 & Hf)].
  { apply getattr_raise in Hf. subst cls. auto. }
  apply getattr_ok in Hv3.
  apply bind_raise in Hf. destruct Hf as [Hf | ([x3 gc] & _ & Hf)].
  { eapply call_blocks_raise; eassumption. }
  apply bind_raise in Hf. destruct Hf as [Hf | (cls_output & _ & Hf)].
  { apply select_first_raise in Hf. subst cls. auto. }
  apply bind_raise in Hf. destruct Hf as [Hf | (head & Hv4 & Hf)].
  { apply getattr_raise in Hf. subst cls. auto. }
  apply getattr_ok in Hv4.
  apply bind_raise in Hf. destruct Hf as [Hf | (logits & _ & Hf)]; [| discriminate].
  destruct head as [z | rows | pe | f | f]; simpl in Hf;
    try (injection Hf as <-; auto).
  right. right. right. right. exists f, cls_output. auto.
Qed.

Lemma forward_raise (self : SelectiveMagnoViT) (training : bool) (g : generator)
    (magno_image line_drawing : image_batch) (cls : string) :
  forward self training g magno_image line_drawing = Py.Raise cls ->
  cls ∈ operation_errors \/ raised_by_callee self line_drawing cls.
Proof.
  rewrite forward_steps. intros Hf.
  apply bind_raise in Hf. destruct Hf as [Hf | (tokens & _ & Hf)].
  - eapply forward_tokens_raise, Hf.
  - eapply forward_backbone_raise, Hf.
Qed.

(** The line drawing reaches the scorer and the selector only. *)
Lemma forward_tokens_line_drawing (self : SelectiveMagnoViT)
    (magno_image line_drawing line_drawing' : image_batch) :
  scorer_forward (scorer self) line_drawing'
    = scorer_forward (scorer self) line_drawing ->
  (forall all_patches pos_embed patch_scores,
      selector_forward (selector self) all_patches pos_embed patch_scores
        line_drawing'
      = selector_forward (selector self) all_patches pos_embed patch_scores
          line_drawing) ->
  forward_tokens self magno_image line_drawing'
  = forward_tokens self magno_image line_drawing.
Proof.
  intros Hsc Hsel. unfold forward_tokens. rewrite Hsc.
  destruct (scorer_forward (scorer self) line_drawing); [| reflexivity]. simpl.
  destruct (getattr (vit self) "patch_embed") as [pe |]; [| reflexivity]. simpl.
  destruct (call_patch_embed pe magno_image); [| reflexivity]. simpl.
  destruct (getattr (vit self) "pos_embed") as [v |]; [| reflexivity]. simpl.
  destruct (as_tensor v); [| reflexivity]. simpl.
  rewrite Hsel. reflexivity.
Qed.




(** C3 (amended). [forward] validates no shape itself and raises no
    exception of its own: whatever leaves it was raised by the scorer,
    the selector, a module of the backbone or the head, or is the
    [AttributeError], [TypeError], [AssertionError], [RuntimeError] or
    [IndexError] of an operation; so a [ShapeMismatchError] leaves it
    only if one of the objects it calls raised it. On a model the
    constructor built, a [magno_image] whose height or width differs
    from [img_size] is rejected by the assertion of the backbone's
    patch embedding, after the scorer has run on the line drawing (an
    exception of the scorer propagates instead). When the selector
    returns a batch of another size than [magno_image]'s, a
    [RuntimeError] reaches the caller, from [torch.cat] at the latest.
    The line drawing is read by the scorer and the selector only: on
    two line drawings for which these two return the same, [forward]
    returns the same, so a line drawing is rejected for its size only
    if the scorer or the selector rejects it. *)
Theorem forward_has_no_shape_validation (self : SelectiveMagnoViT)
    (training : bool) (g : generator) (magno_image line_drawing : image_batch) :
  (forall cls,
      forward self training g magno_image line_drawing = Py.Raise cls ->
      cls ∈ operation_errors \/ raised_by_callee self line_drawing cls) /\
  (forward self training g magno_image line_drawing
     = Py.Raise "ShapeMismatchError" ->
   raised_by_callee self line_drawing "ShapeMismatchError") /\
  (forall a,
      __init__ a = Py.Ok self ->
      Z.of_nat (im_height magno_image) <> img_size self \/
      Z.of_nat (im_width magno_image) <> img_size self ->
      forward self training g magno_image line_drawing =
        match scorer_forward (scorer self) line_drawing with
        | Py.Ok _ => Py.Raise Py.AssertionError
        | Py.Raise cls => Py.Raise cls
        end) /\
  (forall scores all_patches pos_embed cls_token selected,
      scorer_forward (scorer self) line_drawing = Py.Ok scores ->
      (patch_embed ← getattr (vit self) "patch_embed";
       call_patch_embed patch_embed magno_image) = Py.Ok all_patches ->
      vit self !! "pos_embed" = Some (VTensor pos_embed) ->
      selector_forward (selector self) all_patches pos_embed scores line_drawing
        = Py.Ok selected ->
      vit self !! "cls_token" = Some (VTensor cls_token) ->
      length selected <> im_batch magno_image ->
      forward self training g magno_image line_drawing
        = Py.Raise Py.RuntimeError) /\
  (forall line_drawing',
      scorer_forward (scorer self) line_drawing'
        = scorer_forward (scorer self) line_drawing ->
      (forall all_patches pos_embed patch_scores,
          selector_forward (selector self) all_patches pos_embed patch_scores
            line_drawing'
          = selector_forward (selector self) all_patches pos_embed patch_scores
              line_drawing) ->
      forward self training g magno_image line_drawing'
      = forward self training g magno_image line_drawing).
Proof.
  split; [intros cls; apply forward_raise |].
  split.
  { intros Hf. apply forward_raise in Hf. destruct Hf as [Hf | Hf]; [| exact Hf].
    exfalso. unfold operation_errors in Hf.
    repeat (apply elem_of_cons in Hf; destruct Hf as [Hf | Hf]; [discriminate |]).
    inversion Hf. }
  split.
  { intros a Hinit Hsize.
    destruct (init_ok_inv a self Hinit) as (_ & _ & _ & Hcon).
    destruct (construct_ok_inv a self Hcon)
      as (vit0 & d & pe & pos & head & _ & _ & Hpe0 & _ & _ & Hself).
    destruct (PatchEmbed_init_fields _ _ _ _ _ Hpe0) as (Hpimg & _ & _).
    unfold forward.
    destruct (scorer_forward (scorer self) line_drawing) as [scores | cls];
      [| reflexivity].
    simpl.
    assert (Hpe : getattr (vit self) "patch_embed" = Py.Ok (VPatchEmbed pe)).
    { rewrite Hself. unfold built, getattr. simpl.
      rewrite lookup_insert_ne by discriminate.
      rewrite lookup_insert_ne by discriminate.
      rewrite lookup_insert_eq. reflexivity. }
    rewrite Hpe. simpl. unfold PatchEmbed_forward. rewrite Hpimg.
    assert (Himg : img_size self = arg_img_size a) by (rewrite Hself; reflexivity).
    rewrite Himg in Hsize.
    assert (E : (Z.of_nat (im_height magno_image) =? arg_img_size a)
                && (Z.of_nat (im_width magno_image) =? arg_img_size a) = false).
    { apply andb_false_iff.
      destruct Hsize as [Hh | Hw]; [left | right]; apply Z.eqb_neq; assumption. }
    rewrite E. reflexivity. }
  split.
  { intros scores all_patches pos_embed cls_token selected
      Hsc Hpe Hpos Hsel Hcls Hlen.
    unfold forward. rewrite Hsc. simpl.
    apply bind_ok in Hpe. destruct Hpe as (pe' & Hpe1 & Hpe2).
    rewrite Hpe1. simpl. rewrite Hpe2. simpl.
    unfold getattr. rewrite Hpos. simpl. rewrite Hsel. simpl.
    rewrite Hcls. simpl.
    destruct (tensor_add cls_token (take 1 pos_embed)) as [cwp | cls] eqn:Hadd.
    - simpl. unfold torch_cat_dim1. rewrite length_replicate.
      assert (E : Nat.eqb (im_batch magno_image) (length selected) = false)
        by (apply Nat.eqb_neq; congruence).
      rewrite E. reflexivity.
    - apply tensor_add_raise in Hadd. subst cls. reflexivity. }
  intros line_drawing' Hsc Hsel. rewrite !forward_steps.
  rewrite (forward_tokens_line_drawing self magno_image line_drawing line_drawing'
             Hsc Hsel).
  reflexivity.
Qed.

End Forward.

(** ** What the backbone is given *)

Section Tokens.
Context `{TimmSizes} `{!Collaborators}.

(** X6. On a constructed model whose backbone has a class token [c]
    of shape [(1, 1, embed_dim)], and for a magno image of three
    channels and of side [img_size], which is positive: the selector is
    called with the embeddings of all [num_patches] patches of every
    image and the whole positional table, and when it returns one list
    of rows of [embed_dim] scalars per image, the backbone receives for
    every image the token [c + pos_embed[0]] followed by exactly the
    rows the selector returned for it. *)
Theorem forward_feeds_cls_then_selected (a : init_args) (self : SelectiveMagnoViT)
    (training : bool) (g : generator) (magno_image line_drawing : image_batch)
    (scores : list (list scalar)) (c : vec) :
  __init__ a = Py.Ok self ->
  vit self !! "cls_token" = Some (VTensor [c]) ->
  vec_size c = embed_dim self ->
  0 < img_size self ->
  Z.of_nat (im_height magno_image) = img_size self ->
  Z.of_nat (im_width magno_image) = img_size self ->
  im_chans magno_image = 3%nat ->
  scorer_forward (scorer self) line_drawing = Py.Ok scores ->
  exists pe pos0 pos,
    vit self !! "patch_embed" = Some (VPatchEmbed pe) /\
    vit self !! "pos_embed" = Some (VTensor (pos0 :: pos)) /\
    Z.of_nat (length pos) = num_patches self /\
    let all_patches :=
      map (fun b => map (pe_proj pe magno_image b)
                        (seq 0 (Z.to_nat (num_patches self))))
          (seq 0 (im_batch magno_image)) in
    forall selected,
      selector_forward (selector self) all_patches (pos0 :: pos) scores
        line_drawing = Py.Ok selected ->
      length selected = im_batch magno_image ->
      Forall (Forall (fun v => vec_size v = embed_dim self)) selected ->
      forward_tokens self magno_image line_drawing
        = Py.Ok (map (fun rows => vadd c pos0 :: rows) selected) /\
      forward self training g magno_image line_drawing
        = forward_backbone self training g
            (map (fun rows => vadd c pos0 :: rows) selected).
Proof.
  intros Hinit Hcls Hc Hpos_img Hh Hw Hch Hsc.
  destruct (init_built a self Hinit)
    as (vit0 & d & pe & pos & head & Hself & _ & Hps & Hmod & _ & _ & Hpimg & Hnum & Hlen).
  destruct (init_ok_inv a self Hinit) as (_ & _ & _ & Hcon).
  destruct (construct_ok_inv a self Hcon)
    as (vit0' & d' & pe' & pos' & head' & _ & _ & Hpe0 & Hpos0 & _ & Hself').
  assert (Hd : embed_dim self = d') by (rewrite Hself'; reflexivity).
  assert (Hpp : pe = pe').
  { assert (E : vit self !! "patch_embed" = Some (VPatchEmbed pe)).
    { rewrite Hself. unfold built. simpl.
      rewrite lookup_insert_ne by discriminate.
      rewrite lookup_insert_ne by discriminate.
      apply lookup_insert_eq. }
    rewrite Hself' in E. unfold built in E. simpl in E.
    rewrite lookup_insert_ne in E by discriminate.
    rewrite lookup_insert_ne in E by discriminate.
    rewrite lookup_insert_eq in E. congruence. }
  assert (Hqq : pos = pos').
  { assert (E : vit self !! "pos_embed" = Some (VTensor pos)).
    { rewrite Hself. unfold built. simpl.
      rewrite lookup_insert_ne by discriminate. apply lookup_insert_eq. }
    rewrite Hself' in E. unfold built in E. simpl in E.
    rewrite lookup_insert_ne in E by discriminate.
    rewrite lookup_insert_eq in E. congruence. }
  subst pe' pos'.
  pose proof (PatchEmbed_init_in_chans _ _ _ _ _ Hpe0) as Hin.
  destruct (PatchEmbed_init_fields _ _ _ _ _ Hpe0) as (_ & Hpps & _).
  pose proof (zeros_trunc_normal_size _ _ _ Hpos0) as Hsizes.
  assert (Hpe : vit self !! "patch_embed" = Some (VPatchEmbed pe)).
  { rewrite Hself. unfold built. simpl.
    rewrite lookup_insert_ne by discriminate.
    rewrite lookup_insert_ne by discriminate.
    apply lookup_insert_eq. }
  assert (Hpos : vit self !! "pos_embed" = Some (VTensor pos)).
  { rewrite Hself. unfold built. simpl.
    rewrite lookup_insert_ne by discriminate. apply lookup_insert_eq. }
  assert (HN : num_patches self = pe_num_patches pe) by (rewrite Hself; reflexivity).
  assert (Himg : img_size self = arg_img_size a) by (rewrite Hself; reflexivity).
  assert (Hnn : 0 <= pe_num_patches pe) by (rewrite Hnum; apply Z.square_nonneg).
  destruct pos as [| pos0 pos]; [simpl in Hlen; lia |].
  assert (Hp0 : vec_size pos0 = embed_dim self).
  { rewrite Hd. inversion Hsizes; assumption. }
  exists pe, pos0, pos. split; [exact Hpe |]. split; [exact Hpos |].
  split; [rewrite HN; simpl in Hlen; lia |].
  intros all_patches selected Hsel Hb Hsel_size.
  (* the image is no smaller than a patch *)
  assert (Hker : (arg_img_size a <? arg_patch_size a) = false).
  { apply Z.ltb_ge. rewrite Himg in Hpos_img.
    destruct (Z.le_gt_cases (arg_patch_size a) (arg_img_size a)) as [Hle | Hgt];
      [exact Hle |].
    rewrite Z.mod_small in Hmod by lia. lia. }
  assert (Htok : forward_tokens self magno_image line_drawing
                 = Py.Ok (map (fun rows => vadd c pos0 :: rows) selected)).
  { unfold forward_tokens. rewrite Hsc. simpl.
    unfold getattr. rewrite Hpe. simpl.
    unfold PatchEmbed_forward.
    rewrite Hpimg, <- Himg, Hh, Hw, Z.eqb_refl, Hin, Hch, Hpps, Himg, Hker. simpl.
    rewrite Hpos. simpl. rewrite <- HN. fold all_patches. rewrite Hsel. simpl.
    rewrite Hcls. simpl. unfold vec_add. rewrite Hc, Hp0, Z.eqb_refl. simpl.
    unfold torch_cat_dim1.
    rewrite length_replicate, Hb, Nat.eqb_refl. simpl.
    rewrite (same_size_all (embed_dim self)).
    - f_equal. rewrite <- Hb. clear.
      induction selected as [| rows sel IH]; [reflexivity |].
      simpl. f_equal. exact IH.
    - apply Forall_app. split.
      + apply Forall_concat, Forall_replicate.
        constructor; [| constructor].
        rewrite vadd_size by congruence. exact Hc.
      + apply Forall_concat. exact Hsel_size. }
  split; [exact Htok |].
  rewrite forward_steps, Htok. reflexivity.
Qed.

End Tokens.

(** ** Two calls in inference mode *)


Section Determinism.
Context `{Timm} `{!TensorSizes} `{!Smoothing}.
#[local] Existing Instance spec_collaborators.




End Determinism.

(** ** Concrete runs

    The model on the small backend of [Example], with the scorer and
    the selector as specified. *)

Import Example.
#[local] Existing Instance spec_collaborators.

Lemma model4_is_built : __init__ (args (F64.lit 4 10) 4 2) = Py.Ok model4.
Proof.
  rewrite init_after_validation;
    [| vm_compute; reflexivity | discriminate | reflexivity].
  reflexivity.
Qed.

Lemma model4_backbone :
  create_model (arg_vit_model_name (args (F64.lit 4 10) 4 2))
    (arg_pretrained (args (F64.lit 4 10) 4 2)) = Py.Ok pretrained_vit.
Proof. reflexivity. Qed.

Lemma model4_valid_percentage : valid_percentage (patch_percentage model4).
Proof. repeat split; vm_compute; reflexivity. Qed.

Lemma z_total : score_total.
Proof. intros a b. simpl. destruct (Z.leb_spec a b); [left | right]; [reflexivity | apply Z.leb_le; lia]. Qed.

Lemma z_trans : score_trans.
Proof. intros a b c. simpl. rewrite !Z.leb_le. lia. Qed.

(** Witness of C1: all-zero scores, four patches, [k = 2]. *)
Lemma selector_returns_exactly_k_witness :
  exists k out,
    spec_num_selected 4 (sel_patch_percentage (selector model4)) = Py.Ok k /\
    1 <= k <= 4 /\
    spec_selector_forward (selector model4) four_patches five_positions
      zero_scores drawing = Py.Ok out /\
    length out = length four_patches /\
    Forall (fun rows => Z.of_nat (length rows) = k) out.
Proof.
  apply (selector_returns_exactly_k (selector model4) four_patches
           five_positions zero_scores drawing 4).
  - exact model4_valid_percentage.
  - lia.
  - vm_compute. reflexivity.
  - reflexivity.
  - repeat constructor.
  - repeat constructor.
  - reflexivity.
Defined.

(** Counterexample to C2: with 4 patches and [patch_percentage = 0.4]
    the product is 1.6; the code keeps [int(1.6) = 1] patch where the
    rounded value of the claim is 2. *)
Lemma num_selected_rounding_counterexample :
  num_patches model4 = 4 /\
  patch_percentage model4 = F64.lit 4 10 /\
  get_num_selected_patches model4 = Py.Ok 1 /\
  spec_num_selected (num_patches model4) (patch_percentage model4) = Py.Ok 2.
Proof.
  split; [reflexivity |]. split; [reflexivity |].
  split; vm_compute; reflexivity.
Qed.

(** Witness of C2 (amended). *)
Lemma num_selected_is_truncated_product_witness :
  valid_percentage (patch_percentage model4) /\
  0 <= num_patches model4 < 2 ^ 53 /\
  exists x t r,
    F64.int_mul (num_patches model4) (patch_percentage model4) = Py.Ok x /\
    F64.to_int x = Py.Ok t /\ F64.py_round x = Py.Ok r /\
    get_num_selected_patches model4 = Py.Ok (Z.max 1 t) /\
    1 <= Z.max 1 t <= Z.max 1 (num_patches model4).
Proof.
  split; [exact model4_valid_percentage |].
  split; [vm_compute; split; [discriminate | reflexivity] |].
  destruct (num_selected_is_truncated_product model4 model4_valid_percentage)
    as (x & t & r & Hx & Ht & Hr & Hk & Hb & _).
  - vm_compute. split; [discriminate | reflexivity].
  - exists x, t, r. auto.
Defined.

(** Counterexample to C3, with the scorer and the selector of
    [spec_collaborators]: a line drawing of height 2 and width 8, in a
    batch of the size of the magno images', on a model configured for
    side 4 is accepted, and logits come back. Whatever the scorer and
    the selector are, when they accept this drawing and the selector
    returns one sequence of embeddings of two scalars, logits come
    back. *)
Lemma forward_shape_mismatch_counterexample :
  img_size model4 = 4 /\
  im_height wide_drawing = 2%nat /\ im_width wide_drawing = 8%nat /\
  im_height magno = 4%nat /\ im_width magno = 4%nat /\
  im_batch wide_drawing = im_batch magno /\
  forward model4 false 0%nat magno wide_drawing
    = Py.Ok ([[14; 14; 14]], 0%nat) /\
  forall (other : Collaborators) scores rows,
    @scorer_forward _ other (scorer model4) wide_drawing = Py.Ok scores ->
    @selector_forward _ other (selector model4)
      [[[6; 6]; [14; 14]; [6; 6]; [14; 14]]] (replicate 5 [0; 0]) scores
      wide_drawing = Py.Ok [rows] ->
    Forall (fun v : list Z => length v = 2%nat) rows ->
    exists logits,
      @forward _ _ other model4 false 0%nat magno wide_drawing
      = Py.Ok (logits, 0%nat).
Proof.
  split; [reflexivity |]. split; [reflexivity |]. split; [reflexivity |].
  split; [reflexivity |]. split; [reflexivity |]. split; [reflexivity |].
  split; [vm_compute; reflexivity |].
  intros other scores rows Hsc Hsel Hrows.
  exists [replicate 3 14].
  unfold forward. rewrite Hsc.
  change (Py.Ok scores ≫= ?k) with (k scores). cbv beta.
  replace (getattr (vit model4) "patch_embed")
    with (Py.Ok (VPatchEmbed
                   {| pe_img_size := 4; pe_patch_size := 2; pe_in_chans := 3;
                      pe_num_patches := 4; pe_proj := proj 4 2 3 2 |}))
    by reflexivity.
  change (Py.Ok ?v ≫= ?k) with (k v). cbv beta.
  replace (call_patch_embed _ magno)
    with (Py.Ok [[[6; 6]; [14; 14]; [6; 6]; [14; 14]]] : Py.result (list (list vec)))
    by (vm_compute; reflexivity).
  change (Py.Ok ?v ≫= ?k) with (k v). cbv beta.
  replace (v ← getattr (vit model4) "pos_embed"; as_tensor v)
    with (Py.Ok (replicate 5 [0; 0]) : Py.result (list vec))
    by reflexivity.
  change (Py.Ok ?v ≫= ?k) with (k v). cbv beta.
  rewrite Hsel.
  change (Py.Ok ?v ≫= ?k) with (k v). cbv beta.
  replace (v ← getattr (vit model4) "cls_token"; as_tensor v)
    with (Py.Ok [[7; 7]] : Py.result (list vec))
    by reflexivity.
  change (Py.Ok ?v ≫= ?k) with (k v). cbv beta.
  change (tensor_add _ _) with (Py.Ok [[7; 7]] : Py.result (list (list Z))).
  change (Py.Ok ?v ≫= ?k) with (k v). cbv beta.
  match goal with
  | |- context [torch_cat_dim1 ?x ?y] =>
      assert (Hcat : torch_cat_dim1 x y = Py.Ok [[7; 7] :: rows])
  end.
  { unfold torch_cat_dim1. simpl. rewrite app_nil_r.
    replace (forallb _ rows) with true; [reflexivity |].
    symmetry. apply forallb_forall. intros v Hv.
    rewrite Forall_forall in Hrows. apply list_elem_of_In in Hv.
    rewrite (Hrows v Hv). reflexivity. }
  rewrite Hcat. reflexivity.
Qed.

(** Witness of C3 (amended): a magno image of height 2 and width 8
    meets the assertion of the patch embedding, an operation's
    exception; a scorer that accepts square line drawings only raises
    what leaves [forward] on another; a selector whose batch follows
    the two line drawings, against one magno image, ends in the
    [RuntimeError] of [torch.cat]; and the line drawing of height 2
    and width 8, which the scorer and the selector treat as the one of
    side 4, gives what that one gives. *)
Lemma forward_has_no_shape_validation_witness :
  forward model4 true 5%nat wide_magno drawing = Py.Raise Py.AssertionError /\
  (Py.AssertionError ∈ operation_errors \/
   raised_by_callee model4 drawing Py.AssertionError) /\
  @raised_by_callee _ square_only model4 wide_drawing "ShapeMismatchError" /\
  @forward _ _ per_score_row model4 true 5%nat magno two_drawings
    = Py.Raise Py.RuntimeError /\
  forward model4 true 5%nat magno wide_drawing
    = forward model4 true 5%nat magno drawing.
Proof.
  assert (Hwide : forward model4 true 5%nat wide_magno drawing
                  = Py.Raise Py.AssertionError).
  { destruct (forward_has_no_shape_validation model4 true 5%nat wide_magno drawing)
      as (_ & _ & Hsize & _).
    rewrite (Hsize (args (F64.lit 4 10) 4 2) model4_is_built);
      [reflexivity |]. left. discriminate. }
  split; [exact Hwide |].
  split.
  { destruct (forward_has_no_shape_validation model4 true 5%nat wide_magno drawing)
      as (Hown & _).
    apply Hown, Hwide. }
  split.
  { destruct (@forward_has_no_shape_validation _ _ _ square_only model4 true 5%nat
                magno wide_drawing) as (_ & Hshape & _).
    apply Hshape. reflexivity. }
  split.
  { destruct (@forward_has_no_shape_validation _ _ _ per_score_row model4 true 5%nat
                magno two_drawings) as (_ & _ & _ & Hcat & _).
    apply (Hcat [[0; 5; 3; 0]; [3; 0; 0; 1]]
                [[[6; 6]; [14; 14]; [6; 6]; [14; 14]]]
                (replicate 5 [0; 0]) [[7; 7]] [[[6; 6]]; [[6; 6]]]).
    - vm_compute. reflexivity.
    - vm_compute. reflexivity.
    - reflexivity.
    - reflexivity.
    - reflexivity.
    - discriminate. }
  destruct (forward_has_no_shape_validation model4 true 5%nat magno drawing)
    as (_ & _ & _ & _ & Hline).
  apply Hline.
  - vm_compute. reflexivity.
  - intros all_patches pos_embed patch_scores. reflexivity.
Defined.

(** Counterexample to C4: with [patch_size = 0] the constructor raises
    [ZeroDivisionError], neither the configuration error for an
    [img_size] of 64, which 0 does not divide, nor a success for an
    [img_size] of 0; and a configuration that passes both checks still
    fails to construct when the backbone factory rejects the model
    name. *)
Lemma init_zero_patch_size_counterexample :
  in_range (F64.lit 4 10) = true /\
  ~ Z.divide 0 64 /\
  __init__ (args (F64.lit 4 10) 64 0) = Py.Raise Py.ZeroDivisionError /\
  Z.divide 0 0 /\
  __init__ (args (F64.lit 4 10) 0 0) = Py.Raise Py.ZeroDivisionError /\
  Py.ZeroDivisionError <> Py.ValueError /\
  Py.ZeroDivisionError <> "ConfigurationError" /\
  Z.divide 2 4 /\
  __init__ unknown_model_args = Py.Raise Py.RuntimeError.
Proof.
  split; [vm_compute; reflexivity |].
  split; [intros [z Hz]; lia |].
  split; [apply init_zero_patch_size; [vm_compute |]; reflexivity |].
  split; [exists 0; reflexivity |].
  split; [apply init_zero_patch_size; [vm_compute |]; reflexivity |].
  split; [discriminate |]. split; [discriminate |].
  split; [exists 2; reflexivity |].
  rewrite init_after_validation;
    [reflexivity | vm_compute; reflexivity | discriminate | reflexivity].
Qed.

(** Witness of C4 (amended): 64 is not a multiple of 5. *)
Lemma init_validation_witness :
  arg_patch_size (args (F64.lit 4 10) 64 5) <> 0 /\
  __init__ (args (F64.lit 4 10) 64 5) = Py.Raise Py.ValueError.
Proof.
  assert (Hps : arg_patch_size (args (F64.lit 4 10) 64 5) <> 0) by discriminate.
  split; [exact Hps |].
  destruct (init_validation (args (F64.lit 4 10) 64 5) Hps)
    as [[_ Hraise] | (_ & Hmod & _)]; [exact Hraise | discriminate Hmod].
Defined.


(** In training mode the logits follow the generator: dropout draws
    from it. *)
Lemma forward_in_training_follows_generator :
  outputs (forward model4 true 0%nat magno drawing) = Py.Ok [[14; 14; 14]] /\
  outputs (forward model4 true 1%nat magno drawing) = Py.Ok [[0; 0; 0]].
Proof. split; vm_compute; reflexivity. Qed.


(** Witness of C6. *)
Lemma importance_map_roundtrip_witness :
  exists m,
    get_patch_importance_map model4 drawing = Py.Ok m /\
    length m = length [[0; 5; 3; 0]] /\
    Forall (square_image (Z.to_nat 2)) m /\
    flatten_map m (num_patches model4) = [[0; 5; 3; 0]].
Proof.
  apply (importance_map_roundtrip model4 drawing [[0; 5; 3; 0]] 2).
  - lia.
  - vm_compute. reflexivity.
  - reflexivity.
  - vm_compute. reflexivity.
  - repeat constructor.
Defined.

(** Witness of C7. *)
Lemma selected_indices_are_topk_witness :
  exists x t idx,
    F64.int_mul 4 (patch_percentage model4) = Py.Ok x /\
    F64.to_int x = Py.Ok t /\
    get_selected_patch_indices model4 drawing = Py.Ok idx /\
    Forall2 (topk_of_row (Z.max 1 t)) [[0; 5; 3; 0]] idx.
Proof.
  apply (selected_indices_are_topk_by_raw_score model4 drawing [[0; 5; 3; 0]] 4).
  - exact z_total.
  - exact z_trans.
  - exact model4_valid_percentage.
  - split; [lia | vm_compute; reflexivity].
  - vm_compute. reflexivity.
  - repeat constructor.
Defined.

(** Witness of C8. *)
Lemma selected_rows_ascending_witness :
  exists k out,
    spec_selector_forward (selector model4) four_patches five_positions
      [[0; 5; 3; 0]] drawing = Py.Ok out /\
    Forall2
      (fun item rows =>
         let idx := spec_select_indices (selector model4) (Z.to_nat k) drawing
                      item.1 item.2.2 in
         StronglySorted lt idx /\ NoDup idx /\
         (forall i, i ∈ idx -> (i < 4)%nat) /\
         Forall2 (fun i v =>
                    exists e p, item.2.1 !! i = Some e /\
                                five_positions !! (i + 1)%nat = Some p /\
                                (i + 1 <> 0)%nat /\ v = vadd e p)
                 idx rows)
      (zip (seq 0 (length four_patches)) (zip four_patches [[0; 5; 3; 0]])) out.
Proof.
  apply (selected_rows_ascending_with_positions (selector model4) four_patches
           five_positions [[0; 5; 3; 0]] drawing 4).
  - exact model4_valid_percentage.
  - lia.
  - vm_compute. reflexivity.
  - reflexivity.
  - repeat constructor.
  - repeat constructor.
  - reflexivity.
Defined.

(** Witness of C9. *)
Lemma init_replaces_three_components_witness :
  (exists pe,
      PatchEmbed_init 4 2 3 (embed_dim model4) = Py.Ok pe /\
      vit model4 !! "patch_embed" = Some (VPatchEmbed pe)) /\
  (exists rows,
      zeros_trunc_normal_ (4 / 2 * (4 / 2) + 1) (embed_dim model4) = Py.Ok rows /\
      vit model4 !! "pos_embed" = Some (VTensor rows) /\
      Z.of_nat (length rows) = 4 / 2 * (4 / 2) + 1) /\
  (exists head,
      Linear (embed_dim model4) 3 = Py.Ok head /\
      vit model4 !! "head" = Some (VLinear head)) /\
  forall name,
    name <> "patch_embed" -> name <> "pos_embed" -> name <> "head" ->
    vit model4 !! name = pretrained_vit !! name.
Proof.
  apply (init_replaces_three_components (args (F64.lit 4 10) 4 2) model4
           pretrained_vit).
  - exact model4_is_built.
  - exact model4_backbone.
Defined.

(** Witness of C10. *)
Lemma selector_defaults_witness :
  sel_patch_percentage (selector model4) = F64.lit 4 10 /\
  sel_threshold (selector model4) = F64.lit 3 10 /\
  sel_gaussian_std (selector model4) = F64.lit 25 100.
Proof.
  destruct (selector_defaults (args (F64.lit 4 10) 4 2) model4 model4_is_built)
    as (Hp & _ & Ht & Hg).
  split; [exact Hp |]. split; [apply Ht | apply Hg]; left; reflexivity.
Defined.

(** ** More concrete runs *)

Import ExampleModels.

Lemma model0_is_built : __init__ (args (F64.lit 4 10) 0 2) = Py.Ok model0.
Proof.
  rewrite init_after_validation;
    [| vm_compute; reflexivity | discriminate | reflexivity].
  reflexivity.
Qed.

Lemma model4_selects_one : get_num_selected_patches model4 = Py.Ok 1.
Proof. vm_compute. reflexivity. Qed.

Lemma model4_report : get_model_info model4 = Py.Ok report4.
Proof.
  unfold get_model_info. rewrite model4_selects_one. reflexivity.
Qed.

Lemma full4_valid_percentage : valid_percentage (patch_percentage full4).
Proof. repeat split; vm_compute; reflexivity. Qed.

Lemma a_third_valid_percentage : valid_percentage (patch_percentage a_third_of_six).
Proof. repeat split; vm_compute; reflexivity. Qed.

Lemma drawing_scores :
  scorer_forward (scorer model4) drawing = Py.Ok [[0; 5; 3; 0]].
Proof. vm_compute. reflexivity. Qed.

(** Witness of X1. *)
Lemma model_info_of_constructed_witness :
  exists report k,
    get_model_info model4 = Py.Ok report /\
    get_num_selected_patches model4 = Py.Ok k /\
    1 <= k <= 4 /\
    report !! "selected_patches" = Some (InfoInt k) /\
    report !! "num_patches" = Some (InfoInt 4) /\
    report !! "patch_percentage" = Some (InfoFloat (F64.lit 4 10)) /\
    forall key, key ∉ info_keys -> report !! key = None.
Proof.
  destruct (model_info_of_constructed (args (F64.lit 4 10) 4 2) model4
              model4_is_built)
    as (report & k & Hr & Hk & Hb & Hs & Hn & _ & _ & _ & _ & Hp & _ & _ & _ & Hkeys).
  - vm_compute. reflexivity.
  - vm_compute. reflexivity.
  - exists report, k. repeat split; try assumption; apply Hb.
Defined.

(** Witness of X2: 45 elements, 24 of them frozen. *)
Lemma model_info_parameter_counts_witness :
  exists total trainable,
    report4 !! "total_params" = Some (InfoInt total) /\
    report4 !! "trainable_params" = Some (InfoInt trainable) /\
    0 <= trainable <= total /\
    total - trainable = 24.
Proof.
  destruct (model_info_parameter_counts model4 report4 model4_report)
    as (total & trainable & Ht & Hr & Hb & Hd & _).
  exists total, trainable.
  split; [exact Ht |]. split; [exact Hr |]. split; [exact Hb |]. exact Hd.
Defined.

(** Witness of X3. *)
Lemma constructed_grid_tiles_image_witness :
  patch_size model4 <> 0 /\
  img_size model4 = 2 * patch_size model4 /\
  num_patches model4 = 2 * 2 /\
  num_patches model4 * (patch_size model4 * patch_size model4)
    = img_size model4 * img_size model4 /\
  scorer_patch_size (scorer model4) = patch_size model4.
Proof.
  destruct (constructed_grid_tiles_image (args (F64.lit 4 10) 4 2) model4
              model4_is_built) as (Hps & Himg & Hn & Harea & _ & _ & Hsc).
  split; [exact Hps |]. split; [exact Himg |]. split; [exact Hn |].
  split; [exact Harea | exact Hsc].
Defined.

(** Witness of X4: NaN with a [patch_size] of 0. *)
Lemma init_rejects_percentage_first_witness :
  __init__ (args S754_nan 64 0) = Py.Raise Py.ValueError.
Proof.
  apply (init_rejects_percentage_first (args S754_nan 64 0)).
  intros m e. discriminate.
Defined.

(** Witness of X5: the misspelt key changes nothing. *)
Lemma selector_config_read_at_two_keys_witness :
  __init__ (with_selector_config (args (F64.lit 4 10) 4 2) (Some misspelt))
  = __init__ (with_selector_config (args (F64.lit 4 10) 4 2) (Some tuned)) /\
  forall self,
    __init__ (with_selector_config (args (F64.lit 4 10) 4 2) (Some misspelt))
      = Py.Ok self ->
    sel_threshold (selector self) = F64.lit 1 2.
Proof.
  destruct (selector_config_read_at_two_keys (args (F64.lit 4 10) 4 2)
              (Some misspelt) (Some tuned)) as [Heq Hpass].
  - reflexivity.
  - reflexivity.
  - split; [exact Heq |]. intros self Hinit.
    destruct (Hpass self misspelt eq_refl Hinit) as [Ht _].
    apply Ht. reflexivity.
Defined.

(** Witness of X6: the selector returns the patches 1 and 2 of the
    one image. *)
Lemma forward_feeds_cls_then_selected_witness :
  forward_tokens model4 magno drawing = Py.Ok [[[7; 7]; [14; 14]; [6; 6]]] /\
  forward model4 true 0%nat magno drawing
    = forward_backbone model4 true 0%nat [[[7; 7]; [14; 14]; [6; 6]]].
Proof.
  destruct (forward_feeds_cls_then_selected (args (F64.lit 4 10) 4 2) model4
              true 0%nat magno drawing [[0; 5; 3; 0]] [7; 7])
    as (pe & pos0 & pos & Hpe & Hpos & _ & Hsel).
  - exact model4_is_built.
  - reflexivity.
  - reflexivity.
  - reflexivity.
  - reflexivity.
  - reflexivity.
  - reflexivity.
  - exact drawing_scores.
  - assert (Epe : pe = {| pe_img_size := 4; pe_patch_size := 2; pe_in_chans := 3;
                          pe_num_patches := 4; pe_proj := proj 4 2 3 2 |}).
    { assert (E : vit model4 !! "patch_embed"
                  = Some (VPatchEmbed
                            {| pe_img_size := 4; pe_patch_size := 2;
                               pe_in_chans := 3; pe_num_patches := 4;
                               pe_proj := proj 4 2 3 2 |}))
        by reflexivity.
      rewrite E in Hpe. injection Hpe as <-. reflexivity. }
    assert (Epos : pos0 :: pos = replicate 5 [0; 0]).
    { assert (E : vit model4 !! "pos_embed" = Some (VTensor (replicate 5 [0; 0])))
        by reflexivity.
      rewrite E in Hpos. injection Hpos as <- <-. reflexivity. }
    injection Epos as -> ->. subst pe.
    apply (Hsel [[[14; 14]; [6; 6]]]).
    + vm_compute. reflexivity.
    + reflexivity.
    + repeat constructor.
Defined.

(** Witness of X7. *)
Lemma selected_indices_listed_by_score_witness :
  exists idx,
    get_selected_patch_indices model4 drawing = Py.Ok idx /\
    Forall2 (fun row ids => by_descending_score row ids /\
                            starts_at_maximum row ids) [[0; 5; 3; 0]] idx.
Proof.
  apply (selected_indices_listed_by_score model4 drawing [[0; 5; 3; 0]] 4).
  - exact z_total.
  - exact z_trans.
  - exact model4_valid_percentage.
  - split; [lia | vm_compute; reflexivity].
  - exact drawing_scores.
  - repeat constructor.
Defined.

(** Witness of X8. *)
Lemma full_percentage_selects_every_patch_witness :
  get_num_selected_patches full4 = Py.Ok 4 /\
  exists idx,
    get_selected_patch_indices full4 drawing = Py.Ok idx /\
    Forall2 (fun row ids => ids ≡ₚ seq 0 (length row)) [[0; 5; 3; 0]] idx.
Proof.
  destruct (full_percentage_selects_every_patch full4 eq_refl) as [Hnum Hidx].
  split.
  - apply Hnum. vm_compute. split; [discriminate | reflexivity].
  - apply (Hidx drawing [[0; 5; 3; 0]] 4).
    + split; [lia | vm_compute; reflexivity].
    + vm_compute. reflexivity.
    + repeat constructor.
Defined.

(** Witness of X9. *)
Lemma zero_img_size_is_accepted_witness :
  num_patches model0 = 0 /\
  get_num_selected_patches model0 = Py.Ok 1 /\
  forall line_drawing scores,
    scorer_forward (scorer model0) line_drawing = Py.Ok scores ->
    get_patch_importance_map model0 line_drawing = Py.Raise Py.RuntimeError /\
    (scores <> [] -> Forall (fun row => row = []) scores ->
     get_selected_patch_indices model0 line_drawing = Py.Raise Py.RuntimeError).
Proof.
  apply (zero_img_size_is_accepted (args (F64.lit 4 10) 0 2) model0).
  - exact model0_is_built.
  - reflexivity.
Defined.

(** Witness of X10: the eight scores of a drawing twice as wide come
    back as two maps. *)
Lemma importance_map_regroups_any_scores_witness :
  exists m,
    get_patch_importance_map model4 long_drawing = Py.Ok m /\
    length m = 2%nat /\
    Forall (square_image 2) m /\
    concat (concat (concat m)) = [0; 5; 3; 0; 2; 0; 4; 8].
Proof.
  destruct (importance_map_regroups_any_scores model4 long_drawing
              [[0; 5; 3; 0; 2; 0; 4; 8]] 2) as [_ Hok].
  - lia.
  - vm_compute. reflexivity.
  - reflexivity.
  - vm_compute. reflexivity.
  - apply Hok. reflexivity.
Defined.

(** Witness of X11: a third of six patches. The exact product has the
    integer part 1; the binary64 product is 2. *)
Lemma num_selected_near_exact_floor_witness :
  F64Order.floor_product 6 (F64.lit 1 3) = 1 /\
  get_num_selected_patches a_third_of_six = Py.Ok 2 /\
  exists t,
    get_num_selected_patches a_third_of_six = Py.Ok (Z.max 1 t) /\
    1 <= t <= 1 + 1.
Proof.
  split; [vm_compute; reflexivity |]. split; [vm_compute; reflexivity |].
  destruct (num_selected_near_exact_floor a_third_of_six a_third_valid_percentage)
    as (t & Ht & Hb & _).
  - vm_compute. split; [discriminate | reflexivity].
  - exists t. split; [exact Ht |]. exact Hb.
Defined.

(** Witness of X12: 40% against 100% of four patches. *)
Lemma num_selected_is_monotone_witness :
  exists k k',
    get_num_selected_patches model4 = Py.Ok k /\
    get_num_selected_patches full4 = Py.Ok k' /\
    1 <= k <= k'.
Proof.
  apply (num_selected_is_monotone model4 full4).
  - exact model4_valid_percentage.
  - exact full4_valid_percentage.
  - vm_compute. reflexivity.
  - vm_compute. split; discriminate.
  - vm_compute. reflexivity.
Defined.

(** Witness of X13. *)
Lemma importance_map_cell_of_patch_witness :
  exists m,
    get_patch_importance_map model4 drawing = Py.Ok m /\
    forall b row i s,
      [[0; 5; 3; 0]] !! b = Some row -> row !! i = Some s ->
      exists grid cells,
        m !! b = Some [grid] /\
        grid !! (i / Z.to_nat 2)%nat = Some cells /\
        cells !! (i mod Z.to_nat 2)%nat = Some s.
Proof.
  apply (importance_map_cell_of_patch model4 drawing [[0; 5; 3; 0]] 2).
  - lia.
  - vm_compute. reflexivity.
  - reflexivity.
  - exact drawing_scores.
  - repeat constructor.
Defined.

(** Witness of X14. *)
Lemma first_selected_index_is_brightest_cell_witness :
  exists idx m,
    get_selected_patch_indices model4 drawing = Py.Ok idx /\
    get_patch_importance_map model4 drawing = Py.Ok m /\
    Forall2 (fun ids img =>
               exists a, ids !! 0%nat = Some a /\ brightest_cell (Z.to_nat 2) a img)
            idx m.
Proof.
  apply (first_selected_index_is_brightest_cell model4 drawing [[0; 5; 3; 0]] 2).
  - exact z_total.
  - exact z_trans.
  - exact model4_valid_percentage.
  - lia.
  - vm_compute. reflexivity.
  - reflexivity.
  - exact drawing_scores.
  - repeat constructor.
Defined.

(** Witness of X15: 40% of four patches. *)
Lemma below_full_percentage_drops_a_patch_witness :
  exists k, get_num_selected_patches model4 = Py.Ok k /\ 1 <= k <= 4 - 1.
Proof.
  destruct (below_full_percentage_drops_a_patch model4 model4_valid_percentage)
    as [Hnum _].
  - vm_compute. reflexivity.
  - apply Hnum. vm_compute. split; [discriminate | reflexivity].
Defined.
